(** * Falling-note rhythm game: scheduler, scoring and timeline editor

    A shallow embedding of the JavaScript sources of the game
    ([scripts/gameScene.js], [scripts/block.js], [scripts/player.js],
    [scripts/effects.js], [scripts/util.js], [scripts/editorScene.js],
    [config.js], [levels/song1.js], [levels/song2.js]) and the properties of
    its scheduler, its collision and scoring pass, the player animation and the
    editor's pointer handlers.

    Numbers.  A JavaScript number is modelled by a rational ([Q]); sums,
    products, quotients and comparisons are the exact ones, so rounding of the
    IEEE doubles is not part of the model, and a quotient by zero (which the
    sources only reach on a degenerate canvas) is [0] here where JavaScript
    gives [NaN] or an infinity.  Rounding is monotone, so the order and the
    clamps of the sources are the same on doubles; an identity that holds
    without rounding only (the editor's two coordinate maps, C6) is stated
    for the rationals with the doubles beside it (module [Doubles]).  The
    canvases on which the sources divide by 0 are left out by hypotheses
    ([editorCanvas], or that the divisor is not 0).  Counters and
    indices that the sources only ever increment by one or read from integer
    literals are [nat] or [Z].

    Objects.  Every class is a record, every method a function from the
    receiver (and its arguments) to the receiver after the call.  Arrays are
    lists; [Array.prototype.sort] is the stable sort that ECMAScript 2019
    prescribes. *)

From Stdlib Require Import QArith Qround Qabs Qminmax ZArith List Bool Lia Psatz.
From Stdlib Require Import Ascii String Sorted Permutation.
From Stdlib Require PrimFloat.
From Stdlib Require Import Reals.
Import ListNotations.

Local Open Scope Q_scope.

(** ** JavaScript numbers and the [Math] object *)

(** [a <= b], [a < b] as the booleans a JavaScript condition tests. *)
Definition Qleb (a b : Q) : bool := Qle_bool a b.
Definition Qltb (a b : Q) : bool := negb (Qle_bool b a).

(** [parseFloat(t.toFixed(2))]: [toFixed] takes the integer [n] with
    [n / 100] closest to the magnitude, the larger one on a tie, and keeps the
    sign. *)
Definition toFixed2 (t : Q) : Q :=
  if Qltb t 0
  then - (inject_Z (Qfloor ((- t) * 100 + 0.5)) / 100)
  else inject_Z (Qfloor (t * 100 + 0.5)) / 100.

(** What the host supplies and the sources call: [Math.sin], [Math.PI] and the
    successive results of [Math.random()], each in [[0, 1)].  The doubles they
    return are rationals; no branch of the game depends on the values of
    [Math_sin] and [Math_PI], which only feed what is drawn. *)
Class JSRuntime := {
  Math_sin : Q -> Q;
  Math_PI : Q;
  Math_random : nat -> Q;
  Math_random_unit : forall n, 0 <= Math_random n /\ Math_random n < 1
}.

(** A runtime to evaluate the model on concrete inputs: every draw of
    [Math.random()] is [1/2]. *)
Definition sampleRuntime : JSRuntime.
Proof.
  refine {| Math_sin := fun _ => 0; Math_PI := 355 # 113;
            Math_random := fun _ => 1 # 2 |}.
  intros _. split; [ unfold Qle; simpl; lia | reflexivity ].
Defined.

(** ** [config.js] *)

Inductive Effect := NoEffect | Rotate | Pulse | Fade.

(** A block type of [config.blockTypes].  The sources also read the optional
    properties [score] and [speed] of a type. *)
Record BlockType := {
  color : string;
  effect : Effect;
  typeScore : option Q;
  typeSpeed : option Q
}.

Module config.
Definition numLanes : Z := 6.
Module player.
Definition size : Q := 60.
Definition pulseAmplitude : Q := 0.15.
Definition pulseFrequency : Q := 1.5.
End player.
Module scoring.
Definition hit : Q := 1.
Definition miss : Q := 1.
End scoring.
Definition blockTypes : list BlockType :=
  [ {| color := "#ff6bcb"; effect := NoEffect; typeScore := None; typeSpeed := None |};
    {| color := "#5b86e5"; effect := Rotate; typeScore := None; typeSpeed := None |};
    {| color := "#f8c967"; effect := Pulse; typeScore := None; typeSpeed := None |} ].
End config.

(** [config.blockTypes[i]] for an integer [i]: [undefined] ([None]) out of
    range. *)
Definition blockTypeAt (i : Z) : option BlockType :=
  if (i <? 0)%Z then None else nth_error config.blockTypes (Z.to_nat i).

(** ** Levels and note events *)

Record NoteEvent := { time : Q; type : Z; lane : Z }.

(** A level descriptor ([levels/song1.js]); [spawns] may be missing. *)
Record Level := {
  title : string;
  file : string;
  levelDuration : Q;
  levelSpawns : option (list NoteEvent)
}.

Record Canvas := { canvasWidth : Q; canvasHeight : Q }.

(** A bounding box [{x, y, w, h}]. *)
Record Box := { boxX : Q; boxY : Q; boxW : Q; boxH : Q }.

(** ** [scripts/util.js] *)

Definition rectIntersect (ax ay aw ah bx b_y bw bh : Q) : bool :=
  Qltb ax (bx + bw) && Qltb bx (ax + aw) && Qltb ay (b_y + bh) && Qltb b_y (ay + ah).

(** [randomRange(min, max)] with the draw [r] of [Math.random()]. *)
Definition randomRange (r min max : Q) : Q := r * (max - min) + min.

(** ** [scripts/block.js] *)

Module Block.
Record t := {
  x : Q;          (* centre *)
  y : Q;          (* top *)
  size : Q;
  speed : Q;
  type : BlockType;
  rotation : Q;
  pulseTime : Q;
  alpha : Q
}.

Definition new (x y size speed : Q) (type : BlockType) : t :=
  {| x := x; y := y; size := size; speed := speed; type := type;
     rotation := 0; pulseTime := 0; alpha := 1 |}.

Definition update {rt : JSRuntime} (dt : Q) (b : t) : t :=
  let y' := y b + speed b * dt in
  match effect (type b) with
  | Rotate =>
      {| x := x b; y := y'; size := size b; speed := speed b; type := type b;
         rotation := rotation b + dt * Math_PI * 2;
         pulseTime := pulseTime b; alpha := alpha b |}
  | Pulse =>
      let pt := pulseTime b + dt in
      {| x := x b; y := y'; size := size b; speed := speed b; type := type b;
         rotation := rotation b; pulseTime := pt;
         alpha := 0.7 + 0.3 * Math_sin (pt * Math_PI * 2) |}
  | Fade =>
      {| x := x b; y := y'; size := size b; speed := speed b; type := type b;
         rotation := rotation b; pulseTime := pulseTime b;
         alpha := Qmax 0 (alpha b - dt * 0.3) |}
  | NoEffect =>
      {| x := x b; y := y'; size := size b; speed := speed b; type := type b;
         rotation := rotation b; pulseTime := pulseTime b; alpha := alpha b |}
  end.
End Block.

(** ** [scripts/player.js] *)

Module Player.
Record t := {
  canvas : Canvas;
  size : Q;
  width : Q;
  height : Q;
  x : Q;
  y : Q;
  targetX : Q;
  scale : Q;
  animationTime : Q;
  animationDuration : Q;
  pulseTime : Q;
  pulseAmplitude : Q;
  pulseFrequency : Q
}.

Definition new (canvas : Canvas) : t :=
  let size := config.player.size in
  let x := (canvasWidth canvas - size) / 2 in
  {| canvas := canvas; size := size; width := size; height := size;
     x := x; y := canvasHeight canvas - size - 20; targetX := x;
     scale := 1.0; animationTime := 0; animationDuration := 0.8;
     pulseTime := 0;
     pulseAmplitude := config.player.pulseAmplitude;
     pulseFrequency := config.player.pulseFrequency |}.

(** The entry animation of one [update]: the new [animationTime] and
    [entryScale]. *)
Definition entry {rt : JSRuntime} (dt : Q) (p : t) : Q * Q :=
  if Qltb (animationTime p) (animationDuration p)
  then
    let at' := animationTime p + dt in
    let progress := Qmin (at' / animationDuration p) 1 in
    (at', 0.8 + 0.2 * Math_sin (progress * Math_PI * 2))
  else (animationTime p, 1).

Definition update {rt : JSRuntime} (dt : Q) (p : t) : t :=
  let '(at', entryScale) := entry dt p in
  let pt := pulseTime p + dt in
  let pulsePhase := 2 * Math_PI * pulseFrequency p * pt in
  let pulseScale := 1 + pulseAmplitude p * Math_sin pulsePhase in
  let interp := Qmin (dt * 10) 1 in
  {| canvas := canvas p; size := size p; width := width p; height := height p;
     x := x p + (targetX p - x p) * interp;
     y := y p; targetX := targetX p;
     scale := entryScale * pulseScale;
     animationTime := at'; animationDuration := animationDuration p;
     pulseTime := pt;
     pulseAmplitude := pulseAmplitude p; pulseFrequency := pulseFrequency p |}.

Definition setPosition (touchX : Q) (p : t) : t :=
  let half := width p / 2 in
  let clamped := Qmax half (Qmin (canvasWidth (canvas p) - half) touchX) in
  {| canvas := canvas p; size := size p; width := width p; height := height p;
     x := x p; y := y p; targetX := clamped - half;
     scale := scale p;
     animationTime := animationTime p; animationDuration := animationDuration p;
     pulseTime := pulseTime p;
     pulseAmplitude := pulseAmplitude p; pulseFrequency := pulseFrequency p |}.
End Player.

(** ** [scripts/effects.js] *)

Module ExpandingSquareEffect.
Record t := {
  x : Q; y : Q; color : string;
  life : Q; maxLife : Q; size : Q; growth : Q; lineWidth : Q
}.

Definition new (x y : Q) (color : string) : t :=
  {| x := x; y := y; color := if String.eqb color "" then "#ffffff" else color;
     life := 0.4; maxLife := 0.4; size := 40; growth := 160; lineWidth := 3 |}.

Definition update (dt : Q) (e : t) : t :=
  {| x := x e; y := y e; color := color e;
     life := life e - dt; maxLife := maxLife e;
     size := size e + growth e * dt; growth := growth e;
     lineWidth := lineWidth e |}.
End ExpandingSquareEffect.

(** ** [levels/song1.js], [levels/song2.js] *)

(** The generator loop of a level file: [for (let i = 0; ; i++)] with its
    [break] once the rounded time passes [total]; [fuel] bounds the number of
    iterations. *)
Fixpoint generateSpawns (laneOf typeOf : Z -> Z) (interval total : Q)
    (fuel : nat) (i : Z) : list NoteEvent :=
  match fuel with
  | O => []
  | S fuel' =>
      let t := toFixed2 (inject_Z i * interval) in
      if Qltb total t then []
      else {| time := t; type := typeOf i; lane := laneOf i |}
             :: generateSpawns laneOf typeOf interval total fuel' (i + 1)
  end.

Definition typeCount : Z := Z.of_nat (List.length config.blockTypes).

Definition song1 : Level :=
  {| title := "魔法师的情书"; file := "assets/audio/song1.wav"; levelDuration := 120;
     levelSpawns :=
       Some (generateSpawns (fun i => i mod config.numLanes) (fun i => i mod typeCount)
               0.8 120 200 0)%Z |}.

Definition song2 : Level :=
  {| title := "快乐小蜜蜂"; file := "assets/audio/song2.wav"; levelDuration := 120;
     levelSpawns :=
       Some (generateSpawns (fun i => (config.numLanes - 1) - (i mod config.numLanes))
               (fun i => (typeCount - 1) - (i mod typeCount))
               0.8 120 200 0)%Z |}.

(** ** [scripts/gameScene.js] *)

(** What a scene hands to [changeScene]. *)
Inductive SceneRequest :=
| ToMenu
| ToGame (song : Level).

(** The audio collaborator ([wx.createInnerAudioContext()]): its source and
    the calls made on it so far. *)
Inductive AudioCall := AudioPlay | AudioStop.
Record InnerAudioContext := {
  autoplay : bool;
  src : string;
  audioCalls : list AudioCall
}.

Definition audioCall (c : AudioCall) (a : InnerAudioContext) : InnerAudioContext :=
  {| autoplay := autoplay a; src := src a; audioCalls := audioCalls a ++ [c] |}.

Module ScoreEffect.
(** The text [`+${pts}`] or [`-${miss}`]. *)
Inductive Text := Plus (pts : Q) | Minus (pts : Q).
Record t := {
  x : Q; y : Q; text : Text;
  life : Q; maxLife : Q; dy : Q; alpha : Q; color : string
}.
End ScoreEffect.

(** [array.splice(i, 1)]. *)
Definition splice1 {A} (i : nat) (l : list A) : list A :=
  firstn i l ++ skipn (S i) l.

Module GameScene.

(** The scene.  Besides the fields of the class there are [sceneRequest],
    the scene last handed to [changeScene]; [randomCalls], the number of calls
    of [Math.random()] so far; and two history variables that no method
    reads: [emitted], the spawn definitions the scheduler has handed to
    [spawnBlockOfType], and [spawned], every block ever pushed on [blocks]. *)
Record t := {
  canvas : Canvas;
  song : Level;
  sceneRequest : option SceneRequest;
  player : Player.t;
  blocks : list Block.t;
  spawns : list NoteEvent;
  spawnIndex : nat;
  spawnInterval : Q;
  spawnTimer : Q;
  score : Q;
  misses : Z;
  timeElapsed : Q;
  duration : Q;
  gameOver : bool;
  scoreEffects : list ScoreEffect.t;
  effects : list ExpandingSquareEffect.t;
  audioCtx : InnerAudioContext;
  audioStarted : bool;
  usePattern : bool;
  returnButtonBounds : option Box;
  lanePositions : list Q;
  randomCalls : nat;
  emitted : list NoteEvent;
  spawned : list Block.t
}.

Definition set_sceneRequest (v : option SceneRequest) (g : t) : t :=
  {| canvas := canvas g; song := song g; sceneRequest := v;
     player := player g; blocks := blocks g; spawns := spawns g;
     spawnIndex := spawnIndex g; spawnInterval := spawnInterval g;
     spawnTimer := spawnTimer g; score := score g; misses := misses g;
     timeElapsed := timeElapsed g; duration := duration g;
     gameOver := gameOver g; scoreEffects := scoreEffects g;
     effects := effects g; audioCtx := audioCtx g;
     audioStarted := audioStarted g; usePattern := usePattern g;
     returnButtonBounds := returnButtonBounds g;
     lanePositions := lanePositions g; randomCalls := randomCalls g;
     emitted := emitted g; spawned := spawned g |}.
Definition set_player (v : Player.t) (g : t) : t :=
  {| canvas := canvas g; song := song g; sceneRequest := sceneRequest g;
     player := v; blocks := blocks g; spawns := spawns g;
     spawnIndex := spawnIndex g; spawnInterval := spawnInterval g;
     spawnTimer := spawnTimer g; score := score g; misses := misses g;
     timeElapsed := timeElapsed g; duration := duration g;
     gameOver := gameOver g; scoreEffects := scoreEffects g;
     effects := effects g; audioCtx := audioCtx g;
     audioStarted := audioStarted g; usePattern := usePattern g;
     returnButtonBounds := returnButtonBounds g;
     lanePositions := lanePositions g; randomCalls := randomCalls g;
     emitted := emitted g; spawned := spawned g |}.
Definition set_blocks (v : list Block.t) (g : t) : t :=
  {| canvas := canvas g; song := song g; sceneRequest := sceneRequest g;
     player := player g; blocks := v; spawns := spawns g;
     spawnIndex := spawnIndex g; spawnInterval := spawnInterval g;
     spawnTimer := spawnTimer g; score := score g; misses := misses g;
     timeElapsed := timeElapsed g; duration := duration g;
     gameOver := gameOver g; scoreEffects := scoreEffects g;
     effects := effects g; audioCtx := audioCtx g;
     audioStarted := audioStarted g; usePattern := usePattern g;
     returnButtonBounds := returnButtonBounds g;
     lanePositions := lanePositions g; randomCalls := randomCalls g;
     emitted := emitted g; spawned := spawned g |}.
Definition set_spawnIndex (v : nat) (g : t) : t :=
  {| canvas := canvas g; song := song g; sceneRequest := sceneRequest g;
     player := player g; blocks := blocks g; spawns := spawns g;
     spawnIndex := v; spawnInterval := spawnInterval g;
     spawnTimer := spawnTimer g; score := score g; misses := misses g;
     timeElapsed := timeElapsed g; duration := duration g;
     gameOver := gameOver g; scoreEffects := scoreEffects g;
     effects := effects g; audioCtx := audioCtx g;
     audioStarted := audioStarted g; usePattern := usePattern g;
     returnButtonBounds := returnButtonBounds g;
     lanePositions := lanePositions g; randomCalls := randomCalls g;
     emitted := emitted g; spawned := spawned g |}.
Definition set_spawnTimer (v : Q) (g : t) : t :=
  {| canvas := canvas g; song := song g; sceneRequest := sceneRequest g;
     player := player g; blocks := blocks g; spawns := spawns g;
     spawnIndex := spawnIndex g; spawnInterval := spawnInterval g;
     spawnTimer := v; score := score g; misses := misses g;
     timeElapsed := timeElapsed g; duration := duration g;
     gameOver := gameOver g; scoreEffects := scoreEffects g;
     effects := effects g; audioCtx := audioCtx g;
     audioStarted := audioStarted g; usePattern := usePattern g;
     returnButtonBounds := returnButtonBounds g;
     lanePositions := lanePositions g; randomCalls := randomCalls g;
     emitted := emitted g; spawned := spawned g |}.
Definition set_score (v : Q) (g : t) : t :=
  {| canvas := canvas g; song := song g; sceneRequest := sceneRequest g;
     player := player g; blocks := blocks g; spawns := spawns g;
     spawnIndex := spawnIndex g; spawnInterval := spawnInterval g;
     spawnTimer := spawnTimer g; score := v; misses := misses g;
     timeElapsed := timeElapsed g; duration := duration g;
     gameOver := gameOver g; scoreEffects := scoreEffects g;
     effects := effects g; audioCtx := audioCtx g;
     audioStarted := audioStarted g; usePattern := usePattern g;
     returnButtonBounds := returnButtonBounds g;
     lanePositions := lanePositions g; randomCalls := randomCalls g;
     emitted := emitted g; spawned := spawned g |}.
Definition set_misses (v : Z) (g : t) : t :=
  {| canvas := canvas g; song := song g; sceneRequest := sceneRequest g;
     player := player g; blocks := blocks g; spawns := spawns g;
     spawnIndex := spawnIndex g; spawnInterval := spawnInterval g;
     spawnTimer := spawnTimer g; score := score g; misses := v;
     timeElapsed := timeElapsed g; duration := duration g;
     gameOver := gameOver g; scoreEffects := scoreEffects g;
     effects := effects g; audioCtx := audioCtx g;
     audioStarted := audioStarted g; usePattern := usePattern g;
     returnButtonBounds := returnButtonBounds g;
     lanePositions := lanePositions g; randomCalls := randomCalls g;
     emitted := emitted g; spawned := spawned g |}.
Definition set_timeElapsed (v : Q) (g : t) : t :=
  {| canvas := canvas g; song := song g; sceneRequest := sceneRequest g;
     player := player g; blocks := blocks g; spawns := spawns g;
     spawnIndex := spawnIndex g; spawnInterval := spawnInterval g;
     spawnTimer := spawnTimer g; score := score g; misses := misses g;
     timeElapsed := v; duration := duration g; gameOver := gameOver g;
     scoreEffects := scoreEffects g; effects := effects g;
     audioCtx := audioCtx g; audioStarted := audioStarted g;
     usePattern := usePattern g; returnButtonBounds := returnButtonBounds g;
     lanePositions := lanePositions g; randomCalls := randomCalls g;
     emitted := emitted g; spawned := spawned g |}.
Definition set_gameOver (v : bool) (g : t) : t :=
  {| canvas := canvas g; song := song g; sceneRequest := sceneRequest g;
     player := player g; blocks := blocks g; spawns := spawns g;
     spawnIndex := spawnIndex g; spawnInterval := spawnInterval g;
     spawnTimer := spawnTimer g; score := score g; misses := misses g;
     timeElapsed := timeElapsed g; duration := duration g; gameOver := v;
     scoreEffects := scoreEffects g; effects := effects g;
     audioCtx := audioCtx g; audioStarted := audioStarted g;
     usePattern := usePattern g; returnButtonBounds := returnButtonBounds g;
     lanePositions := lanePositions g; randomCalls := randomCalls g;
     emitted := emitted g; spawned := spawned g |}.
Definition set_scoreEffects (v : list ScoreEffect.t) (g : t) : t :=
  {| canvas := canvas g; song := song g; sceneRequest := sceneRequest g;
     player := player g; blocks := blocks g; spawns := spawns g;
     spawnIndex := spawnIndex g; spawnInterval := spawnInterval g;
     spawnTimer := spawnTimer g; score := score g; misses := misses g;
     timeElapsed := timeElapsed g; duration := duration g;
     gameOver := gameOver g; scoreEffects := v; effects := effects g;
     audioCtx := audioCtx g; audioStarted := audioStarted g;
     usePattern := usePattern g; returnButtonBounds := returnButtonBounds g;
     lanePositions := lanePositions g; randomCalls := randomCalls g;
     emitted := emitted g; spawned := spawned g |}.
Definition set_effects (v : list ExpandingSquareEffect.t) (g : t) : t :=
  {| canvas := canvas g; song := song g; sceneRequest := sceneRequest g;
     player := player g; blocks := blocks g; spawns := spawns g;
     spawnIndex := spawnIndex g; spawnInterval := spawnInterval g;
     spawnTimer := spawnTimer g; score := score g; misses := misses g;
     timeElapsed := timeElapsed g; duration := duration g;
     gameOver := gameOver g; scoreEffects := scoreEffects g; effects := v;
     audioCtx := audioCtx g; audioStarted := audioStarted g;
     usePattern := usePattern g; returnButtonBounds := returnButtonBounds g;
     lanePositions := lanePositions g; randomCalls := randomCalls g;
     emitted := emitted g; spawned := spawned g |}.
Definition set_audioCtx (v : InnerAudioContext) (g : t) : t :=
  {| canvas := canvas g; song := song g; sceneRequest := sceneRequest g;
     player := player g; blocks := blocks g; spawns := spawns g;
     spawnIndex := spawnIndex g; spawnInterval := spawnInterval g;
     spawnTimer := spawnTimer g; score := score g; misses := misses g;
     timeElapsed := timeElapsed g; duration := duration g;
     gameOver := gameOver g; scoreEffects := scoreEffects g;
     effects := effects g; audioCtx := v; audioStarted := audioStarted g;
     usePattern := usePattern g; returnButtonBounds := returnButtonBounds g;
     lanePositions := lanePositions g; randomCalls := randomCalls g;
     emitted := emitted g; spawned := spawned g |}.
Definition set_audioStarted (v : bool) (g : t) : t :=
  {| canvas := canvas g; song := song g; sceneRequest := sceneRequest g;
     player := player g; blocks := blocks g; spawns := spawns g;
     spawnIndex := spawnIndex g; spawnInterval := spawnInterval g;
     spawnTimer := spawnTimer g; score := score g; misses := misses g;
     timeElapsed := timeElapsed g; duration := duration g;
     gameOver := gameOver g; scoreEffects := scoreEffects g;
     effects := effects g; audioCtx := audioCtx g; audioStarted := v;
     usePattern := usePattern g; returnButtonBounds := returnButtonBounds g;
     lanePositions := lanePositions g; randomCalls := randomCalls g;
     emitted := emitted g; spawned := spawned g |}.
Definition set_returnButtonBounds (v : option Box) (g : t) : t :=
  {| canvas := canvas g; song := song g; sceneRequest := sceneRequest g;
     player := player g; blocks := blocks g; spawns := spawns g;
     spawnIndex := spawnIndex g; spawnInterval := spawnInterval g;
     spawnTimer := spawnTimer g; score := score g; misses := misses g;
     timeElapsed := timeElapsed g; duration := duration g;
     gameOver := gameOver g; scoreEffects := scoreEffects g;
     effects := effects g; audioCtx := audioCtx g;
     audioStarted := audioStarted g; usePattern := usePattern g;
     returnButtonBounds := v; lanePositions := lanePositions g;
     randomCalls := randomCalls g; emitted := emitted g;
     spawned := spawned g |}.
Definition set_randomCalls (v : nat) (g : t) : t :=
  {| canvas := canvas g; song := song g; sceneRequest := sceneRequest g;
     player := player g; blocks := blocks g; spawns := spawns g;
     spawnIndex := spawnIndex g; spawnInterval := spawnInterval g;
     spawnTimer := spawnTimer g; score := score g; misses := misses g;
     timeElapsed := timeElapsed g; duration := duration g;
     gameOver := gameOver g; scoreEffects := scoreEffects g;
     effects := effects g; audioCtx := audioCtx g;
     audioStarted := audioStarted g; usePattern := usePattern g;
     returnButtonBounds := returnButtonBounds g;
     lanePositions := lanePositions g; randomCalls := v;
     emitted := emitted g; spawned := spawned g |}.
Definition set_emitted (v : list NoteEvent) (g : t) : t :=
  {| canvas := canvas g; song := song g; sceneRequest := sceneRequest g;
     player := player g; blocks := blocks g; spawns := spawns g;
     spawnIndex := spawnIndex g; spawnInterval := spawnInterval g;
     spawnTimer := spawnTimer g; score := score g; misses := misses g;
     timeElapsed := timeElapsed g; duration := duration g;
     gameOver := gameOver g; scoreEffects := scoreEffects g;
     effects := effects g; audioCtx := audioCtx g;
     audioStarted := audioStarted g; usePattern := usePattern g;
     returnButtonBounds := returnButtonBounds g;
     lanePositions := lanePositions g; randomCalls := randomCalls g;
     emitted := v; spawned := spawned g |}.
Definition set_spawned (v : list Block.t) (g : t) : t :=
  {| canvas := canvas g; song := song g; sceneRequest := sceneRequest g;
     player := player g; blocks := blocks g; spawns := spawns g;
     spawnIndex := spawnIndex g; spawnInterval := spawnInterval g;
     spawnTimer := spawnTimer g; score := score g; misses := misses g;
     timeElapsed := timeElapsed g; duration := duration g;
     gameOver := gameOver g; scoreEffects := scoreEffects g;
     effects := effects g; audioCtx := audioCtx g;
     audioStarted := audioStarted g; usePattern := usePattern g;
     returnButtonBounds := returnButtonBounds g;
     lanePositions := lanePositions g; randomCalls := randomCalls g;
     emitted := emitted g; spawned := v |}.

(** The constructor. *)
Definition new (canvas : Canvas) (song : Level) : t :=
  let spawns := match levelSpawns song with Some l => l | None => [] end in
  let laneCount := config.numLanes in
  let laneWidth := canvasWidth canvas / inject_Z laneCount in
  {| canvas := canvas; song := song; sceneRequest := None;
     player := Player.new canvas; blocks := [];
     spawns := spawns; spawnIndex := 0; spawnInterval := 0.8; spawnTimer := 0;
     score := 0; misses := 0; timeElapsed := 0; duration := levelDuration song;
     gameOver := false; scoreEffects := []; effects := [];
     audioCtx := {| autoplay := false; src := file song; audioCalls := [] |};
     audioStarted := false;
     usePattern := negb (Nat.eqb (List.length spawns) 0);
     returnButtonBounds := None;
     lanePositions :=
       map (fun i => laneWidth * inject_Z (Z.of_nat i) + laneWidth / 2)
           (seq 0 (Z.to_nat laneCount));
     randomCalls := 0; emitted := []; spawned := [] |}.

(** [this.lanePositions[lane]] when [lane] is a position of the array. *)
Definition lanePosition (lane : Z) (g : t) : option Q :=
  if (0 <=? lane)%Z then nth_error (lanePositions g) (Z.to_nat lane) else None.

Definition _spawnBlockWithTypeDef {rt : JSRuntime} (typeDef : BlockType) (lane : Z)
    (g : t) : t :=
  let size := 40 in
  let '(x, g) :=
    match lanePosition lane g with
    | Some lx => (lx, g)
    | None =>
        (randomRange (Math_random (randomCalls g))
                     (size / 2) (canvasWidth (canvas g) - size / 2),
         set_randomCalls (S (randomCalls g)) g)
    end in
  let y := - size in
  let speed :=
    match typeSpeed typeDef with
    | Some v => if Qeq_bool v 0 then 200 else v
    | None => 200
    end in
  let block := Block.new x y size speed typeDef in
  set_spawned (spawned g ++ [block]) (set_blocks (blocks g ++ [block]) g).

(** [config.blockTypes[i]] is [undefined] only for an index out of range,
    which a draw of [Math.random()] in [[0, 1)] never produces; there the
    sources would throw on [typeDef.speed]. *)
Definition spawnBlockRandom {rt : JSRuntime} (g : t) : t :=
  let r1 := Math_random (randomCalls g) in
  let typeIndex := Qfloor (r1 * inject_Z typeCount) in
  let r2 := Math_random (S (randomCalls g)) in
  let lane := Qfloor (r2 * inject_Z config.numLanes) in
  let g := set_randomCalls (S (S (randomCalls g))) g in
  match blockTypeAt typeIndex with
  | Some typeDef => _spawnBlockWithTypeDef typeDef lane g
  | None => g
  end.

Definition spawnBlockOfType {rt : JSRuntime} (typeIndex lane : Z) (g : t) : t :=
  if ((typeIndex <? 0) || (typeIndex >=? typeCount))%Z then g
  else
    match blockTypeAt typeIndex with
    | Some typeDef => _spawnBlockWithTypeDef typeDef lane g
    | None => g
    end.

Definition addScoreEffect (x y : Q) (text : ScoreEffect.Text) (g : t) : t :=
  set_scoreEffects
    (scoreEffects g ++
     [ {| ScoreEffect.x := x; ScoreEffect.y := y; ScoreEffect.text := text;
          ScoreEffect.life := 0.8; ScoreEffect.maxLife := 0.8;
          ScoreEffect.dy := -60; ScoreEffect.alpha := 1.0;
          ScoreEffect.color :=
            match text with
            | ScoreEffect.Plus _ => "#2ecc71"
            | ScoreEffect.Minus _ => "#e74c3c"
            end |} ]) g.

(** The loop of [updateScoreEffects], from the last effect down. *)
Definition updateScoreEffects (dt : Q) (g : t) : t :=
  set_scoreEffects
    (fold_right
       (fun eff rest =>
          let life := ScoreEffect.life eff - dt in
          if Qleb life 0 then rest
          else {| ScoreEffect.x := ScoreEffect.x eff;
                  ScoreEffect.y := ScoreEffect.y eff + ScoreEffect.dy eff * dt;
                  ScoreEffect.text := ScoreEffect.text eff;
                  ScoreEffect.life := life;
                  ScoreEffect.maxLife := ScoreEffect.maxLife eff;
                  ScoreEffect.dy := ScoreEffect.dy eff;
                  ScoreEffect.alpha := life / ScoreEffect.maxLife eff;
                  ScoreEffect.color := ScoreEffect.color eff |} :: rest)
       [] (scoreEffects g)) g.

(** The last loop of [update], over [this.effects] from the last one down. *)
Definition updateEffects (dt : Q) (g : t) : t :=
  set_effects
    (fold_right
       (fun eff rest =>
          let eff := ExpandingSquareEffect.update dt eff in
          if Qleb (ExpandingSquareEffect.life eff) 0 then rest else eff :: rest)
       [] (effects g)) g.

Definition endGame (g : t) : t :=
  if gameOver g then g
  else set_audioCtx (audioCall AudioStop (audioCtx g)) (set_gameOver true g).

(** The scheduler's [while] loop.  Each iteration moves [spawnIndex] one
    step towards [spawns.length], so [spawns.length - spawnIndex] iterations
    are all it can make. *)
Fixpoint spawnDue {rt : JSRuntime} (fuel : nat) (g : t) : t :=
  match fuel with
  | O => g
  | S fuel' =>
      match nth_error (spawns g) (spawnIndex g) with
      | Some spawnDef =>
          if Qleb (time spawnDef) (timeElapsed g)
          then
            let g := spawnBlockOfType (type spawnDef) (lane spawnDef)
                       (set_emitted (emitted g ++ [spawnDef]) g) in
            spawnDue fuel' (set_spawnIndex (S (spawnIndex g)) g)
          else g
      | None => g
      end
  end.

(** The hit test of [update] for a block that has moved. *)
Definition hitsPlayer (block : Block.t) (p : Player.t) : bool :=
  let blockLeft := Block.x block - Block.size block / 2 in
  let blockTop := Block.y block in
  rectIntersect blockLeft blockTop (Block.size block) (Block.size block)
                (Player.x p) (Player.y p) (Player.width p) (Player.height p).

(** The test "fallen past the bottom" of [update]. *)
Definition pastBottom (block : Block.t) (c : Canvas) : bool :=
  Qltb (canvasHeight c) (Block.y block - Block.size block / 2).

(** The points of a hit. *)
Definition points (block : Block.t) : Q :=
  match typeScore (Block.type block) with
  | Some v => v
  | None => config.scoring.hit
  end.

(** The [for] loop of [update] over [this.blocks], from index [i] on:
    the blocks after their own [update], the indices pushed on [toRemove],
    and the scene with its score, misses and effects. *)
Fixpoint collide {rt : JSRuntime} (dt : Q) (i : nat) (pending : list Block.t)
    (toRemove : list nat) (g : t) : list Block.t * list nat * t :=
  match pending with
  | [] => ([], toRemove, g)
  | b :: rest =>
      let block := Block.update dt b in
      let '(toRemove, g) :=
        if hitsPlayer block (player g) then
          let pts := points block in
          let g := set_score (score g + pts) g in
          let g := addScoreEffect (Block.x block) (Block.y block)
                     (ScoreEffect.Plus pts) g in
          let g := set_effects
                     (effects g ++
                      [ExpandingSquareEffect.new (Block.x block) (Block.y block)
                         (color (Block.type block))]) g in
          (toRemove ++ [i], g)
        else if pastBottom block (canvas g) then
          let g := set_misses (misses g + 1)%Z g in
          let g :=
            if Qltb 0 config.scoring.miss then
              addScoreEffect (Block.x block) (canvasHeight (canvas g) - 60)
                (ScoreEffect.Minus config.scoring.miss)
                (set_score (Qmax 0 (score g - config.scoring.miss)) g)
            else g in
          (toRemove ++ [i], g)
        else (toRemove, g) in
      let '(rest, toRemove, g) := collide dt (S i) rest toRemove g in
      (block :: rest, toRemove, g)
  end.

(** The removal loop: [toRemove] from its last index down. *)
Definition removeBlocks (toRemove : list nat) (bs : list Block.t) : list Block.t :=
  fold_left (fun bs i => splice1 i bs) (rev toRemove) bs.

(** The head of [update]: the audio starts on the first frame, the clock
    advances, and blocks are spawned from the pattern or, without one, at
    random every [spawnInterval]. *)
Definition spawnPhase {rt : JSRuntime} (dt : Q) (g : t) : t :=
  let g :=
    if audioStarted g then g
    else set_audioCtx (audioCall AudioPlay (audioCtx g)) (set_audioStarted true g) in
  let g := set_timeElapsed (timeElapsed g + dt) g in
  if usePattern g then spawnDue (List.length (spawns g) - spawnIndex g) g
  else
    let g := set_spawnTimer (spawnTimer g + dt) g in
    if Qleb (spawnInterval g) (spawnTimer g)
    then spawnBlockRandom (set_spawnTimer (spawnTimer g - spawnInterval g) g)
    else g.

(** The collision loop and the removal loop of [update]. *)
Definition resolveBlocks {rt : JSRuntime} (dt : Q) (g : t) : t :=
  let '(bs, toRemove, g) := collide dt 0 (blocks g) [] g in
  set_blocks (removeBlocks toRemove bs) g.

Definition update {rt : JSRuntime} (dt : Q) (g : t) : t :=
  if gameOver g then g
  else
    let g := spawnPhase dt g in
    let g := set_player (Player.update dt (player g)) g in
    let g := resolveBlocks dt g in
    let g := if Qleb (duration g) (timeElapsed g) then endGame g else g in
    let g := updateScoreEffects dt g in
    updateEffects dt g.

(** [render], as far as it writes the scene: the bounds of the return
    button. *)
Definition render (g : t) : t :=
  let btnW := 64 in
  let btnH := 28 in
  set_returnButtonBounds
    (Some {| boxX := canvasWidth (canvas g) - btnW - 15; boxY := 40;
             boxW := btnW; boxH := btnH |}) g.

Definition inReturnButton (touchX touchY : Q) (g : t) : bool :=
  match returnButtonBounds g with
  | Some b =>
      Qleb (boxX b) touchX && Qleb touchX (boxX b + boxW b)
      && Qleb (boxY b) touchY && Qleb touchY (boxY b + boxH b)
  | None => false
  end.

Definition onTouchStart (touchX touchY : Q) (g : t) : t :=
  if gameOver g then set_sceneRequest (Some ToMenu) g
  else if inReturnButton touchX touchY g then
    set_sceneRequest (Some ToMenu)
      (set_audioCtx (audioCall AudioStop (audioCtx g)) g)
  else set_player (Player.setPosition touchX (player g)) g.

Definition onTouchMove (touchX : Q) (g : t) : t :=
  if gameOver g then g
  else set_player (Player.setPosition touchX (player g)) g.

(** A run of frames: [update(dt)] for each [dt] in turn. *)
Definition updates {rt : JSRuntime} (dts : list Q) (g : t) : t :=
  fold_left (fun g dt => update dt g) dts g.

(** What the host delivers to a running game: the frames of the main loop
    ([update(dt)] then [render()]), the touches, and the two callbacks of the
    audio context, which both call [endGame]. *)
Inductive Event :=
| Frame (dt : Q)
| TouchStart (x y : Q)
| TouchMove (x y : Q)
| AudioEnded
| AudioError.

Definition step {rt : JSRuntime} (g : t) (e : Event) : t :=
  match e with
  | Frame dt => render (update dt g)
  | TouchStart x y => onTouchStart x y g
  | TouchMove x _ => onTouchMove x g
  | AudioEnded => endGame g
  | AudioError => endGame g
  end.

Definition run {rt : JSRuntime} (es : list Event) (g : t) : t := fold_left step es g.

End GameScene.

(** ** [scripts/editorScene.js] *)

(** [this.spawns.sort((a, b) => a.time - b.time)]: the stable sort by time.
    An element goes in front of the first one that is not earlier than it, so
    equal times keep their order. *)
Fixpoint insertByTime (n : NoteEvent) (l : list NoteEvent) : list NoteEvent :=
  match l with
  | [] => [n]
  | m :: rest =>
      if Qleb (time n) (time m) then n :: l else m :: insertByTime n rest
  end.

Definition sortByTime (l : list NoteEvent) : list NoteEvent :=
  fold_right insertByTime [] l.

(** The first loop of the track branch of [onTouchStart]: remove the first
    element that satisfies [f]; [None] when the loop finds none. *)
Fixpoint removeFirst {A} (f : A -> bool) (l : list A) : option (list A) :=
  match l with
  | [] => None
  | a :: rest =>
      if f a then Some rest
      else match removeFirst f rest with
           | Some rest' => Some (a :: rest')
           | None => None
           end
  end.

(** The index of the first element that satisfies [f], as a [for] loop with
    an early [return] finds it. *)
Fixpoint findIndex {A} (f : A -> bool) (l : list A) : option nat :=
  match l with
  | [] => None
  | a :: rest =>
      if f a then Some 0%nat
      else match findIndex f rest with
           | Some i => Some (S i)
           | None => None
           end
  end.

(** [level.title.replace(/\s+/g, '_')], for the blanks of ASCII. *)
Definition isBlank (c : Ascii.ascii) : bool :=
  let n := Ascii.nat_of_ascii c in
  Nat.eqb n 32 || (Nat.leb 9 n && Nat.leb n 13).

Fixpoint replaceBlanks (inRun : bool) (s : string) : string :=
  match s with
  | EmptyString => EmptyString
  | String c rest =>
      if isBlank c
      then if inRun then replaceBlanks true rest
           else String "_"%char (replaceBlanks true rest)
      else String c (replaceBlanks false rest)
  end.

Module EditorScene.

(** What [computeLayout] writes on the scene. *)
Record Layout := {
  headerHeight : Q;
  footerHeight : Q;
  marginX : Q;
  scaleWidth : Q;
  scrollBarWidth : Q;
  viewportX : Q;
  viewportY : Q;
  viewportWidth : Q;
  viewportHeight : Q;
  scrollBarX : Q;
  timelineHeightPx : Q
}.

(** [this.bounds]: the boxes [render] caches; a box not yet written is
    [undefined]. *)
Record Bounds := {
  songPrev : option Box;
  songNext : option Box;
  blockBoxes : option (list Box);
  delete : option Box;
  track : option Box;
  noteBoxes : option (list Box);
  scrollUpBox : option Box;
  scrollDownBox : option Box;
  scrollHandle : option Box;
  save : option Box;
  test : option Box;
  back : option Box
}.

(** [this.outputText] after a save: the name of the file written, if one
    was, and the pattern whose JSON text follows it. *)
Record OutputText := {
  savedFileName : option string;
  spawnsJson : list NoteEvent
}.

(** The host of the editor: the storage of [wx.getStorageSync] and
    [wx.setStorageSync] by key, the clipboard, and the level files written
    through [fs] where the host has one. *)
Record Host := {
  storage : list (string * list NoteEvent);
  clipboard : option (list NoteEvent);
  fsAvailable : bool;
  files : list (string * Level)
}.

(** The scene.  Besides the fields of the class there are [sceneRequest],
    the scene last handed to [changeScene], and [host]; [layout] holds the
    fields that [computeLayout] writes. *)
Record t := {
  canvas : Canvas;
  sceneRequest : option SceneRequest;
  levels : list Level;
  currentLevelIndex : nat;
  pxPerSecond : Q;
  scrollOffset : Q;
  selectedBlockType : Z;
  spawns : list NoteEvent;
  outputText : option OutputText;
  deleteMode : bool;
  bounds : Bounds;
  scrollHandleDragging : bool;
  scrollHandleOffset : Q;
  dragging : bool;
  dragNoteIndex : option nat;
  layout : Layout;
  host : Host
}.

Definition set_sceneRequest (v : option SceneRequest) (s : t) : t :=
  {| canvas := canvas s; sceneRequest := v; levels := levels s;
     currentLevelIndex := currentLevelIndex s; pxPerSecond := pxPerSecond s;
     scrollOffset := scrollOffset s;
     selectedBlockType := selectedBlockType s; spawns := spawns s;
     outputText := outputText s; deleteMode := deleteMode s;
     bounds := bounds s; scrollHandleDragging := scrollHandleDragging s;
     scrollHandleOffset := scrollHandleOffset s; dragging := dragging s;
     dragNoteIndex := dragNoteIndex s; layout := layout s; host := host s |}.
Definition set_levels (v : list Level) (s : t) : t :=
  {| canvas := canvas s; sceneRequest := sceneRequest s; levels := v;
     currentLevelIndex := currentLevelIndex s; pxPerSecond := pxPerSecond s;
     scrollOffset := scrollOffset s;
     selectedBlockType := selectedBlockType s; spawns := spawns s;
     outputText := outputText s; deleteMode := deleteMode s;
     bounds := bounds s; scrollHandleDragging := scrollHandleDragging s;
     scrollHandleOffset := scrollHandleOffset s; dragging := dragging s;
     dragNoteIndex := dragNoteIndex s; layout := layout s; host := host s |}.
Definition set_currentLevelIndex (v : nat) (s : t) : t :=
  {| canvas := canvas s; sceneRequest := sceneRequest s; levels := levels s;
     currentLevelIndex := v; pxPerSecond := pxPerSecond s;
     scrollOffset := scrollOffset s;
     selectedBlockType := selectedBlockType s; spawns := spawns s;
     outputText := outputText s; deleteMode := deleteMode s;
     bounds := bounds s; scrollHandleDragging := scrollHandleDragging s;
     scrollHandleOffset := scrollHandleOffset s; dragging := dragging s;
     dragNoteIndex := dragNoteIndex s; layout := layout s; host := host s |}.
Definition set_scrollOffset (v : Q) (s : t) : t :=
  {| canvas := canvas s; sceneRequest := sceneRequest s; levels := levels s;
     currentLevelIndex := currentLevelIndex s; pxPerSecond := pxPerSecond s;
     scrollOffset := v; selectedBlockType := selectedBlockType s;
     spawns := spawns s; outputText := outputText s;
     deleteMode := deleteMode s; bounds := bounds s;
     scrollHandleDragging := scrollHandleDragging s;
     scrollHandleOffset := scrollHandleOffset s; dragging := dragging s;
     dragNoteIndex := dragNoteIndex s; layout := layout s; host := host s |}.
Definition set_selectedBlockType (v : Z) (s : t) : t :=
  {| canvas := canvas s; sceneRequest := sceneRequest s; levels := levels s;
     currentLevelIndex := currentLevelIndex s; pxPerSecond := pxPerSecond s;
     scrollOffset := scrollOffset s; selectedBlockType := v;
     spawns := spawns s; outputText := outputText s;
     deleteMode := deleteMode s; bounds := bounds s;
     scrollHandleDragging := scrollHandleDragging s;
     scrollHandleOffset := scrollHandleOffset s; dragging := dragging s;
     dragNoteIndex := dragNoteIndex s; layout := layout s; host := host s |}.
Definition set_spawns (v : list NoteEvent) (s : t) : t :=
  {| canvas := canvas s; sceneRequest := sceneRequest s; levels := levels s;
     currentLevelIndex := currentLevelIndex s; pxPerSecond := pxPerSecond s;
     scrollOffset := scrollOffset s;
     selectedBlockType := selectedBlockType s; spawns := v;
     outputText := outputText s; deleteMode := deleteMode s;
     bounds := bounds s; scrollHandleDragging := scrollHandleDragging s;
     scrollHandleOffset := scrollHandleOffset s; dragging := dragging s;
     dragNoteIndex := dragNoteIndex s; layout := layout s; host := host s |}.
Definition set_outputText (v : option OutputText) (s : t) : t :=
  {| canvas := canvas s; sceneRequest := sceneRequest s; levels := levels s;
     currentLevelIndex := currentLevelIndex s; pxPerSecond := pxPerSecond s;
     scrollOffset := scrollOffset s;
     selectedBlockType := selectedBlockType s; spawns := spawns s;
     outputText := v; deleteMode := deleteMode s; bounds := bounds s;
     scrollHandleDragging := scrollHandleDragging s;
     scrollHandleOffset := scrollHandleOffset s; dragging := dragging s;
     dragNoteIndex := dragNoteIndex s; layout := layout s; host := host s |}.
Definition set_deleteMode (v : bool) (s : t) : t :=
  {| canvas := canvas s; sceneRequest := sceneRequest s; levels := levels s;
     currentLevelIndex := currentLevelIndex s; pxPerSecond := pxPerSecond s;
     scrollOffset := scrollOffset s;
     selectedBlockType := selectedBlockType s; spawns := spawns s;
     outputText := outputText s; deleteMode := v; bounds := bounds s;
     scrollHandleDragging := scrollHandleDragging s;
     scrollHandleOffset := scrollHandleOffset s; dragging := dragging s;
     dragNoteIndex := dragNoteIndex s; layout := layout s; host := host s |}.
Definition set_bounds (v : Bounds) (s : t) : t :=
  {| canvas := canvas s; sceneRequest := sceneRequest s; levels := levels s;
     currentLevelIndex := currentLevelIndex s; pxPerSecond := pxPerSecond s;
     scrollOffset := scrollOffset s;
     selectedBlockType := selectedBlockType s; spawns := spawns s;
     outputText := outputText s; deleteMode := deleteMode s; bounds := v;
     scrollHandleDragging := scrollHandleDragging s;
     scrollHandleOffset := scrollHandleOffset s; dragging := dragging s;
     dragNoteIndex := dragNoteIndex s; layout := layout s; host := host s |}.
Definition set_scrollHandleDragging (v : bool) (s : t) : t :=
  {| canvas := canvas s; sceneRequest := sceneRequest s; levels := levels s;
     currentLevelIndex := currentLevelIndex s; pxPerSecond := pxPerSecond s;
     scrollOffset := scrollOffset s;
     selectedBlockType := selectedBlockType s; spawns := spawns s;
     outputText := outputText s; deleteMode := deleteMode s;
     bounds := bounds s; scrollHandleDragging := v;
     scrollHandleOffset := scrollHandleOffset s; dragging := dragging s;
     dragNoteIndex := dragNoteIndex s; layout := layout s; host := host s |}.
Definition set_scrollHandleOffset (v : Q) (s : t) : t :=
  {| canvas := canvas s; sceneRequest := sceneRequest s; levels := levels s;
     currentLevelIndex := currentLevelIndex s; pxPerSecond := pxPerSecond s;
     scrollOffset := scrollOffset s;
     selectedBlockType := selectedBlockType s; spawns := spawns s;
     outputText := outputText s; deleteMode := deleteMode s;
     bounds := bounds s; scrollHandleDragging := scrollHandleDragging s;
     scrollHandleOffset := v; dragging := dragging s;
     dragNoteIndex := dragNoteIndex s; layout := layout s; host := host s |}.
Definition set_dragging (v : bool) (s : t) : t :=
  {| canvas := canvas s; sceneRequest := sceneRequest s; levels := levels s;
     currentLevelIndex := currentLevelIndex s; pxPerSecond := pxPerSecond s;
     scrollOffset := scrollOffset s;
     selectedBlockType := selectedBlockType s; spawns := spawns s;
     outputText := outputText s; deleteMode := deleteMode s;
     bounds := bounds s; scrollHandleDragging := scrollHandleDragging s;
     scrollHandleOffset := scrollHandleOffset s; dragging := v;
     dragNoteIndex := dragNoteIndex s; layout := layout s; host := host s |}.
Definition set_dragNoteIndex (v : option nat) (s : t) : t :=
  {| canvas := canvas s; sceneRequest := sceneRequest s; levels := levels s;
     currentLevelIndex := currentLevelIndex s; pxPerSecond := pxPerSecond s;
     scrollOffset := scrollOffset s;
     selectedBlockType := selectedBlockType s; spawns := spawns s;
     outputText := outputText s; deleteMode := deleteMode s;
     bounds := bounds s; scrollHandleDragging := scrollHandleDragging s;
     scrollHandleOffset := scrollHandleOffset s; dragging := dragging s;
     dragNoteIndex := v; layout := layout s; host := host s |}.
Definition set_layout (v : Layout) (s : t) : t :=
  {| canvas := canvas s; sceneRequest := sceneRequest s; levels := levels s;
     currentLevelIndex := currentLevelIndex s; pxPerSecond := pxPerSecond s;
     scrollOffset := scrollOffset s;
     selectedBlockType := selectedBlockType s; spawns := spawns s;
     outputText := outputText s; deleteMode := deleteMode s;
     bounds := bounds s; scrollHandleDragging := scrollHandleDragging s;
     scrollHandleOffset := scrollHandleOffset s; dragging := dragging s;
     dragNoteIndex := dragNoteIndex s; layout := v; host := host s |}.
Definition set_host (v : Host) (s : t) : t :=
  {| canvas := canvas s; sceneRequest := sceneRequest s; levels := levels s;
     currentLevelIndex := currentLevelIndex s; pxPerSecond := pxPerSecond s;
     scrollOffset := scrollOffset s;
     selectedBlockType := selectedBlockType s; spawns := spawns s;
     outputText := outputText s; deleteMode := deleteMode s;
     bounds := bounds s; scrollHandleDragging := scrollHandleDragging s;
     scrollHandleOffset := scrollHandleOffset s; dragging := dragging s;
     dragNoteIndex := dragNoteIndex s; layout := layout s; host := v |}.

Definition noBounds : Bounds :=
  {| songPrev := None; songNext := None; blockBoxes := None; delete := None;
     track := None; noteBoxes := None; scrollUpBox := None;
     scrollDownBox := None; scrollHandle := None; save := None; test := None;
     back := None |}.

(** The layout fields are [undefined] until the first [computeLayout], which
    every handler that reads them calls first. *)
Definition noLayout : Layout :=
  {| headerHeight := 0; footerHeight := 0; marginX := 0; scaleWidth := 0;
     scrollBarWidth := 0; viewportX := 0; viewportY := 0; viewportWidth := 0;
     viewportHeight := 0; scrollBarX := 0; timelineHeightPx := 0 |}.

(** [this.levels[this.currentLevelIndex]]; the index stays below
    [levels.length], which is 2. *)
Definition level (s : t) : Level := nth (currentLevelIndex s) (levels s) song1.

Definition getStorageSync (key : string) (h : Host) : option (list NoteEvent) :=
  match find (fun kv => String.eqb (fst kv) key) (storage h) with
  | Some kv => Some (snd kv)
  | None => None
  end.

Definition setStorageSync (key : string) (v : list NoteEvent) (h : Host) : Host :=
  {| storage := (key, v) :: filter (fun kv => negb (String.eqb (fst kv) key)) (storage h);
     clipboard := clipboard h; fsAvailable := fsAvailable h; files := files h |}.

Definition updateLevelData (s : t) : t :=
  let lv := level s in
  let spawns := match levelSpawns lv with Some l => l | None => [] end in
  let spawns :=
    match getStorageSync ("spawns_" ++ title lv)%string (host s) with
    | Some saved => saved
    | None => spawns
    end in
  set_outputText None (set_scrollOffset 0 (set_spawns (sortByTime spawns) s)).

(** The constructor; [dragging] and [dragNoteIndex] are not written by it and
    start [undefined], which the handlers read as [false] and as no index. *)
Definition new (canvas : Canvas) (host : Host) : t :=
  updateLevelData
    {| canvas := canvas; sceneRequest := None; levels := [song1; song2];
       currentLevelIndex := 0; pxPerSecond := 50; scrollOffset := 0;
       selectedBlockType := 0; spawns := []; outputText := None;
       deleteMode := false; bounds := noBounds;
       scrollHandleDragging := false; scrollHandleOffset := 0;
       dragging := false; dragNoteIndex := None;
       layout := noLayout; host := host |}.

Definition maxScroll (s : t) : Q :=
  Qmax 0 (timelineHeightPx (layout s) - viewportHeight (layout s)).

Definition computeLayout (s : t) : t :=
  let width := canvasWidth (canvas s) in
  let height := canvasHeight (canvas s) in
  let headerHeight := 200 in
  let footerHeight := 80 in
  let marginX := 20 in
  let scaleWidth := 60 in
  let scrollBarWidth := 24 in
  let viewportX := marginX + scaleWidth in
  let viewportWidth := width - marginX * 2 - scaleWidth - scrollBarWidth - 10 in
  let s :=
    set_layout
      {| headerHeight := headerHeight; footerHeight := footerHeight;
         marginX := marginX; scaleWidth := scaleWidth;
         scrollBarWidth := scrollBarWidth;
         viewportX := viewportX; viewportY := headerHeight;
         viewportWidth := viewportWidth;
         viewportHeight := height - headerHeight - footerHeight;
         scrollBarX := viewportX + viewportWidth + 10;
         timelineHeightPx := levelDuration (level s) * pxPerSecond s |} s in
  let s := set_scrollOffset (Qmin (scrollOffset s) (maxScroll s)) s in
  set_scrollOffset (Qmax (scrollOffset s) 0) s.

Definition prevSong (s : t) : t :=
  let n := List.length (levels s) in
  updateLevelData
    (set_currentLevelIndex ((currentLevelIndex s + n - 1) mod n)%nat s).

Definition nextSong (s : t) : t :=
  let n := List.length (levels s) in
  updateLevelData (set_currentLevelIndex ((currentLevelIndex s + 1) mod n)%nat s).

Definition scrollUp (s : t) : t :=
  set_scrollOffset (Qmax 0 (scrollOffset s - viewportHeight (layout s) * 0.5)) s.

Definition scrollDown (s : t) : t :=
  set_scrollOffset
    (Qmin (maxScroll s) (scrollOffset s + viewportHeight (layout s) * 0.5)) s.

(** [level.spawns = ...] on the current level. *)
Definition setLevelSpawns (l : list NoteEvent) (s : t) : t :=
  let lv := level s in
  let lv' := {| title := title lv; file := file lv;
                levelDuration := levelDuration lv; levelSpawns := Some l |} in
  set_levels (firstn (currentLevelIndex s) (levels s) ++
              lv' :: skipn (S (currentLevelIndex s)) (levels s)) s.

Definition saveSpawns (s : t) : t :=
  let s := set_spawns (sortByTime (spawns s)) s in
  let lv := level s in
  let levelObj := {| title := title lv; file := file lv;
                     levelDuration := levelDuration lv;
                     levelSpawns := Some (spawns s) |} in
  let h := host s in
  let '(saved, h) :=
    if fsAvailable h then
      let baseName := replaceBlanks false (title lv) in
      let baseName := if String.eqb baseName "" then "custom_level"%string else baseName in
      let fileName := (baseName ++ ".js")%string in
      (Some fileName,
       {| storage := storage h; clipboard := clipboard h;
          fsAvailable := fsAvailable h;
          files := (fileName, levelObj) :: files h |})
    else (None, h) in
  let h := setStorageSync ("spawns_" ++ title lv)%string (spawns s) h in
  let s := setLevelSpawns (spawns s) s in
  let h := {| storage := storage h; clipboard := Some (spawns s);
              fsAvailable := fsAvailable h; files := files h |} in
  set_outputText (Some {| savedFileName := saved; spawnsJson := spawns s |})
    (set_host h s).

Definition playTest (s : t) : t :=
  let lv := level s in
  let song := {| title := title lv; file := file lv;
                 levelDuration := levelDuration lv;
                 levelSpawns := Some (spawns s) |} in
  set_sceneRequest (Some (ToGame song)) s.

Definition goBack (s : t) : t := set_sceneRequest (Some ToMenu) s.

Definition _hitBox (box : option Box) (x y : Q) : bool :=
  match box with
  | Some b =>
      Qleb (boxX b) x && Qleb x (boxX b + boxW b)
      && Qleb (boxY b) y && Qleb y (boxY b + boxH b)
  | None => false
  end.

(** Pointer to time, as [onTouchStart] and [onTouchMove] compute it. *)
Definition localYOf (y : Q) (s : t) : Q := y - viewportY (layout s).

Definition timeOfLocalY (localY : Q) (s : t) : Q :=
  (scrollOffset s + localY) / pxPerSecond s.

(** Time to pointer, as [render] places a note: [noteY - trackY] and
    [noteY]. *)
Definition localYOfTime (noteTime : Q) (s : t) : Q :=
  noteTime * pxPerSecond s - scrollOffset s.

Definition noteYOf (noteTime : Q) (s : t) : Q :=
  viewportY (layout s) + (noteTime * pxPerSecond s) - scrollOffset s.

(** The lane under the pointer, clamped. *)
Definition laneOf (x : Q) (s : t) : Z :=
  let laneCount := config.numLanes in
  let laneWidth := viewportWidth (layout s) / inject_Z laneCount in
  let localX := x - viewportX (layout s) in
  let l := Qfloor (localX / laneWidth) in
  let l := if (l <? 0)%Z then 0%Z else l in
  if (l >=? laneCount)%Z then (laneCount - 1)%Z else l.

(** The test of the delete loop: same lane, and within the threshold. *)
Definition nearNote (tapLane : Z) (tapTime thresholdTime : Q) (spawn : NoteEvent) : bool :=
  Z.eqb (lane spawn) tapLane
  && Qleb (Qabs (time spawn - tapTime)) thresholdTime.

(** The track branch of [onTouchStart]. *)
Definition tapTrack (x y : Q) (s : t) : t :=
  let localY := localYOf y s in
  let tapTime := timeOfLocalY localY s in
  if Qltb tapTime 0 || Qltb (levelDuration (level s)) tapTime then s
  else
    let tapLane := laneOf x s in
    let thresholdPx := 10 in
    let thresholdTime := thresholdPx / pxPerSecond s in
    match removeFirst (nearNote tapLane tapTime thresholdTime) (spawns s) with
    | Some rest => set_spawns rest s
    | None =>
        if deleteMode s then s
        else
          let roundedTime := toFixed2 tapTime in
          let note := {| time := roundedTime; type := selectedBlockType s;
                         lane := tapLane |} in
          set_spawns (sortByTime (spawns s ++ [note])) s
    end.

Definition hitIndex (boxes : option (list Box)) (x y : Q) : option nat :=
  match boxes with
  | Some l => findIndex (fun b => _hitBox (Some b) x y) l
  | None => None
  end.

Definition onTouchStart (x y : Q) (s : t) : t :=
  let s := computeLayout s in
  if _hitBox (scrollHandle (bounds s)) x y then
    let handleY := match scrollHandle (bounds s) with Some b => boxY b | None => 0 end in
    set_scrollHandleOffset (y - handleY) (set_scrollHandleDragging true s)
  else
    match hitIndex (noteBoxes (bounds s)) x y with
    | Some i => set_dragNoteIndex (Some i) (set_dragging true s)
    | None =>
        if _hitBox (songPrev (bounds s)) x y then prevSong s
        else if _hitBox (songNext (bounds s)) x y then nextSong s
        else
          match hitIndex (blockBoxes (bounds s)) x y with
          | Some i => set_selectedBlockType (Z.of_nat i) s
          | None =>
              if _hitBox (delete (bounds s)) x y
              then set_deleteMode (negb (deleteMode s)) s
              else if _hitBox (scrollUpBox (bounds s)) x y then scrollUp s
              else if _hitBox (scrollDownBox (bounds s)) x y then scrollDown s
              else if _hitBox (save (bounds s)) x y then saveSpawns s
              else if _hitBox (test (bounds s)) x y then playTest s
              else if _hitBox (back (bounds s)) x y then goBack s
              else if _hitBox (track (bounds s)) x y then tapTrack x y s
              else s
          end
    end.

(** The scroll-handle branch of [onTouchMove], after [computeLayout].  The
    handle box exists whenever a handle drag is on, since the drag began with
    a hit on it; without it the sources would throw here. *)
Definition dragScrollHandle (y : Q) (s : t) : t :=
  let trackY := viewportY (layout s) in
  let trackH := viewportHeight (layout s) in
  let arrowH := 24 in
  if Qltb 0 (maxScroll s) then
    match scrollHandle (bounds s) with
    | Some hb =>
        let handleY := y - scrollHandleOffset s in
        let handleHeight := boxH hb in
        let minY := trackY + arrowH in
        let maxY := trackY + trackH - arrowH - handleHeight in
        let handleY := Qmax minY (Qmin maxY handleY) in
        let ratio := (handleY - minY) / (maxY - minY) in
        set_scrollOffset (ratio * maxScroll s) s
    | None => s
    end
  else s.

(** The note branch of [onTouchMove], after [computeLayout]: the write goes
    to the entry at [dragNoteIndex], when there is one.  (The sources write
    into the note object itself, which the level's own array may share; the
    model updates the editor's array.) *)
Definition dragNote (x y : Q) (s : t) : t :=
  match dragNoteIndex s with
  | None => s
  | Some i =>
      match nth_error (spawns s) i with
      | None => s
      | Some note =>
          let localY := localYOf y s in
          let newTime := timeOfLocalY localY s in
          let newTime := Qmax 0 (Qmin (levelDuration (level s)) newTime) in
          let newLane := laneOf x s in
          let note' := {| time := toFixed2 newTime; type := type note;
                          lane := newLane |} in
          set_spawns (firstn i (spawns s) ++ note' :: skipn (S i) (spawns s)) s
      end
  end.

Definition onTouchMove (x y : Q) (s : t) : t :=
  if scrollHandleDragging s then dragScrollHandle y (computeLayout s)
  else if negb (dragging s) then s
  else dragNote x y (computeLayout s).

Definition onTouchEnd (s : t) : t :=
  if scrollHandleDragging s then set_scrollHandleDragging false s
  else if dragging s then
    set_spawns (sortByTime (spawns s))
      (set_dragNoteIndex None (set_dragging false s))
  else s.

(** The type a note is drawn with in [render]:
    [config.blockTypes[note.type] || config.blockTypes[0]]. *)
Definition noteTypeDef (note : NoteEvent) : option BlockType :=
  match blockTypeAt (type note) with
  | Some typeDef => Some typeDef
  | None => blockTypeAt 0
  end.

(** The note loop of [render]: for each note in view, the colour it is
    filled with and its box. *)
Definition drawNotes (s : t) : list (string * Box) :=
  let trackX := viewportX (layout s) in
  let trackY := viewportY (layout s) in
  let trackW := viewportWidth (layout s) in
  let trackH := viewportHeight (layout s) in
  let laneCount := config.numLanes in
  let laneWidth := trackW / inject_Z laneCount in
  flat_map
    (fun note =>
       let noteY := noteYOf (time note) s in
       if Qltb noteY (trackY - 20) || Qltb (trackY + trackH + 20) noteY then []
       else
         let noteW := Qmax 28 (laneWidth * 0.6) in
         let noteH := 16 in
         let noteX := trackX + laneWidth * inject_Z (lane note)
                      + (laneWidth - noteW) / 2 in
         match noteTypeDef note with
         | Some typeDef =>
             [(color typeDef,
               {| boxX := noteX; boxY := noteY - noteH / 2;
                  boxW := noteW; boxH := noteH |})]
         | None => []
         end)
    (spawns s).

(** [render], as far as it writes the scene: the layout and the boxes. *)
Definition render (s : t) : t :=
  let s := computeLayout s in
  let width := canvasWidth (canvas s) in
  let height := canvasHeight (canvas s) in
  let songY := 75 in
  let songBoxW := 200 in
  let songBoxH := 32 in
  let songBoxX := (width - songBoxW) / 2 in
  let blockY := 110 in
  let blockSize := 40 in
  let spacing := 20 in
  let n := inject_Z typeCount in
  let totalW := n * blockSize + (n - 1) * spacing in
  let startX := (width - totalW) / 2 in
  let delBtnW := 100 in
  let delBtnH := 32 in
  let trackX := viewportX (layout s) in
  let trackY := viewportY (layout s) in
  let trackW := viewportWidth (layout s) in
  let trackH := viewportHeight (layout s) in
  let arrowH := 24 in
  let arrowW := scrollBarWidth (layout s) in
  let scrollBarHeight := trackH - arrowH * 2 in
  let handleHeight :=
    if Qltb 0 (maxScroll s)
    then (viewportHeight (layout s) / timelineHeightPx (layout s)) * scrollBarHeight
    else scrollBarHeight in
  let handleHeight := Qmax 30 handleHeight in
  let minHandleY := trackY + arrowH in
  let maxHandleY := trackY + trackH - arrowH - handleHeight in
  let handleY :=
    if Qltb 0 (maxScroll s)
    then minHandleY + (scrollOffset s / maxScroll s) * (maxHandleY - minHandleY)
    else minHandleY in
  let buttonY := height - footerHeight (layout s) + 20 in
  let btnH := 40 in
  let btnSpacing := 20 in
  let btnW := Qmin 120 ((width - marginX (layout s) * 2 - btnSpacing * 2) / 3) in
  let saveX := marginX (layout s) in
  let testX := saveX + btnW + btnSpacing in
  let backX := testX + btnW + btnSpacing in
  set_bounds
    {| songPrev := Some {| boxX := songBoxX; boxY := songY - songBoxH / 2;
                           boxW := songBoxW / 2; boxH := songBoxH |};
       songNext := Some {| boxX := songBoxX + songBoxW / 2;
                           boxY := songY - songBoxH / 2;
                           boxW := songBoxW / 2; boxH := songBoxH |};
       blockBoxes :=
         Some (map (fun i => {| boxX := startX + inject_Z (Z.of_nat i) * (blockSize + spacing);
                                boxY := blockY; boxW := blockSize; boxH := blockSize |})
                   (seq 0 (List.length config.blockTypes)));
       delete := Some {| boxX := (width - delBtnW) / 2;
                         boxY := blockY + blockSize + 12;
                         boxW := delBtnW; boxH := delBtnH |};
       track := Some {| boxX := trackX; boxY := trackY; boxW := trackW; boxH := trackH |};
       noteBoxes := Some (map snd (drawNotes s));
       scrollUpBox := Some {| boxX := scrollBarX (layout s); boxY := trackY;
                              boxW := arrowW; boxH := arrowH |};
       scrollDownBox := Some {| boxX := scrollBarX (layout s);
                                boxY := trackY + trackH - arrowH;
                                boxW := arrowW; boxH := arrowH |};
       scrollHandle := Some {| boxX := scrollBarX (layout s); boxY := handleY;
                               boxW := arrowW; boxH := handleHeight |};
       save := Some {| boxX := saveX; boxY := buttonY; boxW := btnW; boxH := btnH |};
       test := Some {| boxX := testX; boxY := buttonY; boxW := btnW; boxH := btnH |};
       back := Some {| boxX := backX; boxY := buttonY; boxW := btnW; boxH := btnH |} |}
    s.

(** What the host delivers to the editor: pointer down, move and up, and the
    frames that redraw it. *)
Inductive Event :=
| PointerDown (x y : Q)
| PointerMove (x y : Q)
| PointerUp
| Frame.

Definition step (s : t) (e : Event) : t :=
  match e with
  | PointerDown x y => onTouchStart x y s
  | PointerMove x y => onTouchMove x y s
  | PointerUp => onTouchEnd s
  | Frame => render s
  end.

Definition run (es : list Event) (s : t) : t := fold_left step es s.

End EditorScene.

(** ** [Player.update] over the reals

    The scale animation is made of [Math.sin] and [Math.PI]; to say what the
    curve is worth, the same method is read over the real numbers, where
    they are the sine and pi. *)

Module PlayerR.
Local Open Scope R_scope.

Record t := {
  x : R;
  targetX : R;
  scale : R;
  animationTime : R;
  animationDuration : R;
  pulseTime : R;
  pulseAmplitude : R;
  pulseFrequency : R
}.

(** The fields of a new player that [update] reads, for a player at [x]. *)
Definition new (x : R) : t :=
  {| x := x; targetX := x; scale := 1; animationTime := 0;
     animationDuration := 0.8; pulseTime := 0;
     pulseAmplitude := 0.15; pulseFrequency := 1.5 |}.

(** [0.8 + 0.2 * Math.sin(progress * Math.PI * 2)]. *)
Definition entryCurve (progress : R) : R := 0.8 + 0.2 * sin (progress * PI * 2).

(** The entry animation of one [update]: the new [animationTime] and
    [entryScale]. *)
Definition entry (dt : R) (p : t) : R * R :=
  if Rlt_dec (animationTime p) (animationDuration p)
  then
    let at' := animationTime p + dt in
    let progress := Rmin (at' / animationDuration p) 1 in
    (at', entryCurve progress)
  else (animationTime p, 1).

Definition pulseScale (dt : R) (p : t) : R :=
  let pt := pulseTime p + dt in
  let pulsePhase := 2 * PI * pulseFrequency p * pt in
  1 + pulseAmplitude p * sin pulsePhase.

Definition update (dt : R) (p : t) : t :=
  let '(at', entryScale) := entry dt p in
  let interp := Rmin (dt * 10) 1 in
  {| x := x p + (targetX p - x p) * interp;
     targetX := targetX p;
     scale := entryScale * pulseScale dt p;
     animationTime := at'; animationDuration := animationDuration p;
     pulseTime := pulseTime p + dt;
     pulseAmplitude := pulseAmplitude p; pulseFrequency := pulseFrequency p |}.

End PlayerR.

(** ** [scripts/menuScene.js] *)

Module MenuScene.

(** What the menu hands to [changeScene]: a game on a song, or the
    editor. *)
Inductive Request :=
| StartGame (song : Level)
| OpenEditor.

(** The scene.  [songs] holds the two level modules as they are when the
    menu is made: the editor shares them and writes their [spawns] when it
    saves.  [host] is the storage behind [wx.getStorageSync], and
    [sceneRequest] the scene last handed to [changeScene]. *)
Record t := {
  canvas : Canvas;
  songs : list Level;
  host : EditorScene.Host;
  sceneRequest : option Request
}.

Definition set_sceneRequest (v : option Request) (m : t) : t :=
  {| canvas := canvas m; songs := songs m; host := host m; sceneRequest := v |}.

Definition new (canvas : Canvas) (songs : list Level) (host : EditorScene.Host) : t :=
  {| canvas := canvas; songs := songs; host := host; sceneRequest := None |}.

(** The layout that [render] and [onTouchStart] both compute. *)
Definition cardHeight : Q := 65.
Definition cardSpacing : Q := 25.

Definition totalEntries (m : t) : nat := (List.length (songs m) + 1)%nat.

Definition listHeight (m : t) : Q :=
  let n := inject_Z (Z.of_nat (totalEntries m)) in
  n * cardHeight + (n - 1) * cardSpacing.

Definition startY (m : t) : Q := (canvasHeight (canvas m) - listHeight m) / 2 + 40.

Definition cardWidth (m : t) : Q := Qmin 320 (canvasWidth (canvas m) - 60).

(** [render], as far as the cards go: the rounded rectangle drawn for each
    entry, the songs first and the editor last. *)
Definition render (m : t) : list Box :=
  map (fun i =>
         let y := startY m + inject_Z (Z.of_nat i) * (cardHeight + cardSpacing) in
         let x := (canvasWidth (canvas m) - cardWidth m) / 2 in
         {| boxX := x; boxY := y; boxW := cardWidth m; boxH := cardHeight |})
      (seq 0 (totalEntries m)).

(** The test of the loop of [onTouchStart] for entry [i]. *)
Definition inCard (x y : Q) (i : nat) (m : t) : bool :=
  let cardX := (canvasWidth (canvas m) - cardWidth m) / 2 in
  let yTop := startY m + inject_Z (Z.of_nat i) * (cardHeight + cardSpacing) in
  Qleb yTop y && Qleb y (yTop + cardHeight)
  && Qleb cardX x && Qleb x (cardX + cardWidth m).

(** The body of the loop for the entry that is hit: a song is copied, with
    the pattern the storage holds for its title if it holds one, and played;
    the last entry opens the editor. *)
Definition choose (i : nat) (m : t) : t :=
  if (i <? List.length (songs m))%nat then
    let selected := nth i (songs m) song1 in
    let spawns :=
      match EditorScene.getStorageSync ("spawns_" ++ title selected)%string (host m) with
      | Some saved => Some saved
      | None => levelSpawns selected
      end in
    let songCopy := {| title := title selected; file := file selected;
                       levelDuration := levelDuration selected;
                       levelSpawns := spawns |} in
    set_sceneRequest (Some (StartGame songCopy)) m
  else set_sceneRequest (Some OpenEditor) m.

(** The loop of [onTouchStart] over the entries [entries], with its early
    [return]. *)
Fixpoint touchEntries (x y : Q) (entries : list nat) (m : t) : t :=
  match entries with
  | [] => m
  | i :: rest => if inCard x y i m then choose i m else touchEntries x y rest m
  end.

Definition onTouchStart (x y : Q) (m : t) : t :=
  touchEntries x y (seq 0 (totalEntries m)) m.

End MenuScene.

(** ** The main loop ([game.js]) *)

Module Main.

(** [ts ? ts : Date.now()]: [ts] is the timestamp that the host passes to
    the callback, if it passes one, and [dateNow] is [Date.now()], which the
    loop reads when [ts] is missing or 0. *)
Definition now (ts : option Q) (dateNow : Q) : Q :=
  match ts with
  | Some t => if Qeq_bool t 0 then dateNow else t
  | None => dateNow
  end.

(** One turn of [loop(ts)]: the frame time it hands to [update], and the
    new [lastTime]. *)
Definition loop (ts : option Q) (dateNow lastTime : Q) : Q * Q :=
  let now := now ts dateNow in
  ((now - lastTime) / 1000, now).

(** The frame times of the successive turns of the loop, for the clock
    readings [(ts, dateNow)] of each turn. *)
Fixpoint frameTimes (lastTime : Q) (clock : list (option Q * Q)) : list Q :=
  match clock with
  | [] => []
  | (ts, dateNow) :: rest =>
      let '(dt, now) := loop ts dateNow lastTime in
      dt :: frameTimes now rest
  end.

(** The value of [lastTime] after those turns. *)
Fixpoint lastTimeAfter (lastTime : Q) (clock : list (option Q * Q)) : Q :=
  match clock with
  | [] => lastTime
  | (ts, dateNow) :: rest => lastTimeAfter (snd (loop ts dateNow lastTime)) rest
  end.

End Main.

(** ** Vocabulary of the properties *)

(** A pattern sorted ascending by time. *)
Definition sortedByTime (l : list NoteEvent) : Prop :=
  StronglySorted (fun a b => time a <= time b) l.


(** The type of the block that [spawnBlockOfType] makes for an event: none
    when the type index is out of range. *)
Definition spawnedType (ev : NoteEvent) : list BlockType :=
  match blockTypeAt (type ev) with
  | Some typeDef => [typeDef]
  | None => []
  end.

(** The score after the collision loop has gone through the moved blocks
    [moved], for a player [p] on the canvas [c]. *)
Definition tally (p : Player.t) (c : Canvas) (moved : list Block.t) (score : Q) : Q :=
  fold_left
    (fun sc b =>
       if GameScene.hitsPlayer b p then sc + GameScene.points b
       else if GameScene.pastBottom b c
            then if Qltb 0 config.scoring.miss
                 then Qmax 0 (sc - config.scoring.miss) else sc
            else sc)
    moved score.

(** A moved block that is not hit is a miss or stays. *)
Definition isMiss (p : Player.t) (c : Canvas) (b : Block.t) : bool :=
  negb (GameScene.hitsPlayer b p) && GameScene.pastBottom b c.
Definition stays (p : Player.t) (c : Canvas) (b : Block.t) : bool :=
  negb (GameScene.hitsPlayer b p) && negb (GameScene.pastBottom b c).

(** The bottom edge of a block, whose [y] is its top. *)
Definition bottomEdge (b : Block.t) : Q := Block.y b + Block.size b.

(** The sum of the frame times, as [timeElapsed += dt] adds them up. *)
Definition elapsed (dts : list Q) : Q := fold_left Qplus dts 0.

(** A canvas and two small songs to run the game on. *)
Definition phoneCanvas : Canvas := {| canvasWidth := 400; canvasHeight := 800 |}.

Definition threeNotes : Level :=
  {| title := "three notes"; file := "assets/audio/song1.wav"; levelDuration := 120;
     levelSpawns := Some [ {| time := 0.0; type := 0; lane := 0 |};
                           {| time := 0.8; type := 1; lane := 1 |};
                           {| time := 1.6; type := 2; lane := 2 |} ] |}.

Definition oneNote (typeIndex : Z) : Level :=
  {| title := "one note"; file := "assets/audio/song1.wav"; levelDuration := 120;
     levelSpawns := Some [ {| time := 0.0; type := typeIndex; lane := 0 |} ] |}.

(** The number of drag modes that are on: 0 is Idle, 1 is DraggingNote or
    DraggingScrollHandle, 2 is both at once. *)
Definition activeDrags (s : EditorScene.t) : nat :=
  Nat.b2n (EditorScene.scrollHandleDragging s) + Nat.b2n (EditorScene.dragging s).

(** The drag state of the editor, when it is one of the three. *)
Inductive DragState :=
| Idle
| DraggingNote (index : option nat)
| DraggingScrollHandle (grabOffset : Q).

Definition dragState (s : EditorScene.t) : option DragState :=
  match EditorScene.scrollHandleDragging s, EditorScene.dragging s with
  | false, false => Some Idle
  | false, true => Some (DraggingNote (EditorScene.dragNoteIndex s))
  | true, false => Some (DraggingScrollHandle (EditorScene.scrollHandleOffset s))
  | true, true => None
  end.

(** A sequence of events in which a pointer-down only comes when no pointer
    is down: each one is resolved by a pointer-up before the next. *)
Fixpoint resolvedGestures (down : bool) (es : list EditorScene.Event) : bool :=
  match es with
  | [] => true
  | EditorScene.PointerDown _ _ :: rest => negb down && resolvedGestures true rest
  | EditorScene.PointerUp :: rest => resolvedGestures false rest
  | _ :: rest => resolvedGestures down rest
  end.

(** A host with nothing stored and no file system, as a mini-game host. *)
Definition emptyHost : EditorScene.Host :=
  {| EditorScene.storage := []; EditorScene.clipboard := None;
     EditorScene.fsAvailable := false; EditorScene.files := [] |}.


(** A tap: the pointer goes down and up at the same place. *)
Definition tap (x y : Q) : list EditorScene.Event :=
  [EditorScene.PointerDown x y; EditorScene.PointerUp].

(** A host that has stored a pattern of one note for the second song. *)
Definition hostWithShortSong2 : EditorScene.Host :=
  {| EditorScene.storage :=
       [(("spawns_" ++ title song2)%string, [ {| time := 1.0; type := 0; lane := 0 |} ])];
     EditorScene.clipboard := None;
     EditorScene.fsAvailable := false; EditorScene.files := [] |}.

(** The editor after a frame, a pointer-down on the second note of the
    first song and, the drag still on, a pointer-down on the next-song
    arrow, which loads the stored pattern of one note. *)
Definition switchedMidDrag : EditorScene.t :=
  EditorScene.run
    [EditorScene.Frame; EditorScene.PointerDown 140 240; EditorScene.PointerDown 250 75]
    (EditorScene.new phoneCanvas hostWithShortSong2).

(** The same with nothing stored: the switch loads the pattern of the
    second song as its level file has it. *)
Definition switchedToSong2 : EditorScene.t :=
  EditorScene.run
    [EditorScene.Frame; EditorScene.PointerDown 140 240; EditorScene.PointerDown 250 75]
    (EditorScene.new phoneCanvas emptyHost).

(** A new editor on [phoneCanvas] that has drawn its first frame. *)
Definition drawnEditor : EditorScene.t :=
  EditorScene.render (EditorScene.new phoneCanvas emptyHost).

(** ** Auxiliary notions of the proofs *)

(** The indices, from [i] on, of the blocks that the loop resolves. *)
Fixpoint resolvedFrom (p : Player.t) (c : Canvas) (i : nat) (moved : list Block.t) : list nat :=
  match moved with
  | [] => []
  | b :: rest =>
      (if stays p c b then [] else [i]) ++ resolvedFrom p c (S i) rest
  end.

(** The fields that only the scheduler writes. *)
Definition sameSchedule (g g' : GameScene.t) : Prop :=
  GameScene.spawns g' = GameScene.spawns g
  /\ GameScene.spawnIndex g' = GameScene.spawnIndex g
  /\ GameScene.timeElapsed g' = GameScene.timeElapsed g
  /\ GameScene.emitted g' = GameScene.emitted g
  /\ GameScene.spawned g' = GameScene.spawned g
  /\ GameScene.usePattern g' = GameScene.usePattern g.

(** The tail of [update], after the blocks are resolved. *)
Definition finishFrame (dt : Q) (g : GameScene.t) : GameScene.t :=
  let g := if Qleb (GameScene.duration g) (GameScene.timeElapsed g)
           then GameScene.endGame g else g in
  GameScene.updateEffects dt (GameScene.updateScoreEffects dt g).

(** The fields that spawning a block leaves alone. *)
Definition sameButBlocks (g g' : GameScene.t) : Prop :=
  GameScene.score g' = GameScene.score g
  /\ GameScene.misses g' = GameScene.misses g
  /\ GameScene.player g' = GameScene.player g
  /\ GameScene.canvas g' = GameScene.canvas g
  /\ GameScene.gameOver g' = GameScene.gameOver g
  /\ GameScene.duration g' = GameScene.duration g
  /\ GameScene.spawns g' = GameScene.spawns g
  /\ GameScene.timeElapsed g' = GameScene.timeElapsed g
  /\ GameScene.usePattern g' = GameScene.usePattern g.



(** The score is not negative, and every block is of a type of [config.js],
    none of which sets a [score] of its own. *)
Definition scoreKept (g : GameScene.t) : Prop :=
  0 <= GameScene.score g
  /\ Forall (fun b => typeScore (Block.type b) = None) (GameScene.blocks g).

(** The game on [phoneCanvas] with the note of [oneNote 0], which falls in
    lane 0, left of the player: after a frame of 0 s and one of 4.1 s the
    block has its top at 780 and its bottom edge at 820, below the canvas
    height of 800. *)
Definition fallenGame : GameScene.t :=
  GameScene.updates (rt := sampleRuntime) [0; 4.1]
    (GameScene.new phoneCanvas (oneNote 0)).

(** The game on [phoneCanvas] with one note of type index 5, after a frame
    of one second. *)
Definition strayTypeGame : GameScene.t :=
  GameScene.update (rt := sampleRuntime) 1 (GameScene.new phoneCanvas (oneNote 5)).

(** The two drag flags of the editor. *)
Definition dragFlags (s : EditorScene.t) : bool * bool :=
  (EditorScene.scrollHandleDragging s, EditorScene.dragging s).

(** A new editor on [phoneCanvas] that has drawn a frame, then receives a
    pointer-down on the first note and, with no pointer-up in between, one
    on the scroll handle. *)
Definition twoDowns : list EditorScene.Event :=
  [EditorScene.Frame; EditorScene.PointerDown 100 200; EditorScene.PointerDown 361 230].

(** A new editor on [phoneCanvas] draws a frame and is tapped twice at
    [(100, 220)], in lane 0 at 0.4 s, where the pattern of the first song has
    no note near; a frame is drawn between the taps, as the main loop does. *)
Definition twoTaps : list EditorScene.Event :=
  [EditorScene.Frame] ++ tap 100 220 ++ [EditorScene.Frame] ++ tap 100 220.


(** ** Vocabulary of the further properties *)

(** The frames of a run of the game have frame times that are not
    negative, as the differences of a clock that does not go back. *)
Definition nonnegFrames (es : list GameScene.Event) : Prop :=
  Forall (fun e => match e with
                   | GameScene.Frame dt => 0 <= dt
                   | _ => True
                   end) es.

(** The player and its target are on the canvas. *)
Definition onScreen (p : Player.t) : Prop :=
  0 <= Player.x p <= canvasWidth (Player.canvas p) - Player.width p
  /\ 0 <= Player.targetX p <= canvasWidth (Player.canvas p) - Player.width p.

(** The fields that spawning leaves alone, besides those of
    [sameButBlocks]. *)
Definition sameEffects (g g' : GameScene.t) : Prop :=
  GameScene.audioCtx g' = GameScene.audioCtx g
  /\ GameScene.audioStarted g' = GameScene.audioStarted g
  /\ GameScene.lanePositions g' = GameScene.lanePositions g
  /\ GameScene.spawnInterval g' = GameScene.spawnInterval g
  /\ GameScene.effects g' = GameScene.effects g
  /\ GameScene.scoreEffects g' = GameScene.scoreEffects g.

(** The number of calls of [play()] among the calls made on the audio
    context. *)
Definition plays (a : InnerAudioContext) : nat :=
  List.length (filter (fun c => match c with AudioPlay => true | AudioStop => false end)
                 (audioCalls a)).

(** The length of a list as a number of the game. *)
Definition count {A} (l : list A) : Q := inject_Z (Z.of_nat (List.length l)).

(** A score effect as the game keeps it: alive, no older than its
    [maxLife] of 0.8 s, and with an opacity in (0, 1]. *)
Definition scoreEffectAlive (e : ScoreEffect.t) : Prop :=
  0 < ScoreEffect.life e <= ScoreEffect.maxLife e
  /\ ScoreEffect.maxLife e = 0.8
  /\ 0 < ScoreEffect.alpha e <= 1.

(** A flash as the game keeps it: alive, no older than its life of 0.4 s,
    growing by 160 px a second, and no smaller than the 40 px it starts
    with. *)
Definition flashAlive (e : ExpandingSquareEffect.t) : Prop :=
  0 < ExpandingSquareEffect.life e <= 0.4
  /\ ExpandingSquareEffect.growth e = 160
  /\ 40 <= ExpandingSquareEffect.size e.

(** What the touches and the callbacks of the audio leave alone: all but
    the player, the audio, [gameOver] and the request for a scene. *)
Definition sameGame (g g' : GameScene.t) : Prop :=
  GameScene.score g' = GameScene.score g
  /\ GameScene.misses g' = GameScene.misses g
  /\ GameScene.blocks g' = GameScene.blocks g
  /\ GameScene.spawned g' = GameScene.spawned g
  /\ GameScene.scoreEffects g' = GameScene.scoreEffects g
  /\ GameScene.effects g' = GameScene.effects g
  /\ GameScene.spawnTimer g' = GameScene.spawnTimer g
  /\ GameScene.spawnInterval g' = GameScene.spawnInterval g
  /\ GameScene.timeElapsed g' = GameScene.timeElapsed g
  /\ GameScene.audioStarted g' = GameScene.audioStarted g
  /\ GameScene.usePattern g' = GameScene.usePattern g
  /\ GameScene.duration g' = GameScene.duration g
  /\ GameScene.lanePositions g' = GameScene.lanePositions g
  /\ GameScene.canvas g' = GameScene.canvas g.

(** The last call made on the audio context is [stop()]. *)
Definition stopped (a : InnerAudioContext) : Prop :=
  last (audioCalls a) AudioPlay = AudioStop.

(** What a pointer-down does to the editor [u], which has its layout: the
    branches of [onTouchStart]. *)
Inductive pointerDownOutcome (x y : Q) (u : EditorScene.t) : EditorScene.t -> Prop :=
| GrabsHandle (offset : Q) :
    pointerDownOutcome x y u
      (EditorScene.set_scrollHandleOffset offset
         (EditorScene.set_scrollHandleDragging true u))
| GrabsNote (i : nat) :
    pointerDownOutcome x y u
      (EditorScene.set_dragNoteIndex (Some i) (EditorScene.set_dragging true u))
| GoesToPrevSong : pointerDownOutcome x y u (EditorScene.prevSong u)
| GoesToNextSong : pointerDownOutcome x y u (EditorScene.nextSong u)
| SelectsType (i : nat) (boxes : list Box) :
    EditorScene.blockBoxes (EditorScene.bounds u) = Some boxes ->
    (i < List.length boxes)%nat ->
    pointerDownOutcome x y u (EditorScene.set_selectedBlockType (Z.of_nat i) u)
| TogglesDelete :
    pointerDownOutcome x y u
      (EditorScene.set_deleteMode (negb (EditorScene.deleteMode u)) u)
| ScrollsUp : pointerDownOutcome x y u (EditorScene.scrollUp u)
| ScrollsDown : pointerDownOutcome x y u (EditorScene.scrollDown u)
| Saves : pointerDownOutcome x y u (EditorScene.saveSpawns u)
| RunsTest : pointerDownOutcome x y u (EditorScene.playTest u)
| GoesBack : pointerDownOutcome x y u (EditorScene.goBack u)
| TapsTrack : pointerDownOutcome x y u (EditorScene.tapTrack x y u)
| HitsNothing : pointerDownOutcome x y u u.

(** A note that the game can play in a song of 120 s: its time is in the
    song, its lane is one of the lanes and its type one of
    [config.blockTypes]. *)
Definition validNote (n : NoteEvent) : Prop :=
  0 <= time n <= 120
  /\ (0 <= lane n < config.numLanes)%Z
  /\ (0 <= type n < typeCount)%Z.

Definition validNoteb (n : NoteEvent) : bool :=
  Qleb 0 (time n) && Qleb (time n) 120
  && (0 <=? lane n)%Z && (lane n <? config.numLanes)%Z
  && (0 <=? type n)%Z && (type n <? typeCount)%Z.

(** A level of 120 s whose pattern, if it has one, is made of valid
    notes. *)
Definition validLevel (lv : Level) : Prop :=
  levelDuration lv = 120
  /\ forall l, levelSpawns lv = Some l -> Forall validNote l.

(** A host whose stored patterns are made of valid notes. *)
Definition validHost (h : EditorScene.Host) : Prop :=
  Forall (fun kv => Forall validNote (snd kv)) (EditorScene.storage h).

(** What the editor keeps true of its data. *)
Definition editorValid (s : EditorScene.t) : Prop :=
  Forall validNote (EditorScene.spawns s)
  /\ Forall validLevel (EditorScene.levels s)
  /\ validHost (EditorScene.host s)
  /\ (0 <= EditorScene.selectedBlockType s < typeCount)%Z
  /\ (forall boxes, EditorScene.blockBoxes (EditorScene.bounds s) = Some boxes ->
                    List.length boxes = List.length config.blockTypes).

(** A song without a pattern, for which the game spawns at random. *)
Definition silentSong : Level :=
  {| title := "no pattern"; file := "assets/audio/song1.wav"; levelDuration := 120;
     levelSpawns := None |}.

(** The drawn editor after a pointer-down on its scroll handle, and after a
    pointer-down on its first note. *)
Definition grabbedHandle : EditorScene.t :=
  EditorScene.onTouchStart 361 230 drawnEditor.

Definition grabbedNote : EditorScene.t :=
  EditorScene.onTouchStart 100 200 drawnEditor.

(** The box of the scroll handle of an editor, and the note at an index of
    its pattern, where there is one. *)
Definition handleBox (s : EditorScene.t) : Box :=
  match EditorScene.scrollHandle (EditorScene.bounds s) with
  | Some b => b
  | None => {| boxX := 0; boxY := 0; boxW := 0; boxH := 0 |}
  end.

Definition noteAt (i : nat) (s : EditorScene.t) : NoteEvent :=
  nth i (EditorScene.spawns s) {| time := 0; type := 0; lane := 0 |}.



(** A frame, then a pointer-down on the test button of the editor. *)
Definition tapOnTest : list EditorScene.Event :=
  [EditorScene.Frame; EditorScene.PointerDown 200 750].

(** A block as [_spawnBlockWithTypeDef] makes it for the scene [g]: 40 px
    wide, its top 40 px above the canvas, falling at 200 px a second, of a
    type of [config.blockTypes], and centred on a lane position or, for a
    lane that is none of the scene's, at a random place. *)
Definition freshBlock {rt : JSRuntime} (g : GameScene.t) (b : Block.t) : Prop :=
  Block.size b = 40 /\ Block.speed b = 200
  /\ In (Block.type b) config.blockTypes
  /\ Block.y b = - 40
  /\ (In (Block.x b) (GameScene.lanePositions g)
      \/ exists n, Block.x b
                   = randomRange (Math_random n) (40 / 2)
                       (canvasWidth (GameScene.canvas g) - 40 / 2)).

(** A block as the game keeps it on a canvas [c]: of the same size, speed
    and kind, horizontally inside the canvas, and from its spawn height to
    the height where it is counted as missed. *)
Definition blockKept (c : Canvas) (b : Block.t) : Prop :=
  Block.size b = 40 /\ Block.speed b = 200
  /\ In (Block.type b) config.blockTypes
  /\ 20 <= Block.x b <= canvasWidth c - 20
  /\ - 40 <= Block.y b /\ Block.y b - 20 <= canvasHeight c.

(** The test of the note loop of [render]: the note is drawn, its [y] being
    no more than 20 px outside the track. *)
Definition inView (s : EditorScene.t) (note : NoteEvent) : bool :=
  let noteY := EditorScene.noteYOf (time note) s in
  let trackY := EditorScene.viewportY (EditorScene.layout s) in
  let trackH := EditorScene.viewportHeight (EditorScene.layout s) in
  negb (Qltb noteY (trackY - 20) || Qltb (trackY + trackH + 20) noteY).

(** The box that [render] caches for a note that is drawn. *)
Definition noteBox (s : EditorScene.t) (note : NoteEvent) : Box :=
  let laneWidth := EditorScene.viewportWidth (EditorScene.layout s)
                   / inject_Z config.numLanes in
  let noteW := Qmax 28 (laneWidth * 0.6) in
  {| boxX := EditorScene.viewportX (EditorScene.layout s)
             + laneWidth * inject_Z (lane note) + (laneWidth - noteW) / 2;
     boxY := EditorScene.noteYOf (time note) s - 16 / 2;
     boxW := noteW; boxH := 16 |}.

(** The drawn editor scrolled down by one step of the scroll bar and drawn
    again, so that its first note is out of view. *)
Definition scrolledEditor : EditorScene.t :=
  EditorScene.run [EditorScene.PointerDown 361 700; EditorScene.Frame] drawnEditor.

(** The centre of a lane on a canvas, as the constructor of the game
    computes the lane positions. *)
Definition laneCentre (canvas : Canvas) (ln : Z) : Q :=
  let laneWidth := canvasWidth canvas / inject_Z config.numLanes in
  laneWidth * inject_Z ln + laneWidth / 2.

(** The block of a note of the pattern: none for a type index that is out
    of range, else a block of that type that starts above the canvas, centred
    on the lane of the note. *)
Definition noteBlock (canvas : Canvas) (ev : NoteEvent) : list Block.t :=
  match blockTypeAt (type ev) with
  | Some typeDef => [Block.new (laneCentre canvas (lane ev)) (- 40) 40 200 typeDef]
  | None => []
  end.

(** The lane of a note is one of the lanes. *)
Definition laneInRange (ev : NoteEvent) : Prop := (0 <= lane ev < config.numLanes)%Z.

(** The note that a move of the pointer to [(x, y)] writes in place of
    [note], on an editor that has its layout. *)
Definition movedNote (x y : Q) (s : EditorScene.t) (note : NoteEvent) : NoteEvent :=
  let newTime := EditorScene.timeOfLocalY (EditorScene.localYOf y s) s in
  {| time := toFixed2 (Qmax 0 (Qmin (levelDuration (EditorScene.level s)) newTime));
     type := type note;
     lane := EditorScene.laneOf x s |}.

(** A canvas on which the editor divides by no 0.  The track is
    [canvas.width - 134] px wide and the lane under a pointer is
    [Math.floor(localX / laneWidth)]; between its arrows the scroll bar is
    [canvas.height - 328] px high, the handle on it is 30 px high or more,
    and a drag of the handle divides by what is left, which for the songs of
    120 s is 0 at a height of 358 and nowhere else.  At that width the
    sources get a lane that is [NaN], at that height a [scrollOffset] that is
    [NaN], which [computeLayout] keeps; the rationals of the model have no
    such value, so what is stated of the editor's lanes and scroll offset is
    stated for the other canvases. *)
Definition editorCanvas (canvas : Canvas) : Prop :=
  ~ canvasWidth canvas == 134 /\ ~ canvasHeight canvas == 358.


(** ** The coordinate transforms on doubles

    The numbers of JavaScript are IEEE 754 doubles.  These are the two
    transforms of the editor as the sources compute them, on the binary64
    floats of the kernel, where [EditorScene.timeOfLocalY] and
    [EditorScene.localYOfTime] compute them on rationals. *)
Module Doubles.
Import PrimFloat.
#[local] Open Scope float_scope.

(** [(this.scrollOffset + localY) / this.pxPerSecond], of [onTouchStart] and
    [onTouchMove]. *)
Definition timeOfLocalY (scrollOffset pxPerSecond localY : float) : float :=
  (scrollOffset + localY) / pxPerSecond.

(** [note.time * this.pxPerSecond - this.scrollOffset], the [noteY - trackY]
    of [render]. *)
Definition localYOfTime (scrollOffset pxPerSecond noteTime : float) : float :=
  noteTime * pxPerSecond - scrollOffset.

(** From a pointer to a time and back to a pointer. *)
Definition roundTrip (scrollOffset pxPerSecond localY : float) : float :=
  localYOfTime scrollOffset pxPerSecond (timeOfLocalY scrollOffset pxPerSecond localY).

(** [P] holds of the [n] whole numbers from [y] on; adding 1 is exact on the
    whole numbers below 2^53. *)
Fixpoint wholeFrom (P : float -> bool) (n : nat) (y : float) : bool :=
  match n with
  | O => true
  | S n' => P y && wholeFrom P n' (y + 1)
  end.

(** The round trip of [localY] is within [eps] of [localY]. *)
Definition roundTripWithin (eps scrollOffset pxPerSecond localY : float) : bool :=
  abs (roundTrip scrollOffset pxPerSecond localY - localY) <=? eps.

End Doubles.

(** * Properties *)

(** ** Comparisons *)

Lemma Qleb_true (a b : Q) : Qleb a b = true <-> a <= b.
Proof. apply Qle_bool_iff. Qed.

Lemma Qleb_false (a b : Q) : Qleb a b = false <-> b < a.
Proof.
  unfold Qleb. split; intros H.
  - apply Qnot_le_lt. intros Hle. apply Qle_bool_iff in Hle. congruence.
  - destruct (Qle_bool a b) eqn:E; [|reflexivity].
    apply Qle_bool_iff in E. exfalso. apply (Qlt_not_le _ _ H E).
Qed.

Lemma Qltb_true (a b : Q) : Qltb a b = true <-> a < b.
Proof.
  unfold Qltb. rewrite negb_true_iff. apply (Qleb_false b a).
Qed.

Lemma Qltb_false (a b : Q) : Qltb a b = false <-> b <= a.
Proof.
  unfold Qltb. rewrite negb_false_iff. apply (Qleb_true b a).
Qed.

(** Turns the boolean comparisons of the context and the goal into
    propositions. *)
Ltac qprop :=
  repeat match goal with
  | H : Qleb _ _ = true |- _ => apply Qleb_true in H
  | H : Qleb _ _ = false |- _ => apply Qleb_false in H
  | H : Qltb _ _ = true |- _ => apply Qltb_true in H
  | H : Qltb _ _ = false |- _ => apply Qltb_false in H
  | |- Qleb _ _ = true => apply Qleb_true
  | |- Qleb _ _ = false => apply Qleb_false
  | |- Qltb _ _ = true => apply Qltb_true
  | |- Qltb _ _ = false => apply Qltb_false
  end.

(** ** The level files *)

(** The generator loops of both level files stop at their [break], with
    fuel to spare: 151 notes, from 0 s to 120 s. *)
Remark level_patterns_complete :
  option_map (@List.length NoteEvent) (levelSpawns song1) = Some 151%nat
  /\ option_map (@List.length NoteEvent) (levelSpawns song2) = Some 151%nat
  /\ option_map (fun l => option_map time (nth_error l 150)) (levelSpawns song1)
     = Some (Some (toFixed2 120)).
Proof. vm_compute. repeat split; reflexivity. Qed.

(** ** The game clock stops at game over (C10) *)

Section GameOver.
Context {rt : JSRuntime}.

Lemma updates_gameOver (dts : list Q) (g : GameScene.t) :
  GameScene.gameOver g = true -> GameScene.updates dts g = g.
Proof.
  intros Hover. induction dts as [|dt dts IH]; [reflexivity|].
  unfold GameScene.updates in *. simpl.
  unfold GameScene.update at 2. rewrite Hover. exact IH.
Qed.

(** C10.  Once [gameOver] is set, [update(dt)] returns the scene as it is,
    so score, misses, blocks, [timeElapsed], [spawnIndex] and the effects all
    keep their values, whatever the frames that follow; and [endGame] on such
    a scene changes nothing. *)
Theorem update_after_gameOver_is_identity (g : GameScene.t) :
  GameScene.gameOver g = true ->
  (forall dt, GameScene.update dt g = g)
  /\ (forall dts, GameScene.updates dts g = g)
  /\ GameScene.endGame g = g.
Proof.
  intros Hover. split; [|split].
  - intros dt. unfold GameScene.update. now rewrite Hover.
  - intros dts. now apply updates_gameOver.
  - unfold GameScene.endGame. now rewrite Hover.
Qed.

End GameOver.

(** Reduces the projections of a scene through the setters, and nothing
    else. *)
Ltac gcbn :=
  cbn [GameScene.canvas GameScene.song GameScene.sceneRequest GameScene.player
    GameScene.blocks GameScene.spawns GameScene.spawnIndex
    GameScene.spawnInterval GameScene.spawnTimer GameScene.score
    GameScene.misses GameScene.timeElapsed GameScene.duration
    GameScene.gameOver GameScene.scoreEffects GameScene.effects
    GameScene.audioCtx GameScene.audioStarted GameScene.usePattern
    GameScene.returnButtonBounds GameScene.lanePositions
    GameScene.randomCalls GameScene.emitted GameScene.spawned
    GameScene.set_sceneRequest GameScene.set_player GameScene.set_blocks
    GameScene.set_spawnIndex GameScene.set_spawnTimer GameScene.set_score
    GameScene.set_misses GameScene.set_timeElapsed GameScene.set_gameOver
    GameScene.set_scoreEffects GameScene.set_effects GameScene.set_audioCtx
    GameScene.set_audioStarted GameScene.set_returnButtonBounds
    GameScene.set_randomCalls GameScene.set_emitted GameScene.set_spawned
    GameScene.addScoreEffect].
Tactic Notation "gcbn" "in" hyp_list(Hs) :=
  cbn [GameScene.canvas GameScene.song GameScene.sceneRequest GameScene.player
    GameScene.blocks GameScene.spawns GameScene.spawnIndex
    GameScene.spawnInterval GameScene.spawnTimer GameScene.score
    GameScene.misses GameScene.timeElapsed GameScene.duration
    GameScene.gameOver GameScene.scoreEffects GameScene.effects
    GameScene.audioCtx GameScene.audioStarted GameScene.usePattern
    GameScene.returnButtonBounds GameScene.lanePositions
    GameScene.randomCalls GameScene.emitted GameScene.spawned
    GameScene.set_sceneRequest GameScene.set_player GameScene.set_blocks
    GameScene.set_spawnIndex GameScene.set_spawnTimer GameScene.set_score
    GameScene.set_misses GameScene.set_timeElapsed GameScene.set_gameOver
    GameScene.set_scoreEffects GameScene.set_effects GameScene.set_audioCtx
    GameScene.set_audioStarted GameScene.set_returnButtonBounds
    GameScene.set_randomCalls GameScene.set_emitted GameScene.set_spawned
    GameScene.addScoreEffect] in Hs.

(** The same for the editor. *)
Ltac ecbn :=
  cbn [EditorScene.canvas EditorScene.sceneRequest EditorScene.levels
    EditorScene.currentLevelIndex EditorScene.pxPerSecond
    EditorScene.scrollOffset EditorScene.selectedBlockType
    EditorScene.spawns EditorScene.outputText EditorScene.deleteMode
    EditorScene.bounds EditorScene.scrollHandleDragging
    EditorScene.scrollHandleOffset EditorScene.dragging
    EditorScene.dragNoteIndex EditorScene.layout EditorScene.host
    EditorScene.set_sceneRequest EditorScene.set_levels
    EditorScene.set_currentLevelIndex EditorScene.set_scrollOffset
    EditorScene.set_selectedBlockType EditorScene.set_spawns
    EditorScene.set_outputText EditorScene.set_deleteMode
    EditorScene.set_bounds EditorScene.set_scrollHandleDragging
    EditorScene.set_scrollHandleOffset EditorScene.set_dragging
    EditorScene.set_dragNoteIndex EditorScene.set_layout
    EditorScene.set_host].
Tactic Notation "ecbn" "in" hyp_list(Hs) :=
  cbn [EditorScene.canvas EditorScene.sceneRequest EditorScene.levels
    EditorScene.currentLevelIndex EditorScene.pxPerSecond
    EditorScene.scrollOffset EditorScene.selectedBlockType
    EditorScene.spawns EditorScene.outputText EditorScene.deleteMode
    EditorScene.bounds EditorScene.scrollHandleDragging
    EditorScene.scrollHandleOffset EditorScene.dragging
    EditorScene.dragNoteIndex EditorScene.layout EditorScene.host
    EditorScene.set_sceneRequest EditorScene.set_levels
    EditorScene.set_currentLevelIndex EditorScene.set_scrollOffset
    EditorScene.set_selectedBlockType EditorScene.set_spawns
    EditorScene.set_outputText EditorScene.set_deleteMode
    EditorScene.set_bounds EditorScene.set_scrollHandleDragging
    EditorScene.set_scrollHandleOffset EditorScene.set_dragging
    EditorScene.set_dragNoteIndex EditorScene.set_layout
    EditorScene.set_host] in Hs.

(** ** The collision loop *)

Section Collision.
Context {rt : JSRuntime}.

Lemma collide_spec (dt : Q) (pending : list Block.t) :
  forall i toRemove g,
    let p := GameScene.player g in
    let c := GameScene.canvas g in
    let moved := map (Block.update dt) pending in
    exists g',
      GameScene.collide dt i pending toRemove g
      = (moved, toRemove ++ resolvedFrom p c i moved, g')
      /\ GameScene.score g' = tally p c moved (GameScene.score g)
      /\ GameScene.misses g'
         = (GameScene.misses g + Z.of_nat (List.length (filter (isMiss p c) moved)))%Z
      /\ GameScene.player g' = p /\ GameScene.canvas g' = c
      /\ GameScene.blocks g' = GameScene.blocks g
      /\ GameScene.spawns g' = GameScene.spawns g
      /\ GameScene.spawnIndex g' = GameScene.spawnIndex g
      /\ GameScene.timeElapsed g' = GameScene.timeElapsed g
      /\ GameScene.emitted g' = GameScene.emitted g
      /\ GameScene.spawned g' = GameScene.spawned g
      /\ GameScene.usePattern g' = GameScene.usePattern g
      /\ GameScene.gameOver g' = GameScene.gameOver g
      /\ GameScene.duration g' = GameScene.duration g.
Proof.
  induction pending as [|b rest IH]; intros i toRemove g p c moved.
  - exists g. subst moved. simpl. rewrite app_nil_r, Z.add_0_r.
    repeat split; reflexivity.
  - subst moved. simpl map. cbn [GameScene.collide].
    set (block := Block.update dt b).
    unfold stays, isMiss, tally. cbn [resolvedFrom filter fold_left].
    unfold stays.
    destruct (GameScene.hitsPlayer block (GameScene.player g)) eqn:Hhit.
    + match goal with
      | |- context [GameScene.collide dt (S i) rest ?tr ?g1] =>
          destruct (IH (S i) tr g1) as (g' & Heq & Hs & Hm & Hp & Hc & Hrest)
      end.
      exists g'. subst p c. rewrite Heq, ?Hhit, ?Hpast. cbn [negb andb].
      rewrite <- app_assoc. split; [reflexivity|].
      split; [exact Hs|]. split; [exact Hm|].
      split; [exact Hp|]. split; [exact Hc|]. exact Hrest.
    + destruct (GameScene.pastBottom block (GameScene.canvas g)) eqn:Hpast.
      * match goal with
        | |- context [GameScene.collide dt (S i) rest ?tr ?g1] =>
            destruct (IH (S i) tr g1) as (g' & Heq & Hs & Hm & Hp & Hc & Hrest)
        end.
        exists g'. subst p c. rewrite Heq, ?Hhit, ?Hpast. cbn [negb andb].
        rewrite <- app_assoc. split; [reflexivity|].
        split; [exact Hs|]. split.
        { rewrite Hm. cbn [List.length]. rewrite Nat2Z.inj_succ.
          match goal with
          | |- (_ + Z.of_nat ?n)%Z = (_ + Z.succ (Z.of_nat ?m))%Z =>
              change n with m; generalize (Z.of_nat m); intro z
          end.
          cbn. lia. }
        split; [exact Hp|]. split; [exact Hc|]. exact Hrest.
      * destruct (IH (S i) toRemove g) as (g' & Heq & Hs & Hm & Hp & Hc & Hrest).
        exists g'. subst p c. rewrite Heq, ?Hhit, ?Hpast. cbn [negb andb].
        split; [reflexivity|].
        split; [exact Hs|]. split; [exact Hm|].
        split; [exact Hp|]. split; [exact Hc|]. exact Hrest.
Qed.

End Collision.

(** ** The removal loop *)

Lemma splice1_middle {A} (pre : list A) (a : A) (rest : list A) :
  splice1 (List.length pre) (pre ++ a :: rest) = pre ++ rest.
Proof.
  unfold splice1. induction pre as [|x pre IH]; [reflexivity|].
  cbn [List.length app firstn skipn]. f_equal. exact IH.
Qed.

Lemma removeBlocks_resolved (p : Player.t) (c : Canvas) (l : list Block.t) :
  forall pre,
    GameScene.removeBlocks (resolvedFrom p c (List.length pre) l) (pre ++ l)
    = pre ++ filter (stays p c) l.
Proof.
  unfold GameScene.removeBlocks.
  induction l as [|b rest IH]; intros pre; [reflexivity|].
  cbn [resolvedFrom filter]. rewrite rev_app_distr, fold_left_app.
  specialize (IH (pre ++ [b])).
  rewrite length_app, Nat.add_1_r, <- app_assoc in IH. cbn [app] in IH.
  rewrite IH.
  destruct (stays p c b); cbn [rev app fold_left].
  - rewrite <- app_assoc. reflexivity.
  - rewrite <- app_assoc. cbn [app]. apply splice1_middle.
Qed.

(** ** What each phase of [update] leaves alone *)

Lemma sameSchedule_refl g : sameSchedule g g.
Proof. repeat split. Qed.

Lemma sameSchedule_trans g1 g2 g3 :
  sameSchedule g1 g2 -> sameSchedule g2 g3 -> sameSchedule g1 g3.
Proof.
  unfold sameSchedule. intros (a1 & a2 & a3 & a4 & a5 & a6) (b1 & b2 & b3 & b4 & b5 & b6).
  repeat split; congruence.
Qed.

Section Phases.
Context {rt : JSRuntime}.

Lemma resolveBlocks_spec (dt : Q) (g : GameScene.t) :
  let p := GameScene.player g in
  let c := GameScene.canvas g in
  let moved := map (Block.update dt) (GameScene.blocks g) in
  let g' := GameScene.resolveBlocks dt g in
  GameScene.blocks g' = filter (stays p c) moved
  /\ GameScene.score g' = tally p c moved (GameScene.score g)
  /\ GameScene.misses g'
     = (GameScene.misses g + Z.of_nat (List.length (filter (isMiss p c) moved)))%Z
  /\ GameScene.player g' = p /\ GameScene.canvas g' = c
  /\ sameSchedule g g'
  /\ GameScene.gameOver g' = GameScene.gameOver g
  /\ GameScene.duration g' = GameScene.duration g.
Proof.
  intros p c moved g'. subst g'. unfold GameScene.resolveBlocks.
  destruct (collide_spec dt (GameScene.blocks g) 0 [] g)
    as (g1 & Heq & Hs & Hm & Hp & Hc & _ & H1 & H2 & H3 & H4 & H5 & H6 & H7 & H8).
  rewrite Heq. cbn [app].
  split.
  { cbn. apply (removeBlocks_resolved p c moved []). }
  cbn. unfold sameSchedule. repeat split; assumption.
Qed.

Lemma endGame_fields (g : GameScene.t) :
  let g' := GameScene.endGame g in
  GameScene.blocks g' = GameScene.blocks g
  /\ GameScene.score g' = GameScene.score g
  /\ GameScene.misses g' = GameScene.misses g
  /\ GameScene.player g' = GameScene.player g
  /\ GameScene.canvas g' = GameScene.canvas g
  /\ sameSchedule g g'
  /\ GameScene.gameOver g' = true.
Proof.
  unfold GameScene.endGame. destruct (GameScene.gameOver g) eqn:E; cbn;
    unfold sameSchedule; repeat split; assumption.
Qed.

Lemma finishFrame_fields (dt : Q) (g : GameScene.t) :
  let g' := finishFrame dt g in
  GameScene.blocks g' = GameScene.blocks g
  /\ GameScene.score g' = GameScene.score g
  /\ GameScene.misses g' = GameScene.misses g
  /\ GameScene.player g' = GameScene.player g
  /\ GameScene.canvas g' = GameScene.canvas g
  /\ sameSchedule g g'.
Proof.
  unfold finishFrame.
  destruct (Qleb (GameScene.duration g) (GameScene.timeElapsed g)).
  - destruct (endGame_fields g) as (H1 & H2 & H3 & H4 & H5 & (a1 & a2 & a3 & a4 & a5 & a6) & _).
    cbn. unfold sameSchedule. repeat split; assumption.
  - cbn. unfold sameSchedule. repeat split.
Qed.

Lemma update_live (dt : Q) (g : GameScene.t) :
  GameScene.gameOver g = false ->
  GameScene.update dt g
  = let g1 := GameScene.spawnPhase dt g in
    finishFrame dt
      (GameScene.resolveBlocks dt
         (GameScene.set_player (Player.update dt (GameScene.player g1)) g1)).
Proof.
  intros H. unfold GameScene.update, finishFrame. rewrite H. reflexivity.
Qed.

End Phases.

(** ** Spawning *)

Lemma sameButBlocks_refl g : sameButBlocks g g.
Proof. repeat split. Qed.

Lemma sameButBlocks_trans g1 g2 g3 :
  sameButBlocks g1 g2 -> sameButBlocks g2 g3 -> sameButBlocks g1 g3.
Proof.
  unfold sameButBlocks.
  intros (a1 & a2 & a3 & a4 & a5 & a6 & a7 & a8 & a9)
         (b1 & b2 & b3 & b4 & b5 & b6 & b7 & b8 & b9).
  repeat split; congruence.
Qed.

Lemma blockTypeAt_config (i : Z) (typeDef : BlockType) :
  blockTypeAt i = Some typeDef -> typeScore typeDef = None.
Proof.
  unfold blockTypeAt. destruct (i <? 0)%Z; [discriminate|].
  intros H. apply nth_error_In in H. simpl in H.
  destruct H as [<-|[<-|[<-|[]]]]; reflexivity.
Qed.

Lemma blockTypeAt_range (i : Z) :
  ((i <? 0) || (i >=? typeCount))%Z = true <-> blockTypeAt i = None.
Proof.
  unfold blockTypeAt, typeCount.
  destruct (i <? 0)%Z eqn:E; cbn [orb]; [tauto|].
  rewrite nth_error_None. apply Z.ltb_ge in E.
  rewrite Z.geb_le. lia.
Qed.

Section Spawning.
Context {rt : JSRuntime}.

Lemma spawnBlockWithTypeDef_spec (typeDef : BlockType) (ln : Z) (g : GameScene.t) :
  let g' := GameScene._spawnBlockWithTypeDef typeDef ln g in
  exists b,
    Block.type b = typeDef
    /\ GameScene.blocks g' = GameScene.blocks g ++ [b]
    /\ GameScene.spawned g' = GameScene.spawned g ++ [b]
    /\ GameScene.spawnIndex g' = GameScene.spawnIndex g
    /\ GameScene.emitted g' = GameScene.emitted g
    /\ sameButBlocks g g'.
Proof.
  unfold GameScene._spawnBlockWithTypeDef.
  destruct (GameScene.lanePosition ln g); cbn;
    (eexists; split; [|split; [reflexivity|split; [reflexivity|]]];
     [reflexivity | unfold sameButBlocks; repeat split]).
Qed.

(** [spawnBlockOfType] makes a block exactly when the index names a type. *)
Lemma spawnBlockOfType_alt (typeIndex ln : Z) (g : GameScene.t) :
  GameScene.spawnBlockOfType typeIndex ln g
  = match blockTypeAt typeIndex with
    | Some typeDef => GameScene._spawnBlockWithTypeDef typeDef ln g
    | None => g
    end.
Proof.
  unfold GameScene.spawnBlockOfType.
  destruct ((typeIndex <? 0) || (typeIndex >=? typeCount))%Z eqn:E.
  - apply blockTypeAt_range in E. now rewrite E.
  - reflexivity.
Qed.

Lemma spawnBlockOfType_spec (ev : NoteEvent) (g : GameScene.t) :
  let g' := GameScene.spawnBlockOfType (type ev) (lane ev) g in
  exists new,
    map Block.type new = spawnedType ev
    /\ GameScene.blocks g' = GameScene.blocks g ++ new
    /\ GameScene.spawned g' = GameScene.spawned g ++ new
    /\ GameScene.spawnIndex g' = GameScene.spawnIndex g
    /\ GameScene.emitted g' = GameScene.emitted g
    /\ sameButBlocks g g'.
Proof.
  cbv zeta. rewrite spawnBlockOfType_alt. unfold spawnedType.
  destruct (blockTypeAt (type ev)) as [typeDef|].
  - destruct (spawnBlockWithTypeDef_spec typeDef (lane ev) g)
      as (b & Hb & H1 & H2 & H3 & H4 & H5).
    exists [b]. cbn [map]. rewrite Hb. repeat split; assumption || apply H5.
  - exists []. rewrite !app_nil_r. repeat split.
Qed.

Lemma spawnBlockRandom_spec (g : GameScene.t) :
  let g' := GameScene.spawnBlockRandom g in
  exists new,
    Forall (fun b => typeScore (Block.type b) = None) new
    /\ GameScene.blocks g' = GameScene.blocks g ++ new
    /\ GameScene.spawned g' = GameScene.spawned g ++ new
    /\ GameScene.spawnIndex g' = GameScene.spawnIndex g
    /\ GameScene.emitted g' = GameScene.emitted g
    /\ sameButBlocks g g'.
Proof.
  unfold GameScene.spawnBlockRandom.
  destruct (blockTypeAt _) as [typeDef|] eqn:E.
  - match goal with
    | |- context [GameScene._spawnBlockWithTypeDef typeDef ?l ?g1] =>
        destruct (spawnBlockWithTypeDef_spec typeDef l g1)
          as (b & Hb & H1 & H2 & H3 & H4 & H5)
    end.
    exists [b]. split.
    { constructor; [|constructor]. rewrite Hb. eapply blockTypeAt_config, E. }
    repeat split; assumption || apply H5.
  - exists []. cbn. rewrite !app_nil_r. split; [constructor|]. repeat split.
Qed.

(** The draw of a type index by [spawnBlockRandom] always names a type. *)
Lemma random_type_in_range (n : nat) :
  blockTypeAt (Qfloor (Math_random n * inject_Z typeCount)) <> None.
Proof.
  destruct (Math_random_unit n) as [H0 H1].
  intros E. apply blockTypeAt_range in E.
  set (q := Math_random n * inject_Z typeCount) in *.
  assert (Hq0 : 0 <= q) by (subst q; change (inject_Z typeCount) with 3; lra).
  assert (Hq3 : q < 3) by (subst q; change (inject_Z typeCount) with 3; lra).
  assert (Hf0 : (0 <= Qfloor q)%Z).
  { change 0%Z with (Qfloor 0). apply Qfloor_resp_le, Hq0. }
  assert (Hf3 : (Qfloor q < 3)%Z).
  { pose proof (Qfloor_le q) as Hle.
    assert (Hlt : inject_Z (Qfloor q) < inject_Z 3) by (change (inject_Z 3) with 3; lra).
    rewrite <- Zlt_Qlt in Hlt. exact Hlt. }
  apply orb_true_iff in E. destruct E as [E|E].
  - apply Z.ltb_lt in E. lia.
  - rewrite Z.geb_le in E. change typeCount with 3%Z in E. lia.
Qed.

Lemma nth_error_skipn {A} (l : list A) (n : nat) (a : A) :
  nth_error l n = Some a -> skipn n l = a :: skipn (S n) l.
Proof.
  revert n. induction l as [|x l IH]; intros [|n] H; try discriminate.
  - injection H as ->. reflexivity.
  - cbn in H. cbn [skipn]. rewrite (IH n H). reflexivity.
Qed.

(** The scheduler's loop: it hands over [k] events, the next [k] of the
    pattern, all due; and with fuel for the rest of the pattern it stops at
    the end of the pattern or in front of an event that is not due. *)
Lemma spawnDue_spec (fuel : nat) :
  forall g,
    let g' := GameScene.spawnDue fuel g in
    let pending := skipn (GameScene.spawnIndex g) (GameScene.spawns g) in
    exists k new,
      (k <= List.length pending)%nat
      /\ GameScene.spawnIndex g' = (GameScene.spawnIndex g + k)%nat
      /\ GameScene.emitted g' = GameScene.emitted g ++ firstn k pending
      /\ Forall (fun ev => time ev <= GameScene.timeElapsed g) (firstn k pending)
      /\ map Block.type new = flat_map spawnedType (firstn k pending)
      /\ GameScene.blocks g' = GameScene.blocks g ++ new
      /\ GameScene.spawned g' = GameScene.spawned g ++ new
      /\ ((List.length (GameScene.spawns g) - GameScene.spawnIndex g <= fuel)%nat ->
          match nth_error (GameScene.spawns g) (GameScene.spawnIndex g') with
          | Some ev => GameScene.timeElapsed g < time ev
          | None => True
          end)
      /\ sameButBlocks g g'.
Proof.
  induction fuel as [|fuel IH]; intros g g' pending; subst g'.
  - exists 0%nat, []. cbn [GameScene.spawnDue firstn flat_map map].
    rewrite Nat.add_0_r, !app_nil_r.
    repeat split; try constructor; try lia.
    intros Hfuel. rewrite (proj2 (nth_error_None _ _)); [exact I|lia].
  - cbn [GameScene.spawnDue].
    destruct (nth_error (GameScene.spawns g) (GameScene.spawnIndex g)) as [ev|] eqn:Hnth.
    + destruct (Qleb (time ev) (GameScene.timeElapsed g)) eqn:Hdue.
      * pose proof (nth_error_skipn _ _ _ Hnth) as Hskip. fold pending in Hskip.
        destruct (spawnBlockOfType_spec ev
                    (GameScene.set_emitted (GameScene.emitted g ++ [ev]) g))
          as (new1 & Ht1 & Hb1 & Hs1 & Hi1 & He1 & Hk1).
        match goal with
        | |- context [GameScene.spawnDue fuel ?g2] =>
            destruct (IH g2) as (k & new & Hk & Hi & He & Hall & Ht & Hb & Hs & Hdone & Hkeep)
        end.
        destruct Hk1 as (k1 & k2 & k3 & k4 & k5 & k6 & k7 & k8 & k9).
        destruct Hkeep as (j1 & j2 & j3 & j4 & j5 & j6 & j7 & j8 & j9).
        gcbn in Hi He Hall Ht Hb Hs Hdone Hk j1 j2 j3 j4 j5 j6 j7 j8 j9.
        gcbn in Hb1 Hs1 Hi1 He1 k1 k2 k3 k4 k5 k6 k7 k8 k9.
        rewrite k7 in *. rewrite Hi1 in *. rewrite k8 in *.
        exists (S k), (new1 ++ new). rewrite Hskip.
        cbn [firstn flat_map List.length].
        split; [lia|].
        split; [lia|].
        split; [rewrite He, He1, <- app_assoc; reflexivity|].
        split; [constructor; [apply Qleb_true, Hdue | exact Hall]|].
        split; [rewrite map_app, Ht1, Ht; reflexivity|].
        split; [rewrite Hb, Hb1, app_assoc; reflexivity|].
        split; [rewrite Hs, Hs1, app_assoc; reflexivity|].
        split.
        { intros Hfuel. rewrite Hi.
          replace (GameScene.spawnIndex g + S k)%nat
            with (S (GameScene.spawnIndex g) + k)%nat by lia.
          rewrite <- Hi. apply Hdone. lia. }
        unfold sameButBlocks. repeat split; congruence.
      * exists 0%nat, []. cbn [firstn flat_map map].
        rewrite Nat.add_0_r, !app_nil_r.
        repeat split; try constructor; try lia.
        intros _. rewrite Hnth. apply Qleb_false, Hdue.
    + exists 0%nat, []. cbn [firstn flat_map map].
      rewrite Nat.add_0_r, !app_nil_r.
      repeat split; try constructor; try lia.
      intros _. rewrite Hnth. exact I.
Qed.

End Spawning.

(** ** One frame *)

Section Frames.
Context {rt : JSRuntime}.

Lemma types_of_spawned (new : list Block.t) (evs : list NoteEvent) :
  map Block.type new = flat_map spawnedType evs ->
  Forall (fun b => typeScore (Block.type b) = None) new.
Proof.
  intros H.
  apply (proj1 (Forall_map Block.type (fun t => typeScore t = None) new)).
  rewrite H. apply Forall_flat_map. apply Forall_forall. intros ev _.
  unfold spawnedType. destruct (blockTypeAt (type ev)) eqn:E; constructor.
  - eapply blockTypeAt_config, E.
  - constructor.
Qed.

(** The spawn phase: the clock advances by [dt]; the scheduler hands over
    the next [k] events of the pattern; the new blocks go to the end of
    [blocks]. *)
Lemma spawnPhase_spec (dt : Q) (g : GameScene.t) :
  let g1 := GameScene.spawnPhase dt g in
  let pending := skipn (GameScene.spawnIndex g) (GameScene.spawns g) in
  GameScene.timeElapsed g1 = GameScene.timeElapsed g + dt
  /\ GameScene.score g1 = GameScene.score g
  /\ GameScene.misses g1 = GameScene.misses g
  /\ GameScene.player g1 = GameScene.player g
  /\ GameScene.canvas g1 = GameScene.canvas g
  /\ GameScene.gameOver g1 = GameScene.gameOver g
  /\ GameScene.spawns g1 = GameScene.spawns g
  /\ GameScene.usePattern g1 = GameScene.usePattern g
  /\ exists k new,
       (k <= List.length pending)%nat
       /\ GameScene.spawnIndex g1 = (GameScene.spawnIndex g + k)%nat
       /\ GameScene.emitted g1 = GameScene.emitted g ++ firstn k pending
       /\ Forall (fun ev => time ev <= GameScene.timeElapsed g + dt) (firstn k pending)
       /\ GameScene.blocks g1 = GameScene.blocks g ++ new
       /\ GameScene.spawned g1 = GameScene.spawned g ++ new
       /\ Forall (fun b => typeScore (Block.type b) = None) new
       /\ (GameScene.usePattern g = true ->
           map Block.type new = flat_map spawnedType (firstn k pending)
           /\ match nth_error (GameScene.spawns g) (GameScene.spawnIndex g1) with
              | Some ev => GameScene.timeElapsed g + dt < time ev
              | None => True
              end)
       /\ (GameScene.usePattern g = false -> k = 0%nat).
Proof.
  unfold GameScene.spawnPhase.
  set (g0 := if GameScene.audioStarted g then g else _).
  assert (H0 : sameButBlocks g g0
               /\ GameScene.spawnIndex g0 = GameScene.spawnIndex g
               /\ GameScene.emitted g0 = GameScene.emitted g
               /\ GameScene.blocks g0 = GameScene.blocks g
               /\ GameScene.spawned g0 = GameScene.spawned g).
  { subst g0. destruct (GameScene.audioStarted g); unfold sameButBlocks; repeat split. }
  destruct H0 as ((a1 & a2 & a3 & a4 & a5 & a6 & a7 & a8 & a9) & ai & ae & ab & asp).
  gcbn. rewrite a9.
  destruct (GameScene.usePattern g) eqn:Hpat.
  - match goal with
    | |- context [GameScene.spawnDue ?f ?g2] =>
        destruct (spawnDue_spec f g2)
          as (k & new & Hk & Hi & He & Hall & Ht & Hb & Hs & Hdone & Hkeep)
    end.
    destruct Hkeep as (j1 & j2 & j3 & j4 & j5 & j6 & j7 & j8 & j9).
    gcbn in Hk Hi He Hall Ht Hb Hs Hdone j1 j2 j3 j4 j5 j6 j7 j8 j9.
    rewrite a7, ai, ?a8, ?ae, ?ab, ?asp in *.
    repeat (split; [congruence|]).
    exists k, new.
    repeat (split; [assumption|]).
    split; [eapply types_of_spawned, Ht|].
    split; [|discriminate].
    intros _. split; [exact Ht|]. apply Hdone. lia.
  - match goal with
    | |- context [if ?c then GameScene.spawnBlockRandom ?g3 else ?g2] =>
        destruct (spawnBlockRandom_spec g3) as (new & Hnew & Hb & Hs & Hi & He & Hkeep);
        destruct c
    end.
    + destruct Hkeep as (j1 & j2 & j3 & j4 & j5 & j6 & j7 & j8 & j9).
      gcbn in Hb Hs Hi He j1 j2 j3 j4 j5 j6 j7 j8 j9.
      repeat (split; [congruence|]).
      exists 0%nat, new. cbn [firstn]. rewrite Nat.add_0_r, app_nil_r.
      split; [lia|]. split; [congruence|]. split; [congruence|].
      split; [constructor|]. split; [congruence|]. split; [congruence|].
      split; [assumption|]. split; [discriminate|reflexivity].
    + gcbn. repeat (split; [congruence|]).
      exists 0%nat, []. cbn [firstn]. rewrite Nat.add_0_r, !app_nil_r.
      split; [lia|]. split; [congruence|]. split; [congruence|].
      split; [constructor|]. split; [congruence|]. split; [congruence|].
      split; [constructor|]. split; [discriminate|reflexivity].
Qed.

(** A frame of a live game, phase by phase. *)
Lemma update_spec (dt : Q) (g : GameScene.t) :
  GameScene.gameOver g = false ->
  let g1 := GameScene.spawnPhase dt g in
  let p := Player.update dt (GameScene.player g) in
  let c := GameScene.canvas g in
  let moved := map (Block.update dt) (GameScene.blocks g1) in
  let g' := GameScene.update dt g in
  GameScene.blocks g' = filter (stays p c) moved
  /\ GameScene.score g' = tally p c moved (GameScene.score g)
  /\ GameScene.misses g'
     = (GameScene.misses g + Z.of_nat (List.length (filter (isMiss p c) moved)))%Z
  /\ GameScene.canvas g' = c
  /\ sameSchedule g1 g'.
Proof.
  intros Hlive g1 p c moved g'. subst g'. rewrite (update_live dt g Hlive).
  fold g1. cbv zeta.
  destruct (spawnPhase_spec dt g) as (_ & Hs & Hm & Hp & Hc & _).
  fold g1 in Hs, Hm, Hp, Hc.
  set (g2 := GameScene.set_player _ g1).
  destruct (resolveBlocks_spec dt g2) as (Rb & Rs & Rm & Rp & Rc & Rsch & _).
  destruct (finishFrame_fields dt (GameScene.resolveBlocks dt g2))
    as (Fb & Fs & Fm & Fp & Fc & Fsch).
  subst g2. gcbn in Rb Rs Rm Rp Rc.
  rewrite Hp, Hc, Hs, Hm in *. fold p c moved in Rb, Rs, Rm.
  split; [rewrite Fb; exact Rb|]. split; [rewrite Fs; exact Rs|].
  split; [rewrite Fm; exact Rm|]. split; [rewrite Fc; exact Rc|].
  eapply sameSchedule_trans; [|exact Fsch].
  eapply sameSchedule_trans; [|exact Rsch].
  unfold sameSchedule. repeat split.
Qed.

End Frames.

(** ** The scheduler (C1) *)





Section Scheduler.
Context {rt : JSRuntime}.


Lemma updates_snoc (dts : list Q) (dt : Q) (g : GameScene.t) :
  GameScene.updates (dts ++ [dt]) g = GameScene.update dt (GameScene.updates dts g).
Proof. unfold GameScene.updates. now rewrite fold_left_app. Qed.



Lemma timeElapsed_updates (dts : list Q) :
  forall g,
    GameScene.gameOver (GameScene.updates dts g) = false ->
    GameScene.timeElapsed (GameScene.updates dts g)
    = fold_left Qplus dts (GameScene.timeElapsed g).
Proof.
  induction dts as [|dt dts IH]; intros g Hlive; [reflexivity|].
  change (GameScene.updates (dt :: dts) g)
    with (GameScene.updates dts (GameScene.update dt g)) in *.
  destruct (GameScene.gameOver g) eqn:Hover.
  - exfalso. unfold GameScene.update in Hlive. rewrite Hover in Hlive.
    rewrite (updates_gameOver dts g Hover) in Hlive. congruence.
  - rewrite (IH _ Hlive). cbn [fold_left]. f_equal.
    destruct (update_spec dt g Hover) as (_ & _ & _ & _ & (_ & _ & s3 & _)).
    destruct (spawnPhase_spec dt g) as (Ht & _).
    congruence.
Qed.


End Scheduler.


(** ** The score (C3) and the misses (C4) *)

Lemma update_keeps_type {rt : JSRuntime} (dt : Q) (b : Block.t) :
  Block.type (Block.update dt b) = Block.type b.
Proof. unfold Block.update. now destruct (effect (Block.type b)). Qed.

Lemma tally_nonneg (p : Player.t) (c : Canvas) (moved : list Block.t) :
  Forall (fun b => 0 <= GameScene.points b) moved ->
  forall score, 0 <= score -> 0 <= tally p c moved score.
Proof.
  unfold tally. induction 1 as [|b moved Hb _ IH]; intros score Hscore; [exact Hscore|].
  cbn [fold_left]. apply IH.
  destruct (GameScene.hitsPlayer b p); [lra|].
  destruct (GameScene.pastBottom b c); [|exact Hscore].
  destruct (Qltb 0 config.scoring.miss); [apply Q.le_max_l | exact Hscore].
Qed.

Section Score.
Context {rt : JSRuntime}.

Lemma update_scoreKept (dt : Q) (g : GameScene.t) :
  scoreKept g -> scoreKept (GameScene.update dt g).
Proof.
  intros (Hscore & Htypes).
  destruct (GameScene.gameOver g) eqn:Hover.
  { unfold GameScene.update. rewrite Hover. now split. }
  destruct (update_spec dt g Hover) as (Hb & Hs & _).
  destruct (spawnPhase_spec dt g)
    as (_ & _ & _ & _ & _ & _ & _ & _ & k & new & _ & _ & _ & _ & Hb1 & _ & Hnew & _).
  assert (Hmoved : Forall (fun b => typeScore (Block.type b) = None)
                     (map (Block.update dt) (GameScene.blocks (GameScene.spawnPhase dt g)))).
  { rewrite Hb1. apply Forall_map. apply Forall_app. split.
    - eapply Forall_impl; [|exact Htypes]. intros b Hbt. now rewrite update_keeps_type.
    - eapply Forall_impl; [|exact Hnew]. intros b Hbt. now rewrite update_keeps_type. }
  split.
  - rewrite Hs. apply tally_nonneg; [|exact Hscore].
    eapply Forall_impl; [|exact Hmoved].
    intros b Hbt. unfold GameScene.points. rewrite Hbt. discriminate.
  - rewrite Hb. apply Forall_forall. intros b Hin. apply filter_In in Hin.
    rewrite Forall_forall in Hmoved. now apply Hmoved.
Qed.

Lemma step_scoreKept (g : GameScene.t) (e : GameScene.Event) :
  scoreKept g -> scoreKept (GameScene.step g e).
Proof.
  intros H. destruct e as [dt|x y|x y| |]; cbn [GameScene.step].
  - apply (update_scoreKept dt) in H. exact H.
  - unfold GameScene.onTouchStart.
    destruct (GameScene.gameOver g); [exact H|].
    destruct (GameScene.inReturnButton x y g); exact H.
  - unfold GameScene.onTouchMove. destruct (GameScene.gameOver g); exact H.
  - unfold GameScene.endGame. destruct (GameScene.gameOver g); exact H.
  - unfold GameScene.endGame. destruct (GameScene.gameOver g); exact H.
Qed.

(** C3.  Whatever frames, touches and audio callbacks a game receives from
    its start, where the score is 0, the score after each of them is not
    negative: a hit adds the points of the block's type (1, as no type of
    [config.js] sets its own), a miss takes the penalty off and stops at 0. *)
Theorem score_never_negative (canvas : Canvas) (song : Level)
    (events : list GameScene.Event) :
  GameScene.score (GameScene.new canvas song) = 0
  /\ 0 <= GameScene.score (GameScene.run events (GameScene.new canvas song)).
Proof.
  split; [reflexivity|].
  assert (H : scoreKept (GameScene.run events (GameScene.new canvas song))).
  { induction events as [|e events IH] using rev_ind.
    - split; [cbn; lra | constructor].
    - unfold GameScene.run in *. rewrite fold_left_app. cbn [fold_left].
      now apply step_scoreKept. }
  exact (proj1 H).
Qed.

(** C4, as the code has it.  In a frame of a live game, a block that has
    moved and does not intersect the player is a miss exactly when its top
    [y] is more than half its size below the canvas height; the misses are
    counted, each takes the penalty off the score, which stops at 0, and the
    blocks of the next frame are the moved blocks that are neither hit nor
    such a miss, in their order. *)
Theorem miss_when_top_half_a_size_below_canvas (dt : Q) (g : GameScene.t) :
  GameScene.gameOver g = false ->
  let p := Player.update dt (GameScene.player g) in
  let c := GameScene.canvas g in
  let moved := map (Block.update dt) (GameScene.blocks (GameScene.spawnPhase dt g)) in
  let g' := GameScene.update dt g in
  (forall b, isMiss p c b = true <->
             GameScene.hitsPlayer b p = false
             /\ canvasHeight c < Block.y b - Block.size b / 2)
  /\ GameScene.misses g'
     = (GameScene.misses g + Z.of_nat (List.length (filter (isMiss p c) moved)))%Z
  /\ GameScene.score g' = tally p c moved (GameScene.score g)
  /\ GameScene.blocks g' = filter (stays p c) moved
  /\ (forall b, In b moved -> GameScene.hitsPlayer b p = false ->
                (In b (GameScene.blocks g') <->
                 Block.y b - Block.size b / 2 <= canvasHeight c)).
Proof.
  intros Hlive p c moved g'.
  destruct (update_spec dt g Hlive) as (Hb & Hs & Hm & _).
  fold p c moved g' in Hb, Hs, Hm.
  split.
  { intros b. unfold isMiss, GameScene.pastBottom.
    rewrite andb_true_iff, negb_true_iff, Qltb_true. reflexivity. }
  split; [exact Hm|]. split; [exact Hs|]. split; [exact Hb|].
  intros b Hin Hnohit. rewrite Hb, filter_In. unfold stays, GameScene.pastBottom.
  rewrite Hnohit. cbn [negb andb]. rewrite negb_true_iff, Qltb_false. tauto.
Qed.

End Score.

(** C4, as the claim has it, fails: the bottom edge of the only block has
    passed the canvas height and the block does not intersect the player,
    yet no miss is counted and the block is still there. *)
Lemma bottom_edge_below_canvas_is_no_miss :
  exists b,
    GameScene.blocks fallenGame = [b]
    /\ canvasHeight phoneCanvas < bottomEdge b
    /\ GameScene.hitsPlayer b (GameScene.player fallenGame) = false
    /\ GameScene.misses fallenGame = 0%Z.
Proof.
  eexists. split; [vm_compute; reflexivity|].
  split; [vm_compute; reflexivity|].
  split; vm_compute; reflexivity.
Qed.

(** ** Out-of-range type indices (C2) *)

(** C2, as the claim has it, fails in the game: the scheduler hands the
    event of type index 5 to [spawnBlockOfType] and moves on, and no block is
    made for it, with the default type or any other. *)
Lemma stray_type_spawns_no_block :
  GameScene.emitted strayTypeGame = [ {| time := 0.0; type := 5; lane := 0 |} ]
  /\ GameScene.spawnIndex strayTypeGame = 1%nat
  /\ GameScene.spawned strayTypeGame = []
  /\ GameScene.blocks strayTypeGame = [].
Proof. vm_compute. repeat split; reflexivity. Qed.

(** C2, as the code has it.  For a type index out of range, the game's
    [spawnBlockOfType] ignores the call and leaves the scene as it is, while
    the editor's [render] falls back to the type at index 0 and draws every
    such note in view in its colour. *)
Theorem stray_type_ignored_by_game_defaulted_by_editor (typeIndex : Z) :
  (typeIndex < 0 \/ typeIndex >= typeCount)%Z ->
  (forall (rt : JSRuntime) ln g, GameScene.spawnBlockOfType typeIndex ln g = g)
  /\ (forall note, type note = typeIndex ->
        EditorScene.noteTypeDef note = nth_error config.blockTypes 0)
  /\ (forall s note,
        type note = typeIndex ->
        In note (EditorScene.spawns s) ->
        let noteY := EditorScene.noteYOf (time note) s in
        let trackY := EditorScene.viewportY (EditorScene.layout s) in
        let trackH := EditorScene.viewportHeight (EditorScene.layout s) in
        trackY - 20 <= noteY <= trackY + trackH + 20 ->
        exists box, In ("#ff6bcb"%string, box) (EditorScene.drawNotes s)).
Proof.
  intros Hrange.
  assert (Hnone : blockTypeAt typeIndex = None).
  { apply blockTypeAt_range. apply orb_true_iff.
    destruct Hrange as [H|H]; [left; now apply Z.ltb_lt | right; rewrite Z.geb_le; lia]. }
  split; [|split].
  - intros rt ln g. rewrite spawnBlockOfType_alt, Hnone. reflexivity.
  - intros note <-. unfold EditorScene.noteTypeDef. now rewrite Hnone.
  - intros s note <- Hin noteY trackY trackH [Hlo Hhi].
    eexists. unfold EditorScene.drawNotes. apply in_flat_map.
    exists note. split; [exact Hin|].
    fold noteY trackY trackH.
    replace (Qltb noteY (trackY - 20)) with false by (symmetry; now apply Qltb_false).
    replace (Qltb (trackY + trackH + 20) noteY) with false
      by (symmetry; now apply Qltb_false).
    cbn [orb]. unfold EditorScene.noteTypeDef. rewrite Hnone.
    cbn. left. reflexivity.
Qed.

(** ** The editor's time and pixel maps (C6) *)

Section TimeMaps.
Import PrimFloat.

(** C6, as the claim has it, fails on the doubles that the sources
    compute with: at 50 px per second and a scroll offset of 0, [localY] 7
    is at 0.14 s, the double next to 0.14, and 0.14 s is drawn at
    7.000000000000001, the double after 7. *)
Lemma round_trip_on_doubles_is_not_exact :
  (Doubles.timeOfLocalY 0 50 7 = 0x1.1eb851eb851ecp-3
   /\ Doubles.roundTrip 0 50 7 = 0x1.c000000000001p+2
   /\ PrimFloat.eqb (Doubles.roundTrip 0 50 7) 7 = false)%float.
Proof. repeat split; vm_compute; reflexivity. Qed.

(** C6, as the code has it.  With [pxPerSecond > 0], the map from a
    pointer's [localY] to a time that [onTouchStart] uses and the map from a
    note's time to its [localY] that [render] uses are inverse formulas, for
    every scroll offset: over the rationals each undoes the other, and so
    does [render]'s [noteY] for a pointer's [y].  With 50 px per second and
    a scroll offset of 100, [localY] 150 is at 5 s, and 5 s is at [localY]
    150, over the rationals and on doubles alike.  On doubles the round trip
    is exact up to rounding only: at 50 px per second and a scroll offset of
    0, each whole [localY] from 0 to 6000, the height of the timeline, comes
    back within 2^-40 px of itself. *)
Theorem time_and_pixel_maps_are_inverse_up_to_rounding (s : EditorScene.t) :
  0 < EditorScene.pxPerSecond s ->
  (forall localY,
     EditorScene.localYOfTime (EditorScene.timeOfLocalY localY s) s == localY)
  /\ (forall t,
        EditorScene.timeOfLocalY (EditorScene.localYOfTime t s) s == t)
  /\ (forall y,
        EditorScene.noteYOf
          (EditorScene.timeOfLocalY (EditorScene.localYOf y s) s) s == y)
  /\ (EditorScene.pxPerSecond s == 50 -> EditorScene.scrollOffset s == 100 ->
      EditorScene.timeOfLocalY 150 s == 5
      /\ EditorScene.localYOfTime 5 s == 150)
  /\ (Doubles.timeOfLocalY 100 50 150 = 5 /\ Doubles.localYOfTime 100 50 5 = 150)%float
  /\ Doubles.wholeFrom (Doubles.roundTripWithin 0x1p-40 0 50) (60 * 100 + 1) 0 = true.
Proof.
  intros Hpx.
  unfold EditorScene.localYOfTime, EditorScene.timeOfLocalY,
    EditorScene.noteYOf, EditorScene.localYOf.
  assert (Hne : ~ EditorScene.pxPerSecond s == 0) by lra.
  split; [intros localY; field; exact Hne|].
  split; [intros t; field; exact Hne|].
  split; [intros y; field; exact Hne|].
  split; [intros H50 H100; rewrite H50, H100; split; reflexivity|].
  split; [split; vm_compute; reflexivity|].
  vm_compute. reflexivity.
Qed.

End TimeMaps.

(** ** A drag whose index is stale (C9) *)

Lemma computeLayout_fields (s : EditorScene.t) :
  let s' := EditorScene.computeLayout s in
  EditorScene.spawns s' = EditorScene.spawns s
  /\ EditorScene.scrollHandleDragging s' = EditorScene.scrollHandleDragging s
  /\ EditorScene.dragging s' = EditorScene.dragging s
  /\ EditorScene.dragNoteIndex s' = EditorScene.dragNoteIndex s
  /\ EditorScene.bounds s' = EditorScene.bounds s
  /\ EditorScene.pxPerSecond s' = EditorScene.pxPerSecond s
  /\ EditorScene.levels s' = EditorScene.levels s
  /\ EditorScene.currentLevelIndex s' = EditorScene.currentLevelIndex s
  /\ EditorScene.selectedBlockType s' = EditorScene.selectedBlockType s
  /\ EditorScene.deleteMode s' = EditorScene.deleteMode s.
Proof. cbv zeta. unfold EditorScene.computeLayout. ecbn. repeat split. Qed.

Lemma dragScrollHandle_fields (y : Q) (s : EditorScene.t) :
  let s' := EditorScene.dragScrollHandle y s in
  EditorScene.spawns s' = EditorScene.spawns s
  /\ EditorScene.scrollHandleDragging s' = EditorScene.scrollHandleDragging s
  /\ EditorScene.dragging s' = EditorScene.dragging s.
Proof.
  cbv zeta. unfold EditorScene.dragScrollHandle.
  destruct (Qltb 0 (EditorScene.maxScroll s)); [|repeat split].
  destruct (EditorScene.scrollHandle (EditorScene.bounds s)); repeat split.
Qed.

(** C9.  A pointer-move during a note drag whose recorded index names no
    entry of the current pattern (there is no index, or it is past the end,
    as after a switch to a shorter pattern) leaves the pattern as it is: no
    entry is written, none is added.  If no handle drag is on as well, all
    the move does is recompute the layout. *)
Theorem stale_drag_index_leaves_pattern (x y : Q) (s : EditorScene.t) :
  EditorScene.dragging s = true ->
  (forall i, EditorScene.dragNoteIndex s = Some i ->
             nth_error (EditorScene.spawns s) i = None) ->
  EditorScene.spawns (EditorScene.onTouchMove x y s) = EditorScene.spawns s
  /\ (EditorScene.scrollHandleDragging s = false ->
      EditorScene.onTouchMove x y s = EditorScene.computeLayout s).
Proof.
  intros Hdrag Hstale.
  destruct (computeLayout_fields s) as (Hsp & _ & _ & Hidx & _).
  assert (Hnote : EditorScene.dragNote x y (EditorScene.computeLayout s)
                  = EditorScene.computeLayout s).
  { unfold EditorScene.dragNote. rewrite Hidx, Hsp.
    destruct (EditorScene.dragNoteIndex s) as [i|] eqn:E; [|reflexivity].
    now rewrite (Hstale i eq_refl). }
  unfold EditorScene.onTouchMove. rewrite Hdrag. cbn [negb].
  destruct (EditorScene.scrollHandleDragging s).
  - split; [|discriminate].
    destruct (dragScrollHandle_fields y (EditorScene.computeLayout s)) as (H & _).
    congruence.
  - rewrite Hnote. split; [exact Hsp | reflexivity].
Qed.

(** When the index still names an entry of the new pattern, the drag goes
    on and the move writes that entry: after the switch to the second song,
    whose pattern has 151 notes as well, note 1 of the new pattern is moved
    from 0.8 s to 2 s. *)
Remark drag_outlives_song_switch :
  EditorScene.dragging switchedToSong2 = true
  /\ option_map time (nth_error (EditorScene.spawns switchedToSong2) 1)
     = Some (toFixed2 0.8)
  /\ option_map time
       (nth_error (EditorScene.spawns (EditorScene.onTouchMove 140 300 switchedToSong2)) 1)
     = Some (toFixed2 2).
Proof. vm_compute. repeat split; reflexivity. Qed.

(** ** One drag at a time (C8) *)

Lemma tapTrack_flags (x y : Q) (s : EditorScene.t) :
  dragFlags (EditorScene.tapTrack x y s) = dragFlags s.
Proof.
  unfold EditorScene.tapTrack.
  destruct (_ || _); [reflexivity|].
  destruct (removeFirst _ _); [reflexivity|].
  destruct (EditorScene.deleteMode s); reflexivity.
Qed.

Lemma saveSpawns_flags (s : EditorScene.t) :
  dragFlags (EditorScene.saveSpawns s) = dragFlags s.
Proof.
  unfold EditorScene.saveSpawns. ecbn.
  destruct (EditorScene.fsAvailable (EditorScene.host s)); reflexivity.
Qed.

(** A pointer-down either starts a handle drag, starts a note drag, or
    leaves both flags as they are. *)
Lemma onTouchStart_flags (x y : Q) (s : EditorScene.t) :
  let s' := EditorScene.onTouchStart x y s in
  dragFlags s' = (true, EditorScene.dragging s)
  \/ dragFlags s' = (EditorScene.scrollHandleDragging s, true)
  \/ dragFlags s' = dragFlags s.
Proof.
  cbv zeta. unfold EditorScene.onTouchStart.
  set (s1 := EditorScene.computeLayout s).
  assert (H1 : dragFlags s1 = dragFlags s) by reflexivity.
  destruct (EditorScene._hitBox (EditorScene.scrollHandle (EditorScene.bounds s1)) x y).
  { left. reflexivity. }
  destruct (EditorScene.hitIndex (EditorScene.noteBoxes (EditorScene.bounds s1)) x y).
  { right. left. reflexivity. }
  right. right. rewrite <- H1.
  repeat match goal with
         | |- context [if ?c then _ else _] => destruct c; try reflexivity
         | |- context [match EditorScene.hitIndex ?b ?x ?y with _ => _ end] =>
             destruct (EditorScene.hitIndex b x y); try reflexivity
         end.
  - apply saveSpawns_flags.
  - apply tapTrack_flags.
Qed.

Lemma onTouchMove_flags (x y : Q) (s : EditorScene.t) :
  dragFlags (EditorScene.onTouchMove x y s) = dragFlags s.
Proof.
  unfold EditorScene.onTouchMove.
  destruct (EditorScene.scrollHandleDragging s) eqn:Hh.
  - unfold EditorScene.dragScrollHandle.
    destruct (Qltb 0 _); [|unfold dragFlags; ecbn; reflexivity].
    destruct (EditorScene.scrollHandle _); unfold dragFlags; ecbn; reflexivity.
  - destruct (EditorScene.dragging s) eqn:Hd; cbn [negb]; [|reflexivity].
    unfold EditorScene.dragNote.
    destruct (EditorScene.dragNoteIndex _); [|reflexivity].
    destruct (nth_error _ _); reflexivity.
Qed.

(** A pointer-up ends one drag: the handle drag if it is on, else the note
    drag. *)
Lemma onTouchEnd_flags (s : EditorScene.t) :
  dragFlags (EditorScene.onTouchEnd s)
  = if EditorScene.scrollHandleDragging s
    then (false, EditorScene.dragging s)
    else (false, false).
Proof.
  unfold EditorScene.onTouchEnd, dragFlags.
  destruct (EditorScene.scrollHandleDragging s) eqn:Hh; [reflexivity|].
  destruct (EditorScene.dragging s) eqn:Hd; ecbn; now rewrite ?Hh, ?Hd.
Qed.

Lemma activeDrags_flags (s : EditorScene.t) :
  activeDrags s = (Nat.b2n (fst (dragFlags s)) + Nat.b2n (snd (dragFlags s)))%nat.
Proof. reflexivity. Qed.

Lemma resolved_run (es : list EditorScene.Event) :
  forall (down : bool) (s : EditorScene.t),
    resolvedGestures down es = true ->
    (activeDrags s <= 1)%nat ->
    (down = false -> activeDrags s = 0%nat) ->
    forall n,
      let sn := EditorScene.run (firstn n es) s in
      (activeDrags sn <= 1)%nat
      /\ (forall x y, nth_error es n = Some (EditorScene.PointerDown x y) ->
                      activeDrags sn = 0%nat).
Proof.
  induction es as [|e es IH]; intros down s Hres Hone Hidle n.
  - rewrite firstn_nil. cbn. split; [exact Hone|]. intros x y H.
    now destruct n.
  - destruct n as [|n].
    + cbn [firstn EditorScene.run fold_left nth_error]. split; [exact Hone|].
      intros x y [= ->]. cbn [resolvedGestures] in Hres.
      apply andb_true_iff in Hres. destruct Hres as [Hdown _].
      apply negb_true_iff in Hdown. now apply Hidle.
    + cbn [firstn nth_error]. unfold EditorScene.run. cbn [fold_left].
      fold (EditorScene.run (firstn n es) (EditorScene.step s e)).
      destruct e as [x y|x y| |]; cbn [resolvedGestures EditorScene.step] in *.
      * apply andb_true_iff in Hres. destruct Hres as [Hdown Hres].
        apply negb_true_iff in Hdown. specialize (Hidle Hdown).
        apply (IH true); [exact Hres| |discriminate].
        rewrite activeDrags_flags in *.
        destruct (onTouchStart_flags x y s) as [H|[H|H]]; rewrite H; cbn [fst snd].
        -- unfold dragFlags in Hidle. cbn [fst snd] in Hidle.
           destruct (EditorScene.dragging s); cbn in *; lia.
        -- unfold dragFlags in Hidle. cbn [fst snd] in Hidle.
           destruct (EditorScene.scrollHandleDragging s); cbn in *; lia.
        -- lia.
      * apply (IH down); [exact Hres| |].
        -- rewrite activeDrags_flags, onTouchMove_flags, <- activeDrags_flags. exact Hone.
        -- intros Hd. rewrite activeDrags_flags, onTouchMove_flags, <- activeDrags_flags.
           now apply Hidle.
      * assert (Hzero : activeDrags (EditorScene.onTouchEnd s) = 0%nat).
        { rewrite activeDrags_flags, onTouchEnd_flags.
          unfold activeDrags in Hone.
          destruct (EditorScene.scrollHandleDragging s), (EditorScene.dragging s);
            cbn in *; lia. }
        apply (IH false); [exact Hres|lia|intros _; exact Hzero].
      * apply (IH down); [exact Hres|exact Hone|exact Hidle].
Qed.

(** C8, as the code has it.  From a new editor, along every sequence of
    pointer and frame events in which each pointer-down is resolved by a
    pointer-up before the next one comes, at most one drag mode is on at any
    time, so that the state is one of Idle, DraggingNote and
    DraggingScrollHandle, and every pointer-down finds the editor Idle. *)
Theorem one_drag_mode_when_gestures_are_resolved
    (canvas : Canvas) (host : EditorScene.Host) (es : list EditorScene.Event) :
  resolvedGestures false es = true ->
  forall n,
    let s := EditorScene.run (firstn n es) (EditorScene.new canvas host) in
    (activeDrags s <= 1)%nat
    /\ dragState s <> None
    /\ (forall x y, nth_error es n = Some (EditorScene.PointerDown x y) ->
                    dragState s = Some Idle).
Proof.
  intros Hres n s.
  assert (Hnew : activeDrags (EditorScene.new canvas host) = 0%nat) by reflexivity.
  destruct (resolved_run es false (EditorScene.new canvas host) Hres
              ltac:(lia) (fun _ => Hnew) n) as [Hone Hdown].
  fold s in Hone, Hdown.
  split; [exact Hone|]. unfold activeDrags, dragState in *.
  split.
  - destruct (EditorScene.scrollHandleDragging s), (EditorScene.dragging s);
      cbn in Hone; try discriminate; lia.
  - intros x y Hn. specialize (Hdown x y Hn).
    destruct (EditorScene.scrollHandleDragging s), (EditorScene.dragging s);
      cbn in Hdown; try discriminate; reflexivity.
Qed.

(** C8, as the claim has it, fails: after the second pointer-down both drag
    modes are on, the handle drag having been entered during the note
    drag. *)
Lemma two_drag_modes_at_once :
  let s1 := EditorScene.run (firstn 2 twoDowns) (EditorScene.new phoneCanvas emptyHost) in
  let s2 := EditorScene.run twoDowns (EditorScene.new phoneCanvas emptyHost) in
  dragState s1 = Some (DraggingNote (Some 0%nat))
  /\ EditorScene.dragging s2 = true
  /\ EditorScene.scrollHandleDragging s2 = true
  /\ activeDrags s2 = 2%nat
  /\ dragState s2 = None.
Proof. vm_compute. repeat split; reflexivity. Qed.

(** ** The toggle of a tap on the track (C7) *)

Lemma Qmin_left (a b : Q) : a <= b -> Qmin a b = a.
Proof.
  intros H. unfold Qmin, Qminmax.Qmin, GenericMinMax.gmin.
  destruct (a ?= b) eqn:E; try reflexivity.
  apply Qgt_alt in E. lra.
Qed.

Lemma Qmax_left (a b : Q) : b <= a -> Qmax a b = a.
Proof.
  intros H. unfold Qmax, Qminmax.Qmax, GenericMinMax.gmax.
  destruct (a ?= b) eqn:E; try reflexivity.
  apply Qlt_alt in E. lra.
Qed.

Lemma clamp_idempotent (sc m : Q) :
  0 <= m -> Qmax (Qmin (Qmax (Qmin sc m) 0) m) 0 = Qmax (Qmin sc m) 0.
Proof.
  intros Hm.
  assert (Ha : Qmin sc m <= m) by apply Q.le_min_r.
  assert (Hb : 0 <= Qmax (Qmin sc m) 0) by apply Q.le_max_r.
  assert (Hc : Qmax (Qmin sc m) 0 <= m) by (apply Q.max_lub; assumption).
  now rewrite (Qmin_left _ _ Hc), (Qmax_left _ _ Hb).
Qed.

(** Two editors with the same fields are the same. *)
Lemma editor_ext (s s' : EditorScene.t) :
  EditorScene.canvas s = EditorScene.canvas s' ->
  EditorScene.sceneRequest s = EditorScene.sceneRequest s' ->
  EditorScene.levels s = EditorScene.levels s' ->
  EditorScene.currentLevelIndex s = EditorScene.currentLevelIndex s' ->
  EditorScene.pxPerSecond s = EditorScene.pxPerSecond s' ->
  EditorScene.scrollOffset s = EditorScene.scrollOffset s' ->
  EditorScene.selectedBlockType s = EditorScene.selectedBlockType s' ->
  EditorScene.spawns s = EditorScene.spawns s' ->
  EditorScene.outputText s = EditorScene.outputText s' ->
  EditorScene.deleteMode s = EditorScene.deleteMode s' ->
  EditorScene.bounds s = EditorScene.bounds s' ->
  EditorScene.scrollHandleDragging s = EditorScene.scrollHandleDragging s' ->
  EditorScene.scrollHandleOffset s = EditorScene.scrollHandleOffset s' ->
  EditorScene.dragging s = EditorScene.dragging s' ->
  EditorScene.dragNoteIndex s = EditorScene.dragNoteIndex s' ->
  EditorScene.layout s = EditorScene.layout s' ->
  EditorScene.host s = EditorScene.host s' ->
  s = s'.
Proof. destruct s, s'. cbn. intros. subst. reflexivity. Qed.

(** [computeLayout] settles at once: a second call changes nothing. *)
Lemma computeLayout_idempotent (s : EditorScene.t) :
  EditorScene.computeLayout (EditorScene.computeLayout s) = EditorScene.computeLayout s.
Proof.
  apply editor_ext; try reflexivity.
  unfold EditorScene.computeLayout, EditorScene.maxScroll. ecbn.
  cbn [EditorScene.timelineHeightPx EditorScene.viewportHeight].
  apply clamp_idempotent, Q.le_max_l.
Qed.

Lemma computeLayout_set_bounds (B : EditorScene.Bounds) (s : EditorScene.t) :
  EditorScene.computeLayout (EditorScene.set_bounds B s)
  = EditorScene.set_bounds B (EditorScene.computeLayout s).
Proof. apply editor_ext; reflexivity. Qed.

Lemma insertByTime_sorted (n : NoteEvent) (l : list NoteEvent) :
  sortedByTime l -> sortedByTime (insertByTime n l).
Proof.
  unfold sortedByTime.
  induction 1 as [|m l Hs IH Hall]; cbn [insertByTime].
  - repeat constructor.
  - destruct (Qleb (time n) (time m)) eqn:E.
    + constructor; [now constructor|].
      apply Qleb_true in E. constructor; [exact E|].
      eapply Forall_impl; [|exact Hall]. cbv beta. intros k Hk. lra.
    + constructor; [exact IH|].
      apply Qleb_false in E.
      assert (Hin : forall k, In k (insertByTime n l) -> k = n \/ In k l).
      { clear. induction l as [|a l IHl]; cbn [insertByTime]; intros k Hk.
        - destruct Hk as [<-|[]]. now left.
        - destruct (Qleb (time n) (time a)).
          + destruct Hk as [<-|Hk]; [now left | now right].
          + destruct Hk as [<-|Hk]; [right; now left|].
            destruct (IHl k Hk) as [->|Hl]; [now left | right; now right]. }
      apply Forall_forall. intros k Hk. destruct (Hin k Hk) as [->|Hl].
      * lra.
      * rewrite Forall_forall in Hall. now apply Hall.
Qed.

Lemma sortByTime_sorted (l : list NoteEvent) : sortedByTime (sortByTime l).
Proof.
  unfold sortByTime. induction l as [|a l IH]; cbn [fold_right].
  - constructor.
  - now apply insertByTime_sorted.
Qed.











(** ** The entry animation of the player (C5) *)

Section EntryAnimation.
Local Open Scope R_scope.

Lemma entryCurve_at_0 : PlayerR.entryCurve 0 = 0.8.
Proof.
  unfold PlayerR.entryCurve.
  replace (0 * PI * 2) with 0 by ring. rewrite sin_0. lra.
Qed.

Lemma entryCurve_at_1 : PlayerR.entryCurve 1 = 0.8.
Proof.
  unfold PlayerR.entryCurve.
  replace (1 * PI * 2) with (2 * PI) by ring. rewrite sin_2PI. lra.
Qed.

Lemma entryCurve_at_quarter : PlayerR.entryCurve (1 / 4) = 1.
Proof.
  unfold PlayerR.entryCurve.
  replace (1 / 4 * PI * 2) with (PI / 2) by field. rewrite sin_PI2. lra.
Qed.

(** C5, what the code does.  The entry curve [0.8 + 0.2 sin(2 pi progress)]
    is 0.8 at progress 0 and 0.8 again at progress 1, and it is 1 at a
    quarter of the way: the frame that completes the 0.8 s of a new player
    computes the entry factor 0.8, not 1.  Once [animationTime] has reached
    the duration the entry factor is 1, and the scale is always the entry
    factor times the pulse factor. *)
Theorem entry_curve_is_0_8_at_both_ends (x : R) :
  PlayerR.entryCurve 0 = 0.8
  /\ PlayerR.entryCurve 1 = 0.8
  /\ PlayerR.entryCurve (1 / 4) = 1
  /\ snd (PlayerR.entry 0 (PlayerR.new x)) = 0.8
  /\ snd (PlayerR.entry 0.8 (PlayerR.new x)) = 0.8
  /\ (forall dt p,
        PlayerR.animationDuration p <= PlayerR.animationTime p ->
        snd (PlayerR.entry dt p) = 1)
  /\ (forall dt p,
        PlayerR.scale (PlayerR.update dt p)
        = snd (PlayerR.entry dt p) * PlayerR.pulseScale dt p).
Proof.
  split; [exact entryCurve_at_0|]. split; [exact entryCurve_at_1|].
  split; [exact entryCurve_at_quarter|].
  split; [|split; [|split]].
  - unfold PlayerR.entry, PlayerR.new. cbn [PlayerR.animationTime PlayerR.animationDuration].
    destruct (Rlt_dec 0 0.8) as [_|H]; [|exfalso; lra].
    cbn [snd]. replace ((0 + 0) / 0.8) with 0 by (field; lra).
    rewrite Rmin_left by lra. exact entryCurve_at_0.
  - unfold PlayerR.entry, PlayerR.new. cbn [PlayerR.animationTime PlayerR.animationDuration].
    destruct (Rlt_dec 0 0.8) as [_|H]; [|exfalso; lra].
    cbn [snd]. replace ((0 + 0.8) / 0.8) with 1 by (field; lra).
    rewrite Rmin_left by lra. exact entryCurve_at_1.
  - intros dt p Hdone. unfold PlayerR.entry.
    destruct (Rlt_dec (PlayerR.animationTime p) (PlayerR.animationDuration p));
      [exfalso; lra | reflexivity].
  - intros dt p. unfold PlayerR.update.
    destruct (PlayerR.entry dt p) as [at' entryScale]. reflexivity.
Qed.

End EntryAnimation.

(** ** The theorems at concrete inputs *)



Lemma stray_type_witness :
  (forall ln g, GameScene.spawnBlockOfType (rt := sampleRuntime) 5 ln g = g)
  /\ EditorScene.noteTypeDef {| time := 0; type := 5; lane := 0 |}
     = nth_error config.blockTypes 0.
Proof.
  assert (Hrange : (5 < 0 \/ 5 >= typeCount)%Z) by (right; vm_compute; discriminate).
  destruct (stray_type_ignored_by_game_defaulted_by_editor 5 Hrange) as (Hgame & Hdef & _).
  split.
  - intros ln g. apply Hgame.
  - apply Hdef. reflexivity.
Defined.

(** The block of [oneNote 0] after a frame of 0 s and one of 4.4 s: its top
    is at 840, more than 20 below the canvas height of 800, and it is a
    miss. *)
Lemma miss_witness :
  let g := GameScene.update (rt := sampleRuntime) 0 (GameScene.new phoneCanvas (oneNote 0)) in
  let g' := GameScene.update (rt := sampleRuntime) 4.4 g in
  GameScene.gameOver g = false
  /\ GameScene.misses g' = 1%Z
  /\ GameScene.blocks g' = [].
Proof.
  cbv zeta.
  assert (Hlive : GameScene.gameOver
                    (GameScene.update (rt := sampleRuntime) 0
                       (GameScene.new phoneCanvas (oneNote 0))) = false)
    by (vm_compute; reflexivity).
  destruct (miss_when_top_half_a_size_below_canvas (rt := sampleRuntime) 4.4 _ Hlive)
    as (_ & Hm & _ & Hb & _).
  split; [exact Hlive|].
  split; [rewrite Hm; vm_compute; reflexivity | rewrite Hb; vm_compute; reflexivity].
Defined.

Lemma time_and_pixel_maps_witness :
  let s := EditorScene.set_scrollOffset 100 drawnEditor in
  EditorScene.timeOfLocalY 150 s == 5 /\ EditorScene.localYOfTime 5 s == 150.
Proof.
  cbv zeta.
  assert (Hpx : 0 < EditorScene.pxPerSecond (EditorScene.set_scrollOffset 100 drawnEditor))
    by reflexivity.
  destruct (time_and_pixel_maps_are_inverse_up_to_rounding _ Hpx) as (_ & _ & _ & Hex & _).
  apply Hex; reflexivity.
Defined.



Lemma resolved_gestures_witness :
  let s := EditorScene.run twoTaps (EditorScene.new phoneCanvas emptyHost) in
  (activeDrags s <= 1)%nat /\ dragState s <> None.
Proof.
  cbv zeta.
  assert (Hres : resolvedGestures false twoTaps = true) by reflexivity.
  destruct (one_drag_mode_when_gestures_are_resolved phoneCanvas emptyHost twoTaps Hres 6)
    as (Hone & Hstate & _).
  split; [exact Hone | exact Hstate].
Defined.

(** A move of the pointer on [switchedMidDrag], whose drag index 1 is past
    the end of the pattern of one note. *)
Lemma stale_drag_witness :
  EditorScene.dragging switchedMidDrag = true
  /\ EditorScene.dragNoteIndex switchedMidDrag = Some 1%nat
  /\ List.length (EditorScene.spawns switchedMidDrag) = 1%nat
  /\ EditorScene.spawns (EditorScene.onTouchMove 140 300 switchedMidDrag)
     = EditorScene.spawns switchedMidDrag.
Proof.
  assert (Hdrag : EditorScene.dragging switchedMidDrag = true) by (vm_compute; reflexivity).
  assert (Hidx : EditorScene.dragNoteIndex switchedMidDrag = Some 1%nat)
    by (vm_compute; reflexivity).
  assert (Hlen : List.length (EditorScene.spawns switchedMidDrag) = 1%nat)
    by (vm_compute; reflexivity).
  assert (Hstale : forall i, EditorScene.dragNoteIndex switchedMidDrag = Some i ->
                             nth_error (EditorScene.spawns switchedMidDrag) i = None).
  { intros i Hi. rewrite Hidx in Hi. injection Hi as <-.
    apply nth_error_None. rewrite Hlen. lia. }
  destruct (stale_drag_index_leaves_pattern 140 300 switchedMidDrag Hdrag Hstale)
    as (Hsame & _).
  split; [exact Hdrag|]. split; [exact Hidx|]. split; [exact Hlen | exact Hsame].
Defined.

Lemma gameOver_witness :
  let g := GameScene.endGame (GameScene.new phoneCanvas threeNotes) in
  GameScene.gameOver g = true
  /\ GameScene.update (rt := sampleRuntime) 2 g = g
  /\ GameScene.endGame g = g.
Proof.
  cbv zeta.
  assert (Hover : GameScene.gameOver
                    (GameScene.endGame (GameScene.new phoneCanvas threeNotes)) = true)
    by reflexivity.
  destruct (update_after_gameOver_is_identity (rt := sampleRuntime) _ Hover)
    as (Hupd & _ & Hend).
  split; [exact Hover|]. split; [apply Hupd | exact Hend].
Defined.

(** * Further properties of the code *)

(** Replaces every [Qmin] and [Qmax] by a variable with its two cases. *)
Ltac qmm :=
  repeat match goal with
  | |- context [Qmax ?a ?b] =>
      let m := fresh "m" in
      pose proof (Q.max_spec a b); set (m := Qmax a b) in *; clearbody m
  | |- context [Qmin ?a ?b] =>
      let m := fresh "m" in
      pose proof (Q.min_spec a b); set (m := Qmin a b) in *; clearbody m
  | H : context [Qmax ?a ?b] |- _ =>
      let m := fresh "m" in
      pose proof (Q.max_spec a b); set (m := Qmax a b) in *; clearbody m
  | H : context [Qmin ?a ?b] |- _ =>
      let m := fresh "m" in
      pose proof (Q.min_spec a b); set (m := Qmin a b) in *; clearbody m
  end.

(** ** [rectIntersect] *)

(** X1.  For rectangles of positive size, [rectIntersect] is true exactly
    when the interiors of the two rectangles have a point in common, so
    rectangles that only touch along an edge do not intersect; and the test
    does not depend on the order of the two rectangles. *)
Theorem rectIntersect_iff_common_interior_point (ax ay aw ah bx b_y bw bh : Q) :
  0 < aw -> 0 < ah -> 0 < bw -> 0 < bh ->
  (rectIntersect ax ay aw ah bx b_y bw bh = true <->
   exists px py,
     (ax < px < ax + aw /\ ay < py < ay + ah)
     /\ (bx < px < bx + bw /\ b_y < py < b_y + bh))
  /\ rectIntersect ax ay aw ah bx b_y bw bh = rectIntersect bx b_y bw bh ax ay aw ah.
Proof.
  intros Haw Hah Hbw Hbh. split.
  - unfold rectIntersect. rewrite !andb_true_iff, !Qltb_true. split.
    + intros [[[H1 H2] H3] H4].
      exists ((Qmax ax bx + Qmin (ax + aw) (bx + bw)) * (1 # 2)),
             ((Qmax ay b_y + Qmin (ay + ah) (b_y + bh)) * (1 # 2)).
      qmm. lra.
    + intros (px & py & [[? ?] [? ?]] & [[? ?] [? ?]]).
      repeat split; lra.
  - unfold rectIntersect.
    destruct (Qltb ax (bx + bw)), (Qltb bx (ax + aw)),
             (Qltb ay (b_y + bh)), (Qltb b_y (ay + ah)); reflexivity.
Qed.

(** ** The player *)

(** X2.  On a canvas at least as wide as the player, [setPosition] puts
    the target where the player, centred under the touch, is still inside the
    canvas: the target is between 0 and the canvas width less the player's
    width, the player is centred under any touch that leaves room for it, and
    the position itself is not moved. *)
Theorem setPosition_keeps_target_on_canvas (touchX : Q) (p : Player.t) :
  Player.width p <= canvasWidth (Player.canvas p) ->
  let p' := Player.setPosition touchX p in
  0 <= Player.targetX p' <= canvasWidth (Player.canvas p) - Player.width p
  /\ (Player.width p / 2 <= touchX <= canvasWidth (Player.canvas p) - Player.width p / 2 ->
      Player.targetX p' + Player.width p / 2 == touchX)
  /\ Player.x p' = Player.x p
  /\ Player.width p' = Player.width p
  /\ Player.canvas p' = Player.canvas p.
Proof.
  intros Hw p'. subst p'. unfold Player.setPosition.
  cbn [Player.targetX Player.x Player.width Player.canvas].
  set (W := canvasWidth (Player.canvas p)) in *.
  set (w := Player.width p) in *.
  assert (Hhalf : w / 2 == w * (1 # 2)) by (unfold Qdiv; reflexivity).
  repeat split; try reflexivity; qmm; lra.
Qed.

Section PlayerMoves.
Context {rt : JSRuntime}.

Lemma Player_update_fields (dt : Q) (p : Player.t) :
  let p' := Player.update dt p in
  Player.x p' = Player.x p + (Player.targetX p - Player.x p) * Qmin (dt * 10) 1
  /\ Player.targetX p' = Player.targetX p
  /\ Player.width p' = Player.width p
  /\ Player.canvas p' = Player.canvas p.
Proof.
  unfold Player.update. destruct (Player.entry dt p) as [at' entryScale].
  cbn. repeat split; reflexivity.
Qed.

(** X3.  With a frame time that is not negative, [update] never moves
    the player away from its target: a player left of its target moves
    right or stays, a player right of it moves left or stays, and a player on
    its target stays there, as does any player in a frame of 0 s.  The target
    is not changed. *)
Theorem update_moves_player_towards_target (dt : Q) (p : Player.t) :
  0 <= dt ->
  let p' := Player.update dt p in
  (Player.x p <= Player.targetX p -> Player.x p <= Player.x p')
  /\ (Player.targetX p <= Player.x p -> Player.x p' <= Player.x p)
  /\ (Player.x p == Player.targetX p -> Player.x p' == Player.x p)
  /\ (dt == 0 -> Player.x p' == Player.x p)
  /\ Player.targetX p' = Player.targetX p.
Proof.
  intros Hdt p'. subst p'.
  destruct (Player_update_fields dt p) as (Hx & Ht & _). rewrite Hx, Ht.
  set (x := Player.x p). set (tx := Player.targetX p).
  assert (Hi : 0 <= Qmin (dt * 10) 1 <= 1) by (qmm; lra).
  assert (Hz : dt == 0 -> Qmin (dt * 10) 1 == 0) by (intros; qmm; lra).
  set (i := Qmin (dt * 10) 1) in *. clearbody i.
  split; [intros; nra|]. split; [intros; nra|].
  split; [intros E; rewrite E; ring|].
  split; [|reflexivity].
  intros E. rewrite (Hz E). ring.
Qed.

Lemma Player_update_onScreen (dt : Q) (p : Player.t) :
  0 <= dt -> onScreen p -> onScreen (Player.update dt p).
Proof.
  intros Hdt [Hx Htx]. unfold onScreen.
  destruct (Player_update_fields dt p) as (Ex & Et & Ew & Ec).
  rewrite Ex, Et, Ew, Ec.
  assert (Hi : 0 <= Qmin (dt * 10) 1 <= 1) by (qmm; lra).
  set (i := Qmin (dt * 10) 1) in *. clearbody i.
  split; [|exact Htx]. nra.
Qed.

Lemma Player_setPosition_onScreen (touchX : Q) (p : Player.t) :
  Player.width p <= canvasWidth (Player.canvas p) ->
  onScreen p -> onScreen (Player.setPosition touchX p).
Proof.
  intros Hw [Hx _]. unfold onScreen.
  unfold Player.setPosition.
  cbn [Player.targetX Player.x Player.width Player.canvas].
  split; [exact Hx|].
  set (W := canvasWidth (Player.canvas p)) in *.
  set (w := Player.width p) in *.
  assert (Hhalf : w / 2 == w * (1 # 2)) by (unfold Qdiv; reflexivity).
  qmm. lra.
Qed.

Lemma update_player (dt : Q) (g : GameScene.t) :
  GameScene.gameOver g = false ->
  GameScene.player (GameScene.update dt g) = Player.update dt (GameScene.player g).
Proof.
  intros Hlive. rewrite (update_live dt g Hlive). cbv zeta.
  destruct (spawnPhase_spec dt g) as (_ & _ & _ & Hp & _).
  match goal with
  | |- GameScene.player (finishFrame dt ?g2) = _ =>
      destruct (finishFrame_fields dt g2) as (_ & _ & _ & Hf & _); rewrite Hf
  end.
  match goal with
  | |- GameScene.player (GameScene.resolveBlocks dt ?g1) = _ =>
      destruct (resolveBlocks_spec dt g1) as (_ & _ & _ & Hr & _); rewrite Hr
  end.
  gcbn. rewrite Hp. reflexivity.
Qed.

(** The player of the scene after one event. *)
Lemma step_player (g : GameScene.t) (e : GameScene.Event) :
  GameScene.player (GameScene.step g e)
  = match e with
    | GameScene.Frame dt =>
        if GameScene.gameOver g then GameScene.player g
        else Player.update dt (GameScene.player g)
    | GameScene.TouchStart x y =>
        if GameScene.gameOver g || GameScene.inReturnButton x y g
        then GameScene.player g
        else Player.setPosition x (GameScene.player g)
    | GameScene.TouchMove x _ =>
        if GameScene.gameOver g then GameScene.player g
        else Player.setPosition x (GameScene.player g)
    | _ => GameScene.player g
    end.
Proof.
  destruct e as [dt|x y|x y| |]; cbn [GameScene.step].
  - unfold GameScene.render. gcbn.
    destruct (GameScene.gameOver g) eqn:Hover.
    + unfold GameScene.update. rewrite Hover. reflexivity.
    + apply update_player. exact Hover.
  - unfold GameScene.onTouchStart.
    destruct (GameScene.gameOver g); [reflexivity|]. cbn [orb].
    destruct (GameScene.inReturnButton x y g); reflexivity.
  - unfold GameScene.onTouchMove.
    destruct (GameScene.gameOver g); reflexivity.
  - destruct (endGame_fields g) as (_ & _ & _ & Hp & _). exact Hp.
  - destruct (endGame_fields g) as (_ & _ & _ & Hp & _). exact Hp.
Qed.

(** X4.  On a canvas at least as wide as the player, the player never
    leaves the canvas: after any run of frames, touches and audio callbacks
    from a new game, with frame times that are not negative, its left edge
    and its target are between 0 and the canvas width less its width of
    60. *)
Theorem player_stays_on_canvas (canvas : Canvas) (song : Level)
    (es : list GameScene.Event) :
  config.player.size <= canvasWidth canvas ->
  nonnegFrames es ->
  let p := GameScene.player (GameScene.run es (GameScene.new canvas song)) in
  0 <= Player.x p <= canvasWidth canvas - config.player.size
  /\ 0 <= Player.targetX p <= canvasWidth canvas - config.player.size.
Proof.
  intros Hw Hes p.
  assert (Hinv : onScreen p /\ Player.width p = config.player.size
                 /\ Player.canvas p = canvas).
  { subst p. unfold GameScene.run.
    assert (H0 : onScreen (GameScene.player (GameScene.new canvas song))
                 /\ Player.width (GameScene.player (GameScene.new canvas song))
                    = config.player.size
                 /\ Player.canvas (GameScene.player (GameScene.new canvas song)) = canvas).
    { split; [|split; reflexivity].
      unfold onScreen, GameScene.new, Player.new. cbn.
      unfold config.player.size in *.
      assert (E : (canvasWidth canvas - 60) / 2 == (canvasWidth canvas - 60) * (1 # 2))
        by (unfold Qdiv; reflexivity).
      lra. }
    revert H0. generalize (GameScene.new canvas song).
    induction Hes as [|e es He Hes IH]; intros g Hg; [exact Hg|].
    cbn [fold_left]. apply IH.
    destruct Hg as (Hon & Hwd & Hcv).
    rewrite step_player.
    assert (Hfit : forall x, onScreen (Player.setPosition x (GameScene.player g))
                   /\ Player.width (Player.setPosition x (GameScene.player g))
                      = config.player.size
                   /\ Player.canvas (Player.setPosition x (GameScene.player g)) = canvas).
    { intros x. split; [|split; [exact Hwd | exact Hcv]].
      apply Player_setPosition_onScreen; [rewrite Hwd, Hcv; exact Hw | exact Hon]. }
    destruct e as [dt|x y|x y| |].
    - destruct (GameScene.gameOver g); [exact (conj Hon (conj Hwd Hcv))|].
      destruct (Player_update_fields dt (GameScene.player g)) as (_ & _ & Ew & Ec).
      split; [apply Player_update_onScreen; assumption|].
      split; [rewrite Ew; exact Hwd | rewrite Ec; exact Hcv].
    - destruct (GameScene.gameOver g || GameScene.inReturnButton x y g);
        [exact (conj Hon (conj Hwd Hcv)) | apply Hfit].
    - destruct (GameScene.gameOver g); [exact (conj Hon (conj Hwd Hcv)) | apply Hfit].
    - exact (conj Hon (conj Hwd Hcv)).
    - exact (conj Hon (conj Hwd Hcv)). }
  destruct Hinv as ((Hx & Htx) & Hwd & Hcv).
  rewrite Hwd, Hcv in Hx, Htx. split; assumption.
Qed.

End PlayerMoves.

(** ** Spawning at random *)

Lemma sameEffects_refl g : sameEffects g g.
Proof. repeat split. Qed.

Lemma sameEffects_trans g1 g2 g3 :
  sameEffects g1 g2 -> sameEffects g2 g3 -> sameEffects g1 g3.
Proof.
  intros (A1 & A2 & A3 & A4 & A5 & A6) (B1 & B2 & B3 & B4 & B5 & B6).
  repeat split; congruence.
Qed.

Section RandomSpawns.
Context {rt : JSRuntime}.

(** The block that [_spawnBlockWithTypeDef] makes. *)
Lemma spawnBlockWithTypeDef_block (typeDef : BlockType) (ln : Z) (g : GameScene.t) :
  let g' := GameScene._spawnBlockWithTypeDef typeDef ln g in
  let speed := match typeSpeed typeDef with
               | Some v => if Qeq_bool v 0 then 200 else v
               | None => 200
               end in
  sameEffects g g'
  /\ GameScene.spawnTimer g' = GameScene.spawnTimer g
  /\ match GameScene.lanePosition ln g with
     | Some lx =>
         GameScene.blocks g' = GameScene.blocks g ++ [Block.new lx (- 40) 40 speed typeDef]
         /\ GameScene.spawned g' = GameScene.spawned g ++ [Block.new lx (- 40) 40 speed typeDef]
         /\ GameScene.randomCalls g' = GameScene.randomCalls g
     | None =>
         let x := randomRange (Math_random (GameScene.randomCalls g))
                    (40 / 2) (canvasWidth (GameScene.canvas g) - 40 / 2) in
         GameScene.blocks g' = GameScene.blocks g ++ [Block.new x (- 40) 40 speed typeDef]
         /\ GameScene.spawned g' = GameScene.spawned g ++ [Block.new x (- 40) 40 speed typeDef]
         /\ GameScene.randomCalls g' = S (GameScene.randomCalls g)
     end.
Proof.
  unfold GameScene._spawnBlockWithTypeDef.
  destruct (GameScene.lanePosition ln g) as [lx|]; gcbn;
    (split; [repeat split|]); repeat split; reflexivity.
Qed.

Lemma random_lane_in_range (n : nat) :
  (0 <= Qfloor (Math_random n * inject_Z config.numLanes) < config.numLanes)%Z.
Proof.
  destruct (Math_random_unit n) as [H0 H1].
  set (q := Math_random n * inject_Z config.numLanes) in *.
  assert (Hq0 : 0 <= q) by (subst q; change (inject_Z config.numLanes) with 6; lra).
  assert (Hq6 : q < 6) by (subst q; change (inject_Z config.numLanes) with 6; lra).
  split.
  - change 0%Z with (Qfloor 0). apply Qfloor_resp_le, Hq0.
  - pose proof (Qfloor_le q) as Hle.
    assert (Hlt : inject_Z (Qfloor q) < inject_Z 6) by (change (inject_Z 6) with 6; lra).
    rewrite <- Zlt_Qlt in Hlt. exact Hlt.
Qed.

(** X5.  In a scene with its six lane positions, [spawnBlockRandom] always
    pushes exactly one block: of a type of [config.blockTypes], centred on
    one of the lane positions, 40 px wide, with its top 40 px above the
    canvas, falling at 200 px a second.  It draws two random numbers and
    never a third for the position. *)
Theorem spawnBlockRandom_adds_one_block_in_a_lane (g : GameScene.t) :
  List.length (GameScene.lanePositions g) = Z.to_nat config.numLanes ->
  let g' := GameScene.spawnBlockRandom g in
  exists b,
    GameScene.blocks g' = GameScene.blocks g ++ [b]
    /\ In (Block.type b) config.blockTypes
    /\ In (Block.x b) (GameScene.lanePositions g)
    /\ Block.y b = - 40 /\ Block.size b = 40 /\ Block.speed b = 200
    /\ GameScene.randomCalls g' = S (S (GameScene.randomCalls g)).
Proof.
  intros Hlanes g'. subst g'. unfold GameScene.spawnBlockRandom.
  pose proof (random_type_in_range (GameScene.randomCalls g)) as Htype.
  pose proof (random_lane_in_range (S (GameScene.randomCalls g))) as Hlane.
  set (ti := Qfloor (Math_random (GameScene.randomCalls g) * inject_Z typeCount)) in *.
  set (ln := Qfloor (Math_random (S (GameScene.randomCalls g)) * inject_Z config.numLanes)) in *.
  destruct (blockTypeAt ti) as [typeDef|] eqn:Et; [clear Htype|congruence].
  set (g1 := GameScene.set_randomCalls _ g).
  destruct (spawnBlockWithTypeDef_block typeDef ln g1) as (_ & _ & Hb).
  assert (Hin : In typeDef config.blockTypes).
  { unfold blockTypeAt in Et. destruct (ti <? 0)%Z; [discriminate|].
    eapply nth_error_In, Et. }
  assert (Hsome : exists lx, GameScene.lanePosition ln g1 = Some lx
                             /\ In lx (GameScene.lanePositions g)).
  { unfold GameScene.lanePosition. subst g1. gcbn.
    destruct (0 <=? ln)%Z eqn:E0; [|apply Z.leb_gt in E0; lia].
    destruct (nth_error (GameScene.lanePositions g) (Z.to_nat ln)) as [lx|] eqn:En.
    - exists lx. split; [reflexivity|]. eapply nth_error_In, En.
    - apply nth_error_None in En. rewrite Hlanes in En. lia. }
  destruct Hsome as (lx & Hlx & Hinl). rewrite Hlx in Hb.
  destruct Hb as (Hblocks & _ & Hcalls).
  eexists. split; [exact Hblocks|].
  assert (Hspeed : typeSpeed typeDef = None).
  { destruct Hin as [<-|[<-|[<-|[]]]]; reflexivity. }
  rewrite Hspeed. cbn [Block.new Block.type Block.x Block.y Block.size Block.speed].
  repeat split; assumption.
Qed.

Lemma spawnBlockOfType_rest (typeIndex ln : Z) (g : GameScene.t) :
  let g' := GameScene.spawnBlockOfType typeIndex ln g in
  sameEffects g g' /\ GameScene.spawnTimer g' = GameScene.spawnTimer g.
Proof.
  cbv zeta. rewrite spawnBlockOfType_alt.
  destruct (blockTypeAt typeIndex) as [typeDef|].
  - destruct (spawnBlockWithTypeDef_block typeDef ln g) as (H & Ht & _).
    split; assumption.
  - split; [apply sameEffects_refl | reflexivity].
Qed.

Lemma spawnDue_rest (fuel : nat) :
  forall g,
    let g' := GameScene.spawnDue fuel g in
    sameEffects g g' /\ GameScene.spawnTimer g' = GameScene.spawnTimer g.
Proof.
  induction fuel as [|fuel IH]; intros g; cbn [GameScene.spawnDue].
  - split; [apply sameEffects_refl | reflexivity].
  - destruct (nth_error (GameScene.spawns g) (GameScene.spawnIndex g)) as [ev|];
      [|split; [apply sameEffects_refl | reflexivity]].
    destruct (Qleb (time ev) (GameScene.timeElapsed g));
      [|split; [apply sameEffects_refl | reflexivity]].
    cbv zeta.
    set (g1 := GameScene.set_emitted _ g).
    destruct (spawnBlockOfType_rest (type ev) (lane ev) g1) as (H1 & T1).
    set (g2 := GameScene.spawnBlockOfType (type ev) (lane ev) g1) in *.
    destruct (IH (GameScene.set_spawnIndex (S (GameScene.spawnIndex g2)) g2)) as (H3 & T3).
    split.
    + eapply sameEffects_trans; [|exact H3].
      eapply sameEffects_trans; [|eapply sameEffects_trans; [exact H1|]];
        repeat split.
    + rewrite T3. gcbn. rewrite T1. reflexivity.
Qed.

End RandomSpawns.

(** ** The fields that a frame leaves alone *)

Section FramesMore.
Context {rt : JSRuntime}.

Lemma spawnBlockRandom_rest (g : GameScene.t) :
  let g' := GameScene.spawnBlockRandom g in
  sameEffects g g'
  /\ GameScene.spawnTimer g' = GameScene.spawnTimer g
  /\ exists b,
       GameScene.blocks g' = GameScene.blocks g ++ [b]
       /\ GameScene.spawned g' = GameScene.spawned g ++ [b].
Proof.
  unfold GameScene.spawnBlockRandom.
  pose proof (random_type_in_range (GameScene.randomCalls g)) as Htype.
  destruct (blockTypeAt _) as [typeDef|]; [clear Htype|congruence].
  match goal with
  | |- context [GameScene._spawnBlockWithTypeDef typeDef ?l ?g1] =>
      destruct (spawnBlockWithTypeDef_block typeDef l g1) as (H & Ht & Hb);
      destruct (GameScene.lanePosition l g1)
  end.
  - destruct Hb as (Hb1 & Hb2 & _).
    split; [exact H|]. split; [exact Ht|]. eexists. split; [exact Hb1 | exact Hb2].
  - destruct Hb as (Hb1 & Hb2 & _).
    split; [exact H|]. split; [exact Ht|]. eexists. split; [exact Hb1 | exact Hb2].
Qed.

(** The head of [update]: what it does to the audio, and what it leaves
    alone. *)
Lemma spawnPhase_rest (dt : Q) (g : GameScene.t) :
  let g1 := GameScene.spawnPhase dt g in
  GameScene.audioStarted g1 = true
  /\ GameScene.audioCtx g1
     = (if GameScene.audioStarted g then GameScene.audioCtx g
        else audioCall AudioPlay (GameScene.audioCtx g))
  /\ GameScene.lanePositions g1 = GameScene.lanePositions g
  /\ GameScene.spawnInterval g1 = GameScene.spawnInterval g
  /\ GameScene.effects g1 = GameScene.effects g
  /\ GameScene.scoreEffects g1 = GameScene.scoreEffects g
  /\ GameScene.duration g1 = GameScene.duration g.
Proof.
  unfold GameScene.spawnPhase.
  set (g0 := if GameScene.audioStarted g then g else _).
  assert (H0 : GameScene.audioStarted g0 = true
               /\ GameScene.audioCtx g0
                  = (if GameScene.audioStarted g then GameScene.audioCtx g
                     else audioCall AudioPlay (GameScene.audioCtx g))
               /\ GameScene.lanePositions g0 = GameScene.lanePositions g
               /\ GameScene.spawnInterval g0 = GameScene.spawnInterval g
               /\ GameScene.effects g0 = GameScene.effects g
               /\ GameScene.scoreEffects g0 = GameScene.scoreEffects g
               /\ GameScene.duration g0 = GameScene.duration g).
  { subst g0. destruct (GameScene.audioStarted g) eqn:E; gcbn; repeat split; exact E. }
  clearbody g0. destruct H0 as (A1 & A2 & A3 & A4 & A5 & A6 & A7).
  cbv zeta. set (g1 := GameScene.set_timeElapsed _ g0).
  assert (Hfin : forall g2, sameEffects g1 g2 ->
                            GameScene.duration g2 = GameScene.duration g1 ->
                 GameScene.audioStarted g2 = true
                 /\ GameScene.audioCtx g2
                    = (if GameScene.audioStarted g then GameScene.audioCtx g
                       else audioCall AudioPlay (GameScene.audioCtx g))
                 /\ GameScene.lanePositions g2 = GameScene.lanePositions g
                 /\ GameScene.spawnInterval g2 = GameScene.spawnInterval g
                 /\ GameScene.effects g2 = GameScene.effects g
                 /\ GameScene.scoreEffects g2 = GameScene.scoreEffects g
                 /\ GameScene.duration g2 = GameScene.duration g).
  { intros g2 (B1 & B2 & B3 & B4 & B5 & B6) B7. subst g1. gcbn in B1 B2 B3 B4 B5 B6 B7.
    repeat split; congruence. }
  destruct (GameScene.usePattern g1).
  - apply Hfin.
    + apply spawnDue_rest.
    + destruct (spawnDue_spec (List.length (GameScene.spawns g1) - GameScene.spawnIndex g1) g1)
        as (k & new & _ & _ & _ & _ & _ & _ & _ & _ & Hsame).
      apply Hsame.
  - set (g2 := GameScene.set_spawnTimer _ g1).
    destruct (Qleb (GameScene.spawnInterval g2) (GameScene.spawnTimer g2)).
    + apply Hfin.
      * eapply sameEffects_trans; [|apply spawnBlockRandom_rest]. repeat split.
      * match goal with
        | |- GameScene.duration (GameScene.spawnBlockRandom ?g3) = _ =>
            destruct (spawnBlockRandom_spec g3) as (new & _ & _ & _ & _ & _ & Hsame)
        end.
        destruct Hsame as (_ & _ & _ & _ & _ & Hd & _). rewrite Hd. reflexivity.
    + apply Hfin; [repeat split | reflexivity].
Qed.

(** The head of [update] without a pattern: the timer runs, and once it has
    reached the interval one block is spawned and the timer is set back by
    one interval. *)
Lemma spawnPhase_random (dt : Q) (g : GameScene.t) :
  GameScene.usePattern g = false ->
  let g1 := GameScene.spawnPhase dt g in
  if Qleb (GameScene.spawnInterval g) (GameScene.spawnTimer g + dt)
  then (exists b, GameScene.spawned g1 = GameScene.spawned g ++ [b])
       /\ GameScene.spawnTimer g1
          = GameScene.spawnTimer g + dt - GameScene.spawnInterval g
  else GameScene.spawned g1 = GameScene.spawned g
       /\ GameScene.spawnTimer g1 = GameScene.spawnTimer g + dt.
Proof.
  intros Hrand. unfold GameScene.spawnPhase.
  set (g0 := if GameScene.audioStarted g then g else _).
  assert (H0 : GameScene.usePattern g0 = false
               /\ GameScene.spawnInterval g0 = GameScene.spawnInterval g
               /\ GameScene.spawnTimer g0 = GameScene.spawnTimer g
               /\ GameScene.spawned g0 = GameScene.spawned g).
  { subst g0. destruct (GameScene.audioStarted g); gcbn; repeat split; exact Hrand. }
  clearbody g0. destruct H0 as (A1 & A2 & A3 & A4).
  cbv zeta. gcbn. rewrite A1, A2, A3.
  destruct (Qleb (GameScene.spawnInterval g) (GameScene.spawnTimer g + dt)).
  - match goal with
    | |- context [GameScene.spawnBlockRandom ?g3] =>
        destruct (spawnBlockRandom_rest g3) as (_ & Ht & b & _ & Hb)
    end.
    split.
    + exists b. rewrite Hb. gcbn. rewrite A4. reflexivity.
    + rewrite Ht. reflexivity.
  - gcbn. split; [exact A4 | reflexivity].
Qed.

(** The collision loop: the effects it adds are new ones. *)
Lemma collide_rest (dt : Q) (pending : list Block.t) :
  forall i toRemove g,
    exists bs tr g' newS newE,
      GameScene.collide dt i pending toRemove g = (bs, tr, g')
      /\ GameScene.audioCtx g' = GameScene.audioCtx g
      /\ GameScene.audioStarted g' = GameScene.audioStarted g
      /\ GameScene.lanePositions g' = GameScene.lanePositions g
      /\ GameScene.spawnInterval g' = GameScene.spawnInterval g
      /\ GameScene.spawnTimer g' = GameScene.spawnTimer g
      /\ GameScene.scoreEffects g' = GameScene.scoreEffects g ++ newS
      /\ Forall scoreEffectAlive newS
      /\ GameScene.effects g' = GameScene.effects g ++ newE
      /\ Forall flashAlive newE.
Proof.
  assert (Hs : forall x y text,
             scoreEffectAlive
               {| ScoreEffect.x := x; ScoreEffect.y := y; ScoreEffect.text := text;
                  ScoreEffect.life := 0.8; ScoreEffect.maxLife := 0.8;
                  ScoreEffect.dy := -60; ScoreEffect.alpha := 1.0;
                  ScoreEffect.color :=
                    match text with
                    | ScoreEffect.Plus _ => "#2ecc71"
                    | ScoreEffect.Minus _ => "#e74c3c"
                    end |}).
  { intros. unfold scoreEffectAlive. cbn.
    repeat split; try reflexivity; unfold Qle; cbn; lia. }
  assert (He : forall x y c, flashAlive (ExpandingSquareEffect.new x y c)).
  { intros. unfold flashAlive. cbn.
    repeat split; try reflexivity; unfold Qle; cbn; lia. }
  induction pending as [|b rest IH]; intros i toRemove g.
  - exists [], toRemove, g, [], []. cbn [GameScene.collide]. rewrite !app_nil_r.
    repeat split; constructor.
  - cbn [GameScene.collide]. set (block := Block.update dt b).
    change (Qltb 0 config.scoring.miss) with true. cbv iota.
    destruct (GameScene.hitsPlayer block (GameScene.player g)).
    + match goal with
      | |- context [GameScene.collide dt (S i) rest ?tr ?g1] =>
          destruct (IH (S i) tr g1)
            as (bs & tr' & g' & newS & newE & Heq & A1 & A2 & A3 & A4 & A5 & A6 & A7 & A8 & A9)
      end.
      rewrite Heq. gcbn in A1 A2 A3 A4 A5 A6 A8.
      eexists _, _, _, (_ :: newS), (_ :: newE). split; [reflexivity|].
      split; [exact A1|]. split; [exact A2|]. split; [exact A3|].
      split; [exact A4|]. split; [exact A5|].
      split; [rewrite A6, <- app_assoc; reflexivity|].
      split; [constructor; [apply Hs | exact A7]|].
      split; [rewrite A8, <- app_assoc; reflexivity|].
      constructor; [apply He | exact A9].
    + destruct (GameScene.pastBottom block (GameScene.canvas g)).
      * match goal with
        | |- context [GameScene.collide dt (S i) rest ?tr ?g1] =>
            destruct (IH (S i) tr g1)
              as (bs & tr' & g' & newS & newE & Heq & A1 & A2 & A3 & A4 & A5 & A6 & A7 & A8 & A9)
        end.
        rewrite Heq. gcbn in A1 A2 A3 A4 A5 A6 A8.
        eexists _, _, _, (_ :: newS), newE. split; [reflexivity|].
        split; [exact A1|]. split; [exact A2|]. split; [exact A3|].
        split; [exact A4|]. split; [exact A5|].
        split; [rewrite A6, <- app_assoc; reflexivity|].
        split; [constructor; [apply Hs | exact A7]|].
        split; [exact A8 | exact A9].
      * destruct (IH (S i) toRemove g)
          as (bs & tr' & g' & newS & newE & Heq & A).
        rewrite Heq. eexists _, _, _, newS, newE. split; [reflexivity | exact A].
Qed.

End FramesMore.

Section FrameTail.
Context {rt : JSRuntime}.

Lemma resolveBlocks_rest (dt : Q) (g : GameScene.t) :
  let g' := GameScene.resolveBlocks dt g in
  exists newS newE,
    GameScene.audioCtx g' = GameScene.audioCtx g
    /\ GameScene.audioStarted g' = GameScene.audioStarted g
    /\ GameScene.lanePositions g' = GameScene.lanePositions g
    /\ GameScene.spawnInterval g' = GameScene.spawnInterval g
    /\ GameScene.spawnTimer g' = GameScene.spawnTimer g
    /\ GameScene.scoreEffects g' = GameScene.scoreEffects g ++ newS
    /\ Forall scoreEffectAlive newS
    /\ GameScene.effects g' = GameScene.effects g ++ newE
    /\ Forall flashAlive newE.
Proof.
  unfold GameScene.resolveBlocks.
  destruct (collide_rest dt (GameScene.blocks g) 0%nat [] g)
    as (bs & tr & g' & newS & newE & Heq & A).
  rewrite Heq. exists newS, newE. gcbn. exact A.
Qed.

Lemma updateScoreEffects_alive (dt : Q) (g : GameScene.t) :
  0 <= dt ->
  Forall scoreEffectAlive (GameScene.scoreEffects g) ->
  Forall scoreEffectAlive (GameScene.scoreEffects (GameScene.updateScoreEffects dt g)).
Proof.
  intros Hdt. unfold GameScene.updateScoreEffects. gcbn.
  induction (GameScene.scoreEffects g) as [|e l IH]; intros Hall; [constructor|].
  inversion Hall as [|? ? He Hl]; subst. cbn [fold_right]. cbv zeta.
  destruct (Qleb (ScoreEffect.life e - dt) 0) eqn:E; [apply IH, Hl|].
  constructor; [|apply IH, Hl].
  apply Qleb_false in E. destruct He as ((L0 & L1) & Hm & _).
  unfold scoreEffectAlive.
  cbn [ScoreEffect.life ScoreEffect.maxLife ScoreEffect.alpha].
  split; [split; [exact E | lra]|]. split; [exact Hm|].
  rewrite Hm. split.
  - apply Qlt_shift_div_l; [reflexivity | lra].
  - apply Qle_shift_div_r; [reflexivity|]. rewrite Hm in L1. lra.
Qed.

Lemma updateEffects_alive (dt : Q) (g : GameScene.t) :
  0 <= dt ->
  Forall flashAlive (GameScene.effects g) ->
  Forall flashAlive (GameScene.effects (GameScene.updateEffects dt g)).
Proof.
  intros Hdt. unfold GameScene.updateEffects. gcbn.
  induction (GameScene.effects g) as [|e l IH]; intros Hall; [constructor|].
  inversion Hall as [|? ? He Hl]; subst. cbn [fold_right]. cbv zeta.
  destruct (Qleb (ExpandingSquareEffect.life (ExpandingSquareEffect.update dt e)) 0) eqn:E;
    [apply IH, Hl|].
  constructor; [|apply IH, Hl].
  apply Qleb_false in E. destruct He as ((L0 & L1) & Hg & Hsz).
  unfold flashAlive, ExpandingSquareEffect.update in *.
  cbn [ExpandingSquareEffect.life ExpandingSquareEffect.growth ExpandingSquareEffect.size] in *.
  split; [split; [exact E | lra]|]. split; [exact Hg|].
  rewrite Hg. nra.
Qed.

(** The tail of [update]: the game ends when the clock has reached the
    duration, and the audio is stopped then. *)
Lemma finishFrame_rest (dt : Q) (g : GameScene.t) :
  GameScene.gameOver g = false ->
  let over := Qleb (GameScene.duration g) (GameScene.timeElapsed g) in
  let g' := finishFrame dt g in
  GameScene.gameOver g' = over
  /\ GameScene.audioCtx g'
     = (if over then audioCall AudioStop (GameScene.audioCtx g) else GameScene.audioCtx g)
  /\ GameScene.audioStarted g' = GameScene.audioStarted g
  /\ GameScene.lanePositions g' = GameScene.lanePositions g
  /\ GameScene.spawnInterval g' = GameScene.spawnInterval g
  /\ GameScene.spawnTimer g' = GameScene.spawnTimer g
  /\ GameScene.duration g' = GameScene.duration g
  /\ (0 <= dt -> Forall scoreEffectAlive (GameScene.scoreEffects g) ->
      Forall scoreEffectAlive (GameScene.scoreEffects g'))
  /\ (0 <= dt -> Forall flashAlive (GameScene.effects g) ->
      Forall flashAlive (GameScene.effects g')).
Proof.
  intros Hlive over g'. subst g'. unfold finishFrame.
  set (g1 := if Qleb (GameScene.duration g) (GameScene.timeElapsed g)
             then GameScene.endGame g else g).
  assert (H1 : GameScene.gameOver g1 = over
               /\ GameScene.audioCtx g1
                  = (if over then audioCall AudioStop (GameScene.audioCtx g)
                     else GameScene.audioCtx g)
               /\ GameScene.audioStarted g1 = GameScene.audioStarted g
               /\ GameScene.lanePositions g1 = GameScene.lanePositions g
               /\ GameScene.spawnInterval g1 = GameScene.spawnInterval g
               /\ GameScene.spawnTimer g1 = GameScene.spawnTimer g
               /\ GameScene.duration g1 = GameScene.duration g
               /\ GameScene.scoreEffects g1 = GameScene.scoreEffects g
               /\ GameScene.effects g1 = GameScene.effects g).
  { subst g1 over. unfold GameScene.endGame. rewrite Hlive.
    destruct (Qleb (GameScene.duration g) (GameScene.timeElapsed g)); gcbn;
      repeat split; assumption. }
  clearbody g1. destruct H1 as (A1 & A2 & A3 & A4 & A5 & A6 & A7 & A8 & A9).
  unfold GameScene.updateEffects at 1.
  unfold GameScene.updateScoreEffects at 1 2 3 4 5 6 7. gcbn.
  split; [exact A1|]. split; [exact A2|]. split; [exact A3|].
  split; [exact A4|]. split; [exact A5|]. split; [exact A6|]. split; [exact A7|].
  split.
  - intros Hdt Hall. rewrite <- A8 in Hall.
    apply (updateScoreEffects_alive dt g1 Hdt Hall).
  - intros Hdt Hall. rewrite <- A9 in Hall.
    pose proof (updateEffects_alive dt (GameScene.updateScoreEffects dt g1) Hdt) as H.
    apply H. exact Hall.
Qed.

(** One frame of a live game, for the fields that [update_spec] leaves
    out. *)
Lemma update_rest (dt : Q) (g : GameScene.t) :
  GameScene.gameOver g = false ->
  let over := Qleb (GameScene.duration g) (GameScene.timeElapsed g + dt) in
  let started := if GameScene.audioStarted g then GameScene.audioCtx g
                 else audioCall AudioPlay (GameScene.audioCtx g) in
  let g' := GameScene.update dt g in
  GameScene.gameOver g' = over
  /\ GameScene.audioCtx g' = (if over then audioCall AudioStop started else started)
  /\ GameScene.audioStarted g' = true
  /\ GameScene.lanePositions g' = GameScene.lanePositions g
  /\ GameScene.spawnInterval g' = GameScene.spawnInterval g
  /\ GameScene.spawnTimer g' = GameScene.spawnTimer (GameScene.spawnPhase dt g)
  /\ GameScene.duration g' = GameScene.duration g
  /\ (0 <= dt -> Forall scoreEffectAlive (GameScene.scoreEffects g) ->
      Forall scoreEffectAlive (GameScene.scoreEffects g'))
  /\ (0 <= dt -> Forall flashAlive (GameScene.effects g) ->
      Forall flashAlive (GameScene.effects g')).
Proof.
  intros Hlive over started g'. subst g'. rewrite (update_live dt g Hlive). cbv zeta.
  destruct (spawnPhase_rest dt g) as (S1 & S2 & S3 & S4 & S5 & S6 & S7).
  destruct (spawnPhase_spec dt g) as (T1 & _ & _ & _ & _ & T2 & _).
  set (g1 := GameScene.spawnPhase dt g) in *.
  set (g2 := GameScene.set_player (Player.update dt (GameScene.player g1)) g1).
  destruct (resolveBlocks_rest dt g2)
    as (newS & newE & R1 & R2 & R3 & R4 & R5 & R6 & R7 & R8 & R9).
  destruct (resolveBlocks_spec dt g2) as (_ & _ & _ & _ & _ & Rs & Rg & Rd).
  destruct Rs as (_ & _ & Rt & _).
  set (g3 := GameScene.resolveBlocks dt g2) in *.
  subst g2. gcbn in R1 R2 R3 R4 R5 R6 R8 Rt Rg Rd.
  assert (Hlive3 : GameScene.gameOver g3 = false) by congruence.
  destruct (finishFrame_rest dt g3 Hlive3)
    as (F1 & F2 & F3 & F4 & F5 & F6 & F7 & F8 & F9).
  rewrite Rd, Rt, S7, T1 in F1, F2. fold over in F1, F2.
  rewrite R1, S2 in F2. fold started in F2.
  split; [exact F1|]. split; [exact F2|].
  split; [congruence|]. split; [congruence|]. split; [congruence|].
  split; [congruence|]. split; [congruence|].
  split.
  - intros Hdt Hall. apply F8; [exact Hdt|]. rewrite R6, S6.
    apply Forall_app. split; assumption.
  - intros Hdt Hall. apply F9; [exact Hdt|]. rewrite R8, S5.
    apply Forall_app. split; assumption.
Qed.

End FrameTail.

(** ** Runs of the game *)

Lemma sameGame_refl g : sameGame g g.
Proof. repeat split. Qed.

Lemma count_cons {A} (a : A) (l : list A) : count (a :: l) == count l + 1.
Proof.
  unfold count. cbn [List.length]. rewrite Nat2Z.inj_succ, <- Z.add_1_r.
  rewrite inject_Z_plus. reflexivity.
Qed.

Lemma count_app {A} (l l' : list A) : count (l ++ l') == count l + count l'.
Proof.
  unfold count. rewrite length_app, Nat2Z.inj_add, inject_Z_plus. reflexivity.
Qed.

Lemma count_nonneg {A} (l : list A) : 0 <= count l.
Proof.
  unfold count. change 0 with (inject_Z 0). rewrite <- Zle_Qle. lia.
Qed.

(** Every moved block adds one to the score, to the misses or to the blocks
    that stay, and a miss takes nothing from a score of 0. *)
Lemma tally_bound (p : Player.t) (c : Canvas) (moved : list Block.t) :
  Forall (fun b => typeScore (Block.type b) = None) moved ->
  forall score, 0 <= score ->
    tally p c moved score + count (filter (isMiss p c) moved)
      + count (filter (stays p c) moved)
    <= score + count moved.
Proof.
  induction 1 as [|b rest Hb Hrest IH]; intros score Hs.
  - unfold tally. cbn [fold_left filter].
    change (count (@nil Block.t)) with 0. lra.
  - assert (Hstep : tally p c (b :: rest) score
                    = tally p c rest
                        (if GameScene.hitsPlayer b p then score + GameScene.points b
                         else if GameScene.pastBottom b c
                              then Qmax 0 (score - config.scoring.miss)
                              else score)) by reflexivity.
    rewrite Hstep. clear Hstep. cbn [filter].
    assert (Hpts : GameScene.points b = 1)
      by (unfold GameScene.points; rewrite Hb; reflexivity).
    rewrite Hpts. change config.scoring.miss with 1.
    rewrite (count_cons b rest).
    destruct (GameScene.hitsPlayer b p) eqn:Eh;
      [|destruct (GameScene.pastBottom b c) eqn:Ep].
    + assert (Em : isMiss p c b = false) by (unfold isMiss; rewrite Eh; reflexivity).
      assert (Es : stays p c b = false) by (unfold stays; rewrite Eh; reflexivity).
      rewrite Em, Es.
      assert (H0 : 0 <= score + 1) by lra.
      specialize (IH _ H0). lra.
    + assert (Em : isMiss p c b = true) by (unfold isMiss; rewrite Eh, Ep; reflexivity).
      assert (Es : stays p c b = false) by (unfold stays; rewrite Eh, Ep; reflexivity).
      rewrite Em, Es, count_cons.
      assert (H0 : 0 <= Qmax 0 (score - 1)) by (qmm; lra).
      assert (H1 : Qmax 0 (score - 1) <= score) by (qmm; lra).
      specialize (IH _ H0). lra.
    + assert (Em : isMiss p c b = false) by (unfold isMiss; rewrite Eh, Ep; reflexivity).
      assert (Es : stays p c b = true) by (unfold stays; rewrite Eh, Ep; reflexivity).
      rewrite Em, Es, count_cons.
      specialize (IH score Hs). lra.
Qed.

Section Runs.
Context {rt : JSRuntime}.

Lemma render_fields (g : GameScene.t) :
  sameGame g (GameScene.render g)
  /\ GameScene.gameOver (GameScene.render g) = GameScene.gameOver g
  /\ GameScene.audioCtx (GameScene.render g) = GameScene.audioCtx g
  /\ GameScene.player (GameScene.render g) = GameScene.player g
  /\ GameScene.sceneRequest (GameScene.render g) = GameScene.sceneRequest g.
Proof. unfold GameScene.render. gcbn. repeat split. Qed.

(** A touch or a callback of the audio on the game. *)
Lemma touch_fields (g : GameScene.t) (e : GameScene.Event) :
  (forall dt, e <> GameScene.Frame dt) ->
  let g' := GameScene.step g e in
  sameGame g g'
  /\ (GameScene.gameOver g = true -> GameScene.gameOver g' = true)
  /\ (GameScene.gameOver g = true -> GameScene.audioCtx g' = GameScene.audioCtx g)
  /\ (GameScene.gameOver g = false ->
      (GameScene.gameOver g' = false
       /\ (GameScene.audioCtx g' = GameScene.audioCtx g
           \/ GameScene.audioCtx g' = audioCall AudioStop (GameScene.audioCtx g)))
      \/ (GameScene.gameOver g' = true
          /\ GameScene.audioCtx g' = audioCall AudioStop (GameScene.audioCtx g))).
Proof.
  intros Hne. destruct e as [dt|x y|x y| |]; cbn [GameScene.step].
  - now elim (Hne dt).
  - unfold GameScene.onTouchStart.
    destruct (GameScene.gameOver g) eqn:E; gcbn.
    + repeat split; intros; try reflexivity; try assumption; discriminate.
    + destruct (GameScene.inReturnButton x y g); gcbn;
        (split; [repeat split|]); (split; [discriminate|]); (split; [discriminate|]);
        intros _; left; split; auto.
  - unfold GameScene.onTouchMove.
    destruct (GameScene.gameOver g) eqn:E; gcbn.
    + repeat split; intros; try reflexivity; try assumption; discriminate.
    + (split; [repeat split|]); (split; [discriminate|]); (split; [discriminate|]).
      intros _. left. split; auto.
  - unfold GameScene.endGame.
    destruct (GameScene.gameOver g) eqn:E; gcbn.
    + repeat split; intros; try reflexivity; try assumption; discriminate.
    + (split; [repeat split|]); (split; [discriminate|]); (split; [discriminate|]).
      intros _. right. split; reflexivity.
  - unfold GameScene.endGame.
    destruct (GameScene.gameOver g) eqn:E; gcbn.
    + repeat split; intros; try reflexivity; try assumption; discriminate.
    + (split; [repeat split|]); (split; [discriminate|]); (split; [discriminate|]).
      intros _. right. split; reflexivity.
Qed.

Lemma run_snoc (es : list GameScene.Event) (e : GameScene.Event) (g : GameScene.t) :
  GameScene.run (es ++ [e]) g = GameScene.step (GameScene.run es g) e.
Proof. unfold GameScene.run. rewrite fold_left_app. reflexivity. Qed.

Lemma nonnegFrames_snoc (es : list GameScene.Event) (e : GameScene.Event) :
  nonnegFrames (es ++ [e]) ->
  nonnegFrames es /\ match e with GameScene.Frame dt => 0 <= dt | _ => True end.
Proof.
  unfold nonnegFrames. intros H. apply Forall_app in H. destruct H as [H1 H2].
  split; [exact H1|]. inversion H2; assumption.
Qed.

End Runs.

Section Conservation.
Context {rt : JSRuntime}.

Lemma count_map {A B} (f : A -> B) (l : list A) : count (map f l) = count l.
Proof. unfold count. rewrite length_map. reflexivity. Qed.

(** What [update] keeps true of the score, the misses and the blocks. *)
Lemma update_conserves (dt : Q) (g : GameScene.t) :
  scoreKept g ->
  (0 <= GameScene.misses g)%Z ->
  GameScene.score g + inject_Z (GameScene.misses g) + count (GameScene.blocks g)
    <= count (GameScene.spawned g) ->
  let g' := GameScene.update dt g in
  (0 <= GameScene.misses g')%Z
  /\ GameScene.score g' + inject_Z (GameScene.misses g') + count (GameScene.blocks g')
     <= count (GameScene.spawned g').
Proof.
  intros (Hs0 & Htypes) Hm0 Hsum g'. subst g'.
  destruct (GameScene.gameOver g) eqn:Hlive.
  { unfold GameScene.update. rewrite Hlive. split; assumption. }
  destruct (update_spec dt g Hlive) as (Hb & Hs & Hm & _ & Hsame).
  destruct Hsame as (_ & _ & _ & _ & Hsp & _).
  destruct (spawnPhase_spec dt g)
    as (_ & _ & _ & _ & _ & _ & _ & _ & k & new & _ & _ & _ & _ & Hb1 & Hs1 & Hnew & _).
  rewrite Hb1 in Hb, Hs, Hm.
  set (p := Player.update dt (GameScene.player g)) in *.
  set (c := GameScene.canvas g) in *.
  set (moved := map (Block.update dt) (GameScene.blocks g ++ new)) in *.
  assert (Hmoved : Forall (fun b => typeScore (Block.type b) = None) moved).
  { subst moved. apply Forall_map. apply Forall_app. split.
    - revert Htypes. apply Forall_impl. intros b Hb0. rewrite update_keeps_type. exact Hb0.
    - revert Hnew. apply Forall_impl. intros b Hb0. rewrite update_keeps_type. exact Hb0. }
  pose proof (tally_bound p c moved Hmoved _ Hs0) as Hbound.
  assert (Hcm : count moved == count (GameScene.blocks g) + count new).
  { subst moved. rewrite count_map. apply count_app. }
  split; [rewrite Hm; lia|].
  rewrite Hs, Hm, Hb, Hsp, Hs1, inject_Z_plus, count_app.
  fold (count (filter (isMiss p c) moved)).
  lra.
Qed.

(** X6.  The misses are never negative, and the score, the misses and the
    blocks still falling together never exceed the number of blocks spawned:
    every point of the score stands for a block of its own that was caught,
    and no block is counted twice.  This holds after any run of frames,
    touches and audio callbacks from a new game. *)
Theorem score_misses_and_blocks_bounded_by_spawned (canvas : Canvas) (song : Level)
    (es : list GameScene.Event) :
  let g := GameScene.run es (GameScene.new canvas song) in
  (0 <= GameScene.misses g)%Z
  /\ GameScene.score g + inject_Z (GameScene.misses g) + count (GameScene.blocks g)
     <= count (GameScene.spawned g).
Proof.
  intros g. subst g.
  assert (Hinv : scoreKept (GameScene.run es (GameScene.new canvas song))
                 /\ (0 <= GameScene.misses (GameScene.run es (GameScene.new canvas song)))%Z
                 /\ GameScene.score (GameScene.run es (GameScene.new canvas song))
                    + inject_Z (GameScene.misses (GameScene.run es (GameScene.new canvas song)))
                    + count (GameScene.blocks (GameScene.run es (GameScene.new canvas song)))
                    <= count (GameScene.spawned (GameScene.run es (GameScene.new canvas song)))).
  { induction es as [|e es IH] using rev_ind.
    - split; [|split].
      + split; [cbn; lra | constructor].
      + cbn. lia.
      + unfold Qle. cbn. lia.
    - rewrite run_snoc. set (g := GameScene.run es (GameScene.new canvas song)) in *.
      destruct IH as (Hk & Hm & Hsum).
      split; [apply step_scoreKept, Hk|].
      assert (Hframe : forall dt, e = GameScene.Frame dt ->
                (0 <= GameScene.misses (GameScene.step g e))%Z
                /\ GameScene.score (GameScene.step g e)
                   + inject_Z (GameScene.misses (GameScene.step g e))
                   + count (GameScene.blocks (GameScene.step g e))
                   <= count (GameScene.spawned (GameScene.step g e))).
      { intros dt ->. cbn [GameScene.step].
        destruct (render_fields (GameScene.update dt g))
          as ((R1 & R2 & R3 & R4 & _) & _).
        rewrite R1, R2, R3, R4. apply update_conserves; assumption. }
      destruct e as [dt|x y|x y| |]; try (apply (Hframe _ eq_refl));
        match goal with
        | |- context [GameScene.step g ?e] =>
            destruct (touch_fields g e ltac:(discriminate)) as ((T1 & T2 & T3 & T4 & _) & _)
        end; rewrite T1, T2, T3, T4; split; assumption. }
  destruct Hinv as (_ & Hm & Hsum). split; assumption.
Qed.

End Conservation.

(** ** Spawning without a pattern *)

Section RandomMode.
Context {rt : JSRuntime}.

Lemma update_random (dt : Q) (g : GameScene.t) :
  GameScene.usePattern g = false ->
  GameScene.spawnInterval g = 0.8 ->
  let g' := GameScene.update dt g in
  GameScene.usePattern g' = false
  /\ GameScene.spawnInterval g' = 0.8
  /\ (List.length (GameScene.spawned g') <= S (List.length (GameScene.spawned g)))%nat
  /\ (0 <= dt -> 0 <= GameScene.spawnTimer g -> 0 <= GameScene.spawnTimer g')
  /\ (GameScene.gameOver g = false -> 0.8 <= dt -> 0 <= GameScene.spawnTimer g ->
      List.length (GameScene.spawned g') = S (List.length (GameScene.spawned g))).
Proof.
  intros Hrand Hint g'. subst g'.
  destruct (GameScene.gameOver g) eqn:Hlive.
  { unfold GameScene.update. rewrite Hlive.
    split; [exact Hrand|]. split; [exact Hint|]. split; [lia|].
    split; [auto | discriminate]. }
  destruct (update_spec dt g Hlive) as (_ & _ & _ & _ & Hsame).
  destruct Hsame as (_ & _ & Ht & _ & Hsp & Hu).
  destruct (update_rest dt g Hlive) as (_ & _ & _ & _ & Hi & Htm & _).
  destruct (spawnPhase_spec dt g) as (Ht1 & _ & _ & _ & _ & _ & _ & Hu1 & _).
  pose proof (spawnPhase_random dt g Hrand) as Hr. cbv zeta in Hr.
  rewrite Hsp, Htm, Hu, Hu1, Hi. rewrite Hint in Hr.
  split; [exact Hrand|]. split; [exact Hint|].
  destruct (Qleb 0.8 (GameScene.spawnTimer g + dt)) eqn:E.
  - destruct Hr as ((b & Hb) & Htimer). rewrite Hb, Htimer.
    apply Qleb_true in E.
    split; [rewrite length_app; cbn [List.length]; lia|].
    split; [intros; lra|].
    intros _ _ _. rewrite length_app. cbn [List.length]. lia.
  - destruct Hr as (Hb & Htimer). rewrite Hb, Htimer.
    apply Qleb_false in E.
    split; [lia|]. split; [intros; lra|].
    intros _ Hdt Htm0. lra.
Qed.

(** X7.  A game without a pattern spawns at most one block per frame,
    however long the frame: there is no catching up, unlike with a pattern.
    So the blocks spawned are never more than the frames; and when every
    frame lasts 0.8 s or more, each frame of the live game spawns exactly
    one block, whatever its length.  With frame times that are not negative
    the timer is never negative. *)
Theorem random_mode_spawns_at_most_one_block_per_frame (canvas : Canvas) (song : Level)
    (dts : list Q) :
  GameScene.usePattern (GameScene.new canvas song) = false ->
  let g := GameScene.updates dts (GameScene.new canvas song) in
  (List.length (GameScene.spawned g) <= List.length dts)%nat
  /\ (Forall (fun dt => 0.8 <= dt) dts -> GameScene.gameOver g = false ->
      List.length (GameScene.spawned g) = List.length dts)
  /\ (Forall (fun dt => 0 <= dt) dts -> 0 <= GameScene.spawnTimer g).
Proof.
  intros Hrand g. subst g.
  assert (Hinv : let g := GameScene.updates dts (GameScene.new canvas song) in
                 GameScene.usePattern g = false
                 /\ GameScene.spawnInterval g = 0.8
                 /\ (List.length (GameScene.spawned g) <= List.length dts)%nat
                 /\ (Forall (fun dt => 0 <= dt) dts -> 0 <= GameScene.spawnTimer g)
                 /\ (Forall (fun dt => 0.8 <= dt) dts -> GameScene.gameOver g = false ->
                     List.length (GameScene.spawned g) = List.length dts)).
  { induction dts as [|dt dts IH] using rev_ind.
    - cbv zeta. unfold GameScene.updates. cbn [fold_left].
      split; [exact Hrand|]. split; [reflexivity|]. split; [cbn; lia|].
      split; [intros _; unfold Qle; cbn; lia | intros _ _; reflexivity].
    - cbv zeta in *. rewrite updates_snoc.
      set (g := GameScene.updates dts (GameScene.new canvas song)) in *.
      destruct IH as (Hu & Hi & Hlen & Htimer & Hall).
      destruct (update_random dt g Hu Hi) as (Hu' & Hi' & Hlen' & Htimer' & Hone).
      split; [exact Hu'|]. split; [exact Hi'|].
      split; [rewrite length_app; cbn [List.length]; lia|].
      split.
      + intros Hpos. apply Forall_app in Hpos. destruct Hpos as [Hpos Hdt].
        inversion Hdt; subst. apply Htimer'; [assumption | apply Htimer, Hpos].
      + intros Hbig Hlive. apply Forall_app in Hbig. destruct Hbig as [Hbig Hdt].
        inversion Hdt as [|? ? Hdt0 _]; subst.
        assert (Hg : GameScene.gameOver g = false).
        { destruct (GameScene.gameOver g) eqn:Hover; [|reflexivity].
          unfold GameScene.update in Hlive. rewrite Hover in Hlive. congruence. }
        assert (Hpos : Forall (fun dt => 0 <= dt) dts).
        { revert Hbig. apply Forall_impl. intros a Ha. lra. }
        rewrite (Hone Hg Hdt0 (Htimer Hpos)), (Hall Hbig Hg), length_app.
        cbn [List.length]. lia. }
  cbv zeta in Hinv. destruct Hinv as (_ & _ & Hlen & Htimer & Hall).
  split; [exact Hlen|]. split; [exact Hall | exact Htimer].
Qed.

End RandomMode.

(** ** The audio *)

Lemma plays_audioCall (c : AudioCall) (a : InnerAudioContext) :
  plays (audioCall c a)
  = (plays a + match c with AudioPlay => 1 | AudioStop => 0 end)%nat.
Proof.
  unfold plays, audioCall. cbn [audioCalls].
  rewrite filter_app, length_app. destruct c; reflexivity.
Qed.

Lemma stopped_audioCall (a : InnerAudioContext) : stopped (audioCall AudioStop a).
Proof. unfold stopped, audioCall. cbn [audioCalls]. apply last_last. Qed.

Section Audio.
Context {rt : JSRuntime}.

(** X8.  The song is started once and never again: after any run of
    frames, touches and audio callbacks from a new game, [play()] has been
    called once if a frame has run on the live game and not at all
    otherwise.  And whenever the game is over, the last call made on the
    audio is [stop()]. *)
Theorem audio_played_once_and_stopped_at_game_over (canvas : Canvas) (song : Level)
    (es : list GameScene.Event) :
  let g := GameScene.run es (GameScene.new canvas song) in
  plays (GameScene.audioCtx g) = (if GameScene.audioStarted g then 1 else 0)%nat
  /\ (plays (GameScene.audioCtx g) <= 1)%nat
  /\ (GameScene.gameOver g = true -> stopped (GameScene.audioCtx g)).
Proof.
  intros g. subst g.
  assert (Hinv : let g := GameScene.run es (GameScene.new canvas song) in
                 plays (GameScene.audioCtx g)
                 = (if GameScene.audioStarted g then 1 else 0)%nat
                 /\ (GameScene.gameOver g = true -> stopped (GameScene.audioCtx g))).
  { induction es as [|e es IH] using rev_ind.
    - cbv zeta. cbn. split; [reflexivity | discriminate].
    - cbv zeta in *. rewrite run_snoc.
      set (g := GameScene.run es (GameScene.new canvas song)) in *.
      destruct IH as (Hp & Hs).
      assert (Hframe : forall dt, e = GameScene.Frame dt ->
                plays (GameScene.audioCtx (GameScene.step g e))
                = (if GameScene.audioStarted (GameScene.step g e) then 1 else 0)%nat
                /\ (GameScene.gameOver (GameScene.step g e) = true ->
                    stopped (GameScene.audioCtx (GameScene.step g e)))).
      { intros dt ->. cbn [GameScene.step].
        destruct (render_fields (GameScene.update dt g))
          as ((_ & _ & _ & _ & _ & _ & _ & _ & _ & R1 & _) & R2 & R3 & _).
        rewrite R1, R2, R3.
        destruct (GameScene.gameOver g) eqn:Hlive.
        { unfold GameScene.update. rewrite Hlive. split; [exact Hp | intros _; auto]. }
        destruct (update_rest dt g Hlive) as (U1 & U2 & U3 & _).
        rewrite U1, U2, U3.
        assert (Hst : plays (if GameScene.audioStarted g then GameScene.audioCtx g
                             else audioCall AudioPlay (GameScene.audioCtx g)) = 1%nat).
        { destruct (GameScene.audioStarted g); [exact Hp|].
          rewrite plays_audioCall, Hp. reflexivity. }
        destruct (Qleb (GameScene.duration g) (GameScene.timeElapsed g + dt)).
        - split; [rewrite plays_audioCall, Hst; reflexivity|].
          intros _. apply stopped_audioCall.
        - split; [exact Hst | discriminate]. }
      destruct e as [dt|x y|x y| |]; try (apply (Hframe _ eq_refl));
        match goal with
        | |- context [GameScene.step g ?e] =>
            destruct (touch_fields g e ltac:(discriminate))
              as ((_ & _ & _ & _ & _ & _ & _ & _ & _ & T1 & _) & T2 & T3 & T4)
        end; rewrite T1;
        (destruct (GameScene.gameOver g) eqn:Hlive;
         [ rewrite (T3 eq_refl); split; [exact Hp | intros _; auto]
         | destruct (T4 eq_refl) as [(Tg & [Ta|Ta])|(Tg & Ta)]; rewrite Ta, ?Tg;
           [ split; [exact Hp | discriminate]
           | split; [rewrite plays_audioCall, Hp, Nat.add_0_r; reflexivity | discriminate]
           | split; [rewrite plays_audioCall, Hp, Nat.add_0_r; reflexivity
                    | intros _; apply stopped_audioCall] ] ]). }
  cbv zeta in Hinv. destruct Hinv as (Hp & Hs).
  split; [exact Hp|]. split; [|exact Hs].
  rewrite Hp. destruct (GameScene.audioStarted _); lia.
Qed.

End Audio.

(** ** The effects *)

Section Effects.
Context {rt : JSRuntime}.

(** X9.  The game keeps no effect that has run out.  After any run from a
    new game whose frame times are not negative, every score effect has some
    of its life of 0.8 s left and an opacity in (0, 1], and every flash has
    some of its life of 0.4 s left and a size of 40 px or more. *)
Theorem effects_kept_are_alive (canvas : Canvas) (song : Level)
    (es : list GameScene.Event) :
  nonnegFrames es ->
  let g := GameScene.run es (GameScene.new canvas song) in
  Forall (fun e => 0 < ScoreEffect.life e <= 0.8 /\ 0 < ScoreEffect.alpha e <= 1)
    (GameScene.scoreEffects g)
  /\ Forall (fun e => 0 < ExpandingSquareEffect.life e <= 0.4
                      /\ 40 <= ExpandingSquareEffect.size e)
       (GameScene.effects g).
Proof.
  intros Hes g. subst g.
  assert (Hinv : Forall scoreEffectAlive
                   (GameScene.scoreEffects (GameScene.run es (GameScene.new canvas song)))
                 /\ Forall flashAlive
                      (GameScene.effects (GameScene.run es (GameScene.new canvas song)))).
  { induction es as [|e es IH] using rev_ind.
    - cbn. split; constructor.
    - apply nonnegFrames_snoc in Hes. destruct Hes as (Hes & He).
      specialize (IH Hes). rewrite run_snoc.
      set (g := GameScene.run es (GameScene.new canvas song)) in *.
      destruct IH as (Hs & Hf).
      destruct e as [dt|x y|x y| |];
        try (match goal with
             | |- context [GameScene.step g ?e] =>
                 destruct (touch_fields g e ltac:(discriminate))
                   as ((_ & _ & _ & _ & T1 & T2 & _) & _)
             end; rewrite T1, T2; split; assumption).
      cbn [GameScene.step].
      destruct (render_fields (GameScene.update dt g))
        as ((_ & _ & _ & _ & R1 & R2 & _) & _).
      rewrite R1, R2.
      destruct (GameScene.gameOver g) eqn:Hlive.
      { unfold GameScene.update. rewrite Hlive. split; assumption. }
      destruct (update_rest dt g Hlive) as (_ & _ & _ & _ & _ & _ & _ & U1 & U2).
      split; [apply U1 | apply U2]; assumption. }
  destruct Hinv as (Hs & Hf). split.
  - revert Hs. apply Forall_impl. intros e ((L0 & L1) & Hm & Ha).
    rewrite Hm in L1. split; [split|]; assumption.
  - revert Hf. apply Forall_impl. intros e ((L0 & L1) & _ & Hsz).
    split; [split; assumption | exact Hsz].
Qed.

End Effects.

(** ** The end of the game *)

Section GameEnd.
Context {rt : JSRuntime}.

(** X10.  Game over is final.  Whatever frames, touches and audio
    callbacks follow, the game stays over and its score, misses, blocks,
    clock, player and audio calls stay as they are: a touch no longer steers
    the player.  Every touch on a game that is over asks for the menu. *)
Theorem game_over_is_final (g : GameScene.t) (es : list GameScene.Event) :
  GameScene.gameOver g = true ->
  let g' := GameScene.run es g in
  GameScene.gameOver g' = true
  /\ GameScene.score g' = GameScene.score g
  /\ GameScene.misses g' = GameScene.misses g
  /\ GameScene.blocks g' = GameScene.blocks g
  /\ GameScene.timeElapsed g' = GameScene.timeElapsed g
  /\ GameScene.player g' = GameScene.player g
  /\ GameScene.audioCtx g' = GameScene.audioCtx g
  /\ (forall x y,
        GameScene.sceneRequest (GameScene.step g' (GameScene.TouchStart x y))
        = Some ToMenu).
Proof.
  intros Hover g'. subst g'.
  induction es as [|e es IH] using rev_ind.
  - cbn [GameScene.run fold_left]. repeat split; try assumption.
    intros x y. cbn [GameScene.step]. unfold GameScene.onTouchStart.
    rewrite Hover. reflexivity.
  - rewrite run_snoc. set (g1 := GameScene.run es g) in *.
    destruct IH as (I1 & I2 & I3 & I4 & I5 & I6 & I7 & _).
    assert (Hstep : GameScene.gameOver (GameScene.step g1 e) = true
                    /\ sameGame g1 (GameScene.step g1 e)
                    /\ GameScene.audioCtx (GameScene.step g1 e) = GameScene.audioCtx g1).
    { destruct e as [dt|x y|x y| |];
        try (match goal with
             | |- context [GameScene.step g1 ?e] =>
                 destruct (touch_fields g1 e ltac:(discriminate)) as (T1 & T2 & T3 & _)
             end; split; [exact (T2 I1)|]; split; [exact T1 | exact (T3 I1)]).
      cbn [GameScene.step]. unfold GameScene.update. rewrite I1.
      destruct (render_fields g1) as (R1 & R2 & R3 & _).
      split; [rewrite R2; exact I1|]. split; [exact R1 | exact R3]. }
    destruct Hstep as (S1 & (S2 & S3 & S4 & _ & _ & _ & _ & _ & S5 & _) & S6).
    assert (Hp : GameScene.player (GameScene.step g1 e) = GameScene.player g1).
    { rewrite step_player. rewrite I1. destruct e; reflexivity. }
    split; [exact S1|]. split; [congruence|]. split; [congruence|].
    split; [congruence|]. split; [congruence|]. split; [congruence|].
    split; [congruence|].
    intros x y. cbn [GameScene.step]. unfold GameScene.onTouchStart.
    rewrite S1. reflexivity.
Qed.

Lemma updates_duration (dts : list Q) (g : GameScene.t) :
  GameScene.duration (GameScene.updates dts g) = GameScene.duration g.
Proof.
  induction dts as [|dt dts IH] using rev_ind; [reflexivity|].
  rewrite updates_snoc.
  destruct (GameScene.gameOver (GameScene.updates dts g)) eqn:Hlive.
  - unfold GameScene.update. rewrite Hlive. exact IH.
  - destruct (update_rest dt _ Hlive) as (_ & _ & _ & _ & _ & _ & Hd & _).
    rewrite Hd. exact IH.
Qed.

Lemma elapsed_snoc (dts : list Q) (dt : Q) : elapsed (dts ++ [dt]) = elapsed dts + dt.
Proof. unfold elapsed. rewrite fold_left_app. reflexivity. Qed.

(** X11.  With frames only, the game is over exactly when the frame times
    add up to the duration of the song or more: for frame times that are not
    negative, the game after one frame or more is over if and only if the
    duration is at most their sum; and while the game is not over its clock
    is that sum. *)
Theorem game_is_over_when_the_clock_reaches_the_duration (canvas : Canvas)
    (song : Level) (dts : list Q) :
  Forall (fun dt => 0 <= dt) dts ->
  dts <> [] ->
  let g := GameScene.updates dts (GameScene.new canvas song) in
  (GameScene.gameOver g = true <-> levelDuration song <= elapsed dts)
  /\ (GameScene.gameOver g = false -> GameScene.timeElapsed g = elapsed dts).
Proof.
  intros Hall Hne g. subst g.
  assert (Htime : forall ds,
             GameScene.gameOver (GameScene.updates ds (GameScene.new canvas song)) = false ->
             GameScene.timeElapsed (GameScene.updates ds (GameScene.new canvas song))
             = elapsed ds).
  { intros ds Hlive. apply (timeElapsed_updates ds _ Hlive). }
  split; [|apply Htime].
  revert Hall Hne.
  induction dts as [|dt dts IH] using rev_ind; intros Hall Hne; [congruence|].
  apply Forall_app in Hall. destruct Hall as [Hall Hdt]. inversion Hdt; subst.
  rewrite updates_snoc, elapsed_snoc.
  set (g := GameScene.updates dts (GameScene.new canvas song)) in *.
  destruct (GameScene.gameOver g) eqn:Hlive.
  - assert (Hne' : dts <> []).
    { intros ->. subst g. discriminate Hlive. }
    unfold GameScene.update. rewrite Hlive.
    split; [|intros _; exact Hlive]. intros _.
    destruct (IH Hall Hne') as [Hle _]. specialize (Hle eq_refl). lra.
  - destruct (update_rest dt g Hlive) as (U1 & _).
    pose proof (Htime dts Hlive) as Ht. fold g in Ht.
    pose proof (updates_duration dts (GameScene.new canvas song)) as Hd. fold g in Hd.
    rewrite U1, Ht, Hd.
    change (GameScene.duration (GameScene.new canvas song)) with (levelDuration song).
    apply Qleb_true.
Qed.

End GameEnd.

(** ** The editor: scrolling *)

(** What [computeLayout] writes. *)
Lemma computeLayout_layout (s : EditorScene.t) :
  let u := EditorScene.computeLayout s in
  let vh := canvasHeight (EditorScene.canvas s) - 200 - 80 in
  let tl := levelDuration (EditorScene.level s) * EditorScene.pxPerSecond s in
  EditorScene.viewportHeight (EditorScene.layout u) = vh
  /\ EditorScene.timelineHeightPx (EditorScene.layout u) = tl
  /\ EditorScene.viewportY (EditorScene.layout u) = 200
  /\ EditorScene.viewportX (EditorScene.layout u) = 20 + 60
  /\ EditorScene.viewportWidth (EditorScene.layout u)
     = canvasWidth (EditorScene.canvas s) - 20 * 2 - 60 - 24 - 10
  /\ EditorScene.maxScroll u = Qmax 0 (tl - vh)
  /\ EditorScene.scrollOffset u
     = Qmax (Qmin (EditorScene.scrollOffset s) (Qmax 0 (tl - vh))) 0.
Proof.
  unfold EditorScene.computeLayout, EditorScene.maxScroll, EditorScene.level.
  ecbn. cbn [EditorScene.viewportHeight EditorScene.timelineHeightPx
             EditorScene.viewportY EditorScene.viewportX EditorScene.viewportWidth].
  repeat split; reflexivity.
Qed.

(** X12.  On a canvas for the editor that is 280 px or more in height,
    where the viewport has a height that is not negative, the scroll offset
    that [computeLayout] leaves and the offsets that [scrollUp] and
    [scrollDown] then set are all between 0 and [maxScroll]; a step up never
    scrolls down and a step down never scrolls up; and a step up at offset 0
    and a step down at [maxScroll] change nothing. *)
Theorem scroll_steps_stay_in_range (s : EditorScene.t) :
  editorCanvas (EditorScene.canvas s) ->
  280 <= canvasHeight (EditorScene.canvas s) ->
  let u := EditorScene.computeLayout s in
  let m := EditorScene.maxScroll u in
  0 <= EditorScene.scrollOffset u <= m
  /\ 0 <= EditorScene.scrollOffset (EditorScene.scrollUp u) <= m
  /\ 0 <= EditorScene.scrollOffset (EditorScene.scrollDown u) <= m
  /\ EditorScene.scrollOffset (EditorScene.scrollUp u) <= EditorScene.scrollOffset u
  /\ EditorScene.scrollOffset u <= EditorScene.scrollOffset (EditorScene.scrollDown u)
  /\ (EditorScene.scrollOffset u == 0 ->
      EditorScene.scrollOffset (EditorScene.scrollUp u) == 0)
  /\ (EditorScene.scrollOffset u == m ->
      EditorScene.scrollOffset (EditorScene.scrollDown u) == m).
Proof.
  intros _ Hh u m. subst m.
  destruct (computeLayout_layout s) as (Hvh & Htl & _ & _ & _ & Hm & Hsc).
  fold u in Hvh, Htl, Hm, Hsc.
  unfold EditorScene.scrollUp, EditorScene.scrollDown, EditorScene.maxScroll in *.
  ecbn. rewrite ?Hm, Hsc, Hvh.
  set (vh := canvasHeight (EditorScene.canvas s) - 200 - 80) in *.
  assert (Hv : 0 <= vh) by (subst vh; lra).
  rewrite Htl, Hvh in *. fold vh.
  set (tl := levelDuration (EditorScene.level s) * EditorScene.pxPerSecond s) in *.
  set (sc := EditorScene.scrollOffset s) in *.
  clearbody vh tl sc. clear Hm Hsc Hvh Htl.
  split; [qmm; lra|]. split; [qmm; lra|]. split; [qmm; lra|].
  split; [qmm; lra|]. split; [qmm; lra|].
  split; intros ?; qmm; apply Qle_antisym; lra.
Qed.

(** X13.  A drag of the scroll handle never scrolls out of range: when
    the travel of the handle is not 0 (where JavaScript would divide 0 by
    0), the offset that [onTouchMove] leaves is between 0 and [maxScroll],
    wherever the pointer is. *)
Theorem scroll_handle_drag_stays_in_range (x y : Q) (s : EditorScene.t) (hb : Box) :
  EditorScene.scrollHandleDragging s = true ->
  EditorScene.scrollHandle (EditorScene.bounds s) = Some hb ->
  ~ boxH hb == canvasHeight (EditorScene.canvas s) - 280 - 48 ->
  let s' := EditorScene.onTouchMove x y s in
  0 <= EditorScene.scrollOffset s' <= EditorScene.maxScroll s'
  /\ EditorScene.maxScroll s' = EditorScene.maxScroll (EditorScene.computeLayout s).
Proof.
  intros Hdrag Hhb Hroom s'. subst s'.
  unfold EditorScene.onTouchMove. rewrite Hdrag.
  destruct (computeLayout_layout s) as (Hvh & Htl & Hvy & _ & _ & Hm & Hsc).
  destruct (computeLayout_fields s) as (_ & _ & _ & _ & Hb & _).
  set (u := EditorScene.computeLayout s) in *.
  unfold EditorScene.dragScrollHandle. rewrite Hb, Hhb.
  destruct (Qltb 0 (EditorScene.maxScroll u)) eqn:Epos.
  - apply Qltb_true in Epos. unfold EditorScene.maxScroll at 2 3. ecbn.
    fold (EditorScene.maxScroll u). split; [|reflexivity].
    rewrite Hvy, Hvh.
    set (m := EditorScene.maxScroll u) in *.
    set (minY := 200 + 24).
    set (maxY := 200 + (canvasHeight (EditorScene.canvas s) - 200 - 80) - 24 - boxH hb).
    set (hy := Qmax minY (Qmin maxY (y - EditorScene.scrollHandleOffset u))).
    assert (Hne : ~ maxY - minY == 0).
    { intros E. apply Hroom. subst maxY minY. lra. }
    destruct (Qlt_le_dec minY maxY) as [Hlt|Hge].
    + assert (Hhy : minY <= hy <= maxY) by (subst hy; qmm; lra).
      assert (H0 : 0 <= (hy - minY) / (maxY - minY)).
      { apply Qle_shift_div_l; lra. }
      assert (H1 : (hy - minY) / (maxY - minY) <= 1).
      { apply Qle_shift_div_r; lra. }
      set (r := (hy - minY) / (maxY - minY)) in *. clearbody r. nra.
    + assert (Hhy : hy == minY) by (subst hy; qmm; lra).
      assert (H0 : (hy - minY) / (maxY - minY) == 0).
      { rewrite Hhy. unfold Qdiv. setoid_replace (minY - minY) with 0 by ring. ring. }
      rewrite H0. lra.
  - apply Qltb_false in Epos. split; [|reflexivity].
    rewrite Hsc, Hm. qmm. lra.
Qed.

(** ** The editor: songs and saved patterns *)

Lemma insertByTime_perm (n : NoteEvent) (l : list NoteEvent) :
  Permutation (n :: l) (insertByTime n l).
Proof.
  induction l as [|m l IH]; cbn [insertByTime]; [apply Permutation_refl|].
  destruct (Qleb (time n) (time m)); [apply Permutation_refl|].
  eapply perm_trans; [apply perm_swap|]. apply perm_skip, IH.
Qed.

Lemma sortByTime_perm (l : list NoteEvent) : Permutation l (sortByTime l).
Proof.
  induction l as [|a l IH]; [apply perm_nil|].
  unfold sortByTime in *. cbn [fold_right].
  eapply perm_trans; [apply perm_skip, IH | apply insertByTime_perm].
Qed.


Lemma getStorageSync_set (key : string) (v : list NoteEvent) (h : EditorScene.Host) :
  EditorScene.getStorageSync key (EditorScene.setStorageSync key v h) = Some v.
Proof.
  unfold EditorScene.getStorageSync, EditorScene.setStorageSync.
  cbn [EditorScene.storage find fst snd]. rewrite String.eqb_refl. reflexivity.
Qed.

(** What [updateLevelData] reads and writes. *)
Lemma updateLevelData_fields (s : EditorScene.t) :
  let s' := EditorScene.updateLevelData s in
  let lv := EditorScene.level s in
  EditorScene.spawns s'
  = sortByTime
      match EditorScene.getStorageSync ("spawns_" ++ title lv) (EditorScene.host s) with
      | Some saved => saved
      | None => match levelSpawns lv with Some l => l | None => [] end
      end
  /\ EditorScene.levels s' = EditorScene.levels s
  /\ EditorScene.currentLevelIndex s' = EditorScene.currentLevelIndex s
  /\ EditorScene.host s' = EditorScene.host s
  /\ EditorScene.scrollOffset s' = 0
  /\ EditorScene.outputText s' = None
  /\ dragFlags s' = dragFlags s
  /\ EditorScene.dragNoteIndex s' = EditorScene.dragNoteIndex s
  /\ EditorScene.selectedBlockType s' = EditorScene.selectedBlockType s
  /\ EditorScene.bounds s' = EditorScene.bounds s.
Proof.
  unfold EditorScene.updateLevelData, dragFlags. cbv zeta. ecbn.
  repeat split; reflexivity.
Qed.

Lemma level_set_index (i : nat) (s : EditorScene.t) :
  EditorScene.level (EditorScene.set_currentLevelIndex i s)
  = nth i (EditorScene.levels s) song1.
Proof. reflexivity. Qed.

Lemma index_round_trip (i n : nat) :
  (i < n)%nat ->
  (((i + 1) mod n + n - 1) mod n = i /\ ((i + n - 1) mod n + 1) mod n = i)%nat
  /\ ((i + 1) mod n < n /\ (i + n - 1) mod n < n)%nat.
Proof.
  intros Hi.
  assert (Hn : n <> 0%nat) by lia.
  split; [|split; apply Nat.mod_upper_bound; exact Hn].
  split.
  - destruct (Nat.eq_dec (i + 1) n) as [E|E].
    + rewrite E, Nat.Div0.mod_same. cbn [Nat.add].
      rewrite Nat.mod_small; lia.
    + rewrite (Nat.mod_small (i + 1) n) by lia.
      replace (i + 1 + n - 1)%nat with (i + 1 * n)%nat by lia.
      rewrite Nat.Div0.mod_add. apply Nat.mod_small. exact Hi.
  - destruct i as [|i].
    + cbn [Nat.add]. rewrite (Nat.mod_small (n - 1) n) by lia.
      replace (n - 1 + 1)%nat with n by lia. apply Nat.Div0.mod_same.
    + replace (S i + n - 1)%nat with (i + 1 * n)%nat by lia.
      rewrite Nat.Div0.mod_add, (Nat.mod_small i n) by lia.
      replace (i + 1)%nat with (S i) by lia. apply Nat.mod_small. exact Hi.
Qed.

(** What the two song arrows write. *)
Lemma nextSong_fields (s : EditorScene.t) :
  let n := List.length (EditorScene.levels s) in
  EditorScene.currentLevelIndex (EditorScene.nextSong s)
  = ((EditorScene.currentLevelIndex s + 1) mod n)%nat
  /\ EditorScene.levels (EditorScene.nextSong s) = EditorScene.levels s
  /\ EditorScene.host (EditorScene.nextSong s) = EditorScene.host s.
Proof.
  unfold EditorScene.nextSong. cbv zeta.
  match goal with
  | |- context [EditorScene.updateLevelData ?s1] =>
      destruct (updateLevelData_fields s1) as (_ & U1 & U2 & U3 & _)
  end.
  rewrite U1, U2, U3. repeat split.
Qed.

Lemma prevSong_fields (s : EditorScene.t) :
  let n := List.length (EditorScene.levels s) in
  EditorScene.currentLevelIndex (EditorScene.prevSong s)
  = ((EditorScene.currentLevelIndex s + n - 1) mod n)%nat
  /\ EditorScene.levels (EditorScene.prevSong s) = EditorScene.levels s
  /\ EditorScene.host (EditorScene.prevSong s) = EditorScene.host s.
Proof.
  unfold EditorScene.prevSong. cbv zeta.
  match goal with
  | |- context [EditorScene.updateLevelData ?s1] =>
      destruct (updateLevelData_fields s1) as (_ & U1 & U2 & U3 & _)
  end.
  rewrite U1, U2, U3. repeat split.
Qed.

(** Next then previous loads the song that was current. *)
Lemma prevSong_nextSong_spawns (s : EditorScene.t) :
  (EditorScene.currentLevelIndex s < List.length (EditorScene.levels s))%nat ->
  EditorScene.spawns (EditorScene.prevSong (EditorScene.nextSong s))
  = EditorScene.spawns (EditorScene.updateLevelData s).
Proof.
  intros Hi.
  destruct (index_round_trip _ _ Hi) as ((Hnp & _) & _).
  destruct (nextSong_fields s) as (N1 & N2 & N3). cbv zeta in N1.
  unfold EditorScene.prevSong. cbv zeta.
  match goal with
  | |- context [EditorScene.updateLevelData ?s1] =>
      destruct (updateLevelData_fields s1) as (U0 & _); rewrite U0; clear U0
  end.
  destruct (updateLevelData_fields s) as (V0 & _). rewrite V0.
  rewrite level_set_index. ecbn. rewrite N1, N2, N3, Hnp. reflexivity.
Qed.

(** X14.  The two song arrows undo each other: with the index of the
    current song inside the list, next then previous, and previous then
    next, come back to the same song, and the index stays inside the list.
    Coming back loads what [updateLevelData] loads for that song at that
    moment, the pattern stored for it or else the [spawns] of the level as
    they then are, sorted by time, and puts the scroll offset at 0. *)
Theorem next_and_previous_song_undo_each_other (s : EditorScene.t) :
  (EditorScene.currentLevelIndex s < List.length (EditorScene.levels s))%nat ->
  let back := EditorScene.prevSong (EditorScene.nextSong s) in
  EditorScene.currentLevelIndex back = EditorScene.currentLevelIndex s
  /\ EditorScene.currentLevelIndex (EditorScene.nextSong (EditorScene.prevSong s))
     = EditorScene.currentLevelIndex s
  /\ (EditorScene.currentLevelIndex (EditorScene.nextSong s)
      < List.length (EditorScene.levels s))%nat
  /\ (EditorScene.currentLevelIndex (EditorScene.prevSong s)
      < List.length (EditorScene.levels s))%nat
  /\ EditorScene.spawns back = EditorScene.spawns (EditorScene.updateLevelData s)
  /\ sortedByTime (EditorScene.spawns back)
  /\ EditorScene.scrollOffset back = 0.
Proof.
  intros Hi back. subst back.
  destruct (index_round_trip _ _ Hi) as ((Hnp & Hpn) & Hn & Hp).
  destruct (nextSong_fields s) as (N1 & N2 & _).
  destruct (prevSong_fields s) as (P1 & P2 & _).
  destruct (prevSong_fields (EditorScene.nextSong s)) as (Q1 & _).
  destruct (nextSong_fields (EditorScene.prevSong s)) as (R1 & _).
  cbv zeta in *.
  split; [rewrite Q1, N1, N2; exact Hnp|].
  split; [rewrite R1, P1, P2; exact Hpn|].
  split; [rewrite N1; exact Hn|]. split; [rewrite P1; exact Hp|].
  rewrite (prevSong_nextSong_spawns s Hi).
  destruct (updateLevelData_fields s) as (V0 & _).
  split; [reflexivity|]. split; [rewrite V0; apply sortByTime_sorted|].
  unfold EditorScene.prevSong. cbv zeta.
  match goal with
  | |- context [EditorScene.updateLevelData ?s1] =>
      destruct (updateLevelData_fields s1) as (_ & _ & _ & _ & U4 & _); exact U4
  end.
Qed.

(** What [saveSpawns] writes. *)
Lemma saveSpawns_fields (s : EditorScene.t) :
  let s1 := EditorScene.saveSpawns s in
  let saved := sortByTime (EditorScene.spawns s) in
  let lv := EditorScene.level s in
  let i := EditorScene.currentLevelIndex s in
  EditorScene.spawns s1 = saved
  /\ EditorScene.currentLevelIndex s1 = i
  /\ EditorScene.levels s1
     = firstn i (EditorScene.levels s)
       ++ {| title := title lv; file := file lv; levelDuration := levelDuration lv;
             levelSpawns := Some saved |} :: skipn (S i) (EditorScene.levels s)
  /\ EditorScene.getStorageSync ("spawns_" ++ title lv) (EditorScene.host s1) = Some saved
  /\ EditorScene.clipboard (EditorScene.host s1) = Some saved
  /\ option_map EditorScene.spawnsJson (EditorScene.outputText s1) = Some saved
  /\ EditorScene.selectedBlockType s1 = EditorScene.selectedBlockType s
  /\ EditorScene.bounds s1 = EditorScene.bounds s.
Proof.
  unfold EditorScene.saveSpawns. cbv zeta.
  destruct (EditorScene.fsAvailable (EditorScene.host (EditorScene.set_spawns _ s))).
  - unfold EditorScene.setLevelSpawns, EditorScene.level. ecbn.
    cbn [EditorScene.storage EditorScene.clipboard option_map EditorScene.spawnsJson].
    split; [reflexivity|]. split; [reflexivity|]. split; [reflexivity|].
    split; [|repeat split].
    unfold EditorScene.getStorageSync, EditorScene.setStorageSync.
    cbn [EditorScene.storage find fst snd]. rewrite String.eqb_refl. reflexivity.
  - unfold EditorScene.setLevelSpawns, EditorScene.level. ecbn.
    cbn [EditorScene.storage EditorScene.clipboard option_map EditorScene.spawnsJson].
    split; [reflexivity|]. split; [reflexivity|]. split; [reflexivity|].
    split; [|repeat split].
    unfold EditorScene.getStorageSync, EditorScene.setStorageSync.
    cbn [EditorScene.storage find fst snd]. rewrite String.eqb_refl. reflexivity.
Qed.


(** ** The editor: notes *)

Lemma laneOf_range (x : Q) (s : EditorScene.t) :
  (0 <= EditorScene.laneOf x s < config.numLanes)%Z.
Proof.
  unfold EditorScene.laneOf. cbv zeta.
  set (l := Qfloor _). change config.numLanes with 6%Z.
  destruct (l <? 0)%Z eqn:E0.
  - cbn. lia.
  - apply Z.ltb_ge in E0. destruct (l >=? 6)%Z eqn:E6; [lia|].
    rewrite Z.geb_leb in E6. apply Z.leb_gt in E6. lia.
Qed.

(** [toFixed(2)] keeps the order of times that are not negative. *)
Lemma toFixed2_bounds (t d : Q) : 0 <= t <= d -> 0 <= toFixed2 t <= toFixed2 d.
Proof.
  intros [Ht Hd]. unfold toFixed2.
  replace (Qltb t 0) with false by (symmetry; now apply Qltb_false).
  replace (Qltb d 0) with false by (symmetry; apply Qltb_false; lra).
  assert (H0 : (0 <= Qfloor (t * 100 + 0.5))%Z).
  { change 0%Z with (Qfloor 0). apply Qfloor_resp_le. lra. }
  assert (H1 : (Qfloor (t * 100 + 0.5) <= Qfloor (d * 100 + 0.5))%Z).
  { apply Qfloor_resp_le. lra. }
  rewrite Zle_Qle in H0, H1. change (inject_Z 0) with 0 in H0.
  set (a := inject_Z (Qfloor (t * 100 + 0.5))) in *.
  set (b := inject_Z (Qfloor (d * 100 + 0.5))) in *.
  assert (Ea : a / 100 == a * (1 # 100)) by field.
  assert (Eb : b / 100 == b * (1 # 100)) by field.
  rewrite Ea, Eb. split; lra.
Qed.

Lemma nth_error_replace {A} (l : list A) :
  forall (i : nat) (a a' : A),
    nth_error l i = Some a ->
    let l' := firstn i l ++ a' :: skipn (S i) l in
    nth_error l' i = Some a'
    /\ List.length l' = List.length l
    /\ (forall j, j <> i -> nth_error l' j = nth_error l j).
Proof.
  induction l as [|b l IH]; intros [|i] a a' H; try discriminate.
  - cbn. split; [reflexivity|]. split; [reflexivity|].
    intros [|j] Hj; [congruence | reflexivity].
  - cbn in H. destruct (IH i a a' H) as (H1 & H2 & H3).
    cbn [firstn skipn app nth_error List.length].
    split; [exact H1|]. split; [cbn in H2; rewrite H2; reflexivity|].
    intros [|j] Hj; [reflexivity|]. cbn [nth_error]. apply H3. congruence.
Qed.

(** X16.  A move of the pointer in a note drag rewrites the one note at
    the drag index and no other: the note keeps its type, its lane is one of
    the six, its time is from 0 to the duration of the song, rounded to a
    hundredth, and the pattern keeps its length.  ([pxPerSecond] and the
    width of the track are not 0: there JavaScript would divide by 0.) *)
Theorem drag_rewrites_one_note_and_keeps_its_type (x y : Q) (s : EditorScene.t)
    (i : nat) (note : NoteEvent) :
  EditorScene.dragNoteIndex s = Some i ->
  nth_error (EditorScene.spawns s) i = Some note ->
  0 <= levelDuration (EditorScene.level s) ->
  ~ EditorScene.pxPerSecond s == 0 ->
  ~ EditorScene.viewportWidth (EditorScene.layout s) == 0 ->
  let s' := EditorScene.dragNote x y s in
  exists note',
    nth_error (EditorScene.spawns s') i = Some note'
    /\ type note' = type note
    /\ (0 <= lane note' < config.numLanes)%Z
    /\ 0 <= time note' <= toFixed2 (levelDuration (EditorScene.level s))
    /\ List.length (EditorScene.spawns s') = List.length (EditorScene.spawns s)
    /\ (forall j, j <> i ->
          nth_error (EditorScene.spawns s') j = nth_error (EditorScene.spawns s) j).
Proof.
  intros Hidx Hnote Hdur _ _ s'. subst s'.
  unfold EditorScene.dragNote. rewrite Hidx, Hnote. cbv zeta. ecbn.
  match goal with
  | |- context [firstn i _ ++ ?n' :: _] =>
      destruct (nth_error_replace (EditorScene.spawns s) i note n' Hnote) as (H1 & H2 & H3);
      exists n'
  end.
  split; [exact H1|]. split; [reflexivity|].
  split; [apply laneOf_range|]. split; [|split; [exact H2 | exact H3]].
  cbn [time]. apply toFixed2_bounds. qmm. lra.
Qed.

Lemma removeFirst_some {A} (f : A -> bool) (l l' : list A) :
  removeFirst f l = Some l' ->
  exists before n after,
    l = before ++ n :: after /\ l' = before ++ after
    /\ f n = true /\ Forall (fun a => f a = false) before.
Proof.
  revert l'. induction l as [|a l IH]; intros l' H; [discriminate|].
  cbn [removeFirst] in H. destruct (f a) eqn:Ea.
  - injection H as <-. exists [], a, l. repeat split; [exact Ea | constructor].
  - destruct (removeFirst f l) as [rest|]; [|discriminate].
    injection H as <-.
    destruct (IH rest eq_refl) as (before & n & after & -> & -> & Hn & Hb).
    exists (a :: before), n, after. repeat split; [exact Hn|].
    constructor; assumption.
Qed.


(** ** The editor: what every event keeps *)

Lemma findIndex_lt {A} (f : A -> bool) (l : list A) (i : nat) :
  findIndex f l = Some i -> (i < List.length l)%nat.
Proof.
  revert i. induction l as [|a l IH]; intros i H; [discriminate|].
  cbn [findIndex] in H. destruct (f a).
  - injection H as <-. cbn. lia.
  - destruct (findIndex f l) as [j|]; [|discriminate].
    injection H as <-. specialize (IH j eq_refl). cbn. lia.
Qed.

(** The branches of [onTouchStart]. *)
Lemma onTouchStart_outcome (x y : Q) (s : EditorScene.t) :
  pointerDownOutcome x y (EditorScene.computeLayout s) (EditorScene.onTouchStart x y s).
Proof.
  unfold EditorScene.onTouchStart. cbv zeta.
  set (u := EditorScene.computeLayout s).
  destruct (EditorScene._hitBox (EditorScene.scrollHandle (EditorScene.bounds u)) x y);
    [apply GrabsHandle|].
  destruct (EditorScene.hitIndex (EditorScene.noteBoxes (EditorScene.bounds u)) x y);
    [apply GrabsNote|].
  destruct (EditorScene._hitBox (EditorScene.songPrev (EditorScene.bounds u)) x y);
    [apply GoesToPrevSong|].
  destruct (EditorScene._hitBox (EditorScene.songNext (EditorScene.bounds u)) x y);
    [apply GoesToNextSong|].
  destruct (EditorScene.hitIndex (EditorScene.blockBoxes (EditorScene.bounds u)) x y)
    as [i|] eqn:Ei.
  { unfold EditorScene.hitIndex in Ei.
    destruct (EditorScene.blockBoxes (EditorScene.bounds u)) as [boxes|] eqn:Eb;
      [|discriminate].
    apply (SelectsType x y u i boxes Eb). eapply findIndex_lt, Ei. }
  destruct (EditorScene._hitBox (EditorScene.delete (EditorScene.bounds u)) x y);
    [apply TogglesDelete|].
  destruct (EditorScene._hitBox (EditorScene.scrollUpBox (EditorScene.bounds u)) x y);
    [apply ScrollsUp|].
  destruct (EditorScene._hitBox (EditorScene.scrollDownBox (EditorScene.bounds u)) x y);
    [apply ScrollsDown|].
  destruct (EditorScene._hitBox (EditorScene.save (EditorScene.bounds u)) x y);
    [apply Saves|].
  destruct (EditorScene._hitBox (EditorScene.test (EditorScene.bounds u)) x y);
    [apply RunsTest|].
  destruct (EditorScene._hitBox (EditorScene.back (EditorScene.bounds u)) x y);
    [apply GoesBack|].
  destruct (EditorScene._hitBox (EditorScene.track (EditorScene.bounds u)) x y);
    [apply TapsTrack | apply HitsNothing].
Qed.

Lemma sorted_remove_middle (before : list NoteEvent) (n : NoteEvent) (after : list NoteEvent) :
  sortedByTime (before ++ n :: after) -> sortedByTime (before ++ after).
Proof.
  unfold sortedByTime. induction before as [|b before IH]; cbn [app]; intros H.
  - inversion H; assumption.
  - inversion H as [|? ? Hs Hall]; subst. constructor; [apply IH, Hs|].
    apply Forall_app in Hall. destruct Hall as [H1 H2].
    apply Forall_app. split; [exact H1|]. inversion H2; assumption.
Qed.

(** The pattern after a tap on the track. *)
Lemma tapTrack_spawns (x y : Q) (s : EditorScene.t) :
  let s' := EditorScene.tapTrack x y s in
  let tapTime := EditorScene.timeOfLocalY (EditorScene.localYOf y s) s in
  let note := {| time := toFixed2 tapTime; type := EditorScene.selectedBlockType s;
                 lane := EditorScene.laneOf x s |} in
  EditorScene.spawns s' = EditorScene.spawns s
  \/ (exists before n after,
        EditorScene.spawns s = before ++ n :: after
        /\ EditorScene.spawns s' = before ++ after)
  \/ (0 <= tapTime <= levelDuration (EditorScene.level s)
      /\ EditorScene.spawns s' = sortByTime (EditorScene.spawns s ++ [note])).
Proof.
  unfold EditorScene.tapTrack. cbv zeta.
  destruct (Qltb _ 0 || Qltb _ _) eqn:Eout; [left; reflexivity|].
  apply orb_false_iff in Eout. destruct Eout as [E0 E1]. qprop.
  destruct (removeFirst _ (EditorScene.spawns s)) as [rest|] eqn:Erem.
  - destruct (removeFirst_some _ _ _ Erem) as (before & n & after & Hs & -> & _).
    right. left. exists before, n, after. split; [exact Hs | reflexivity].
  - destruct (EditorScene.deleteMode s); [left; reflexivity|].
    right. right. split; [split; assumption | reflexivity].
Qed.

(** The rest of the editor's data after a tap on the track. *)
Lemma tapTrack_rest (x y : Q) (s : EditorScene.t) :
  let s' := EditorScene.tapTrack x y s in
  EditorScene.levels s' = EditorScene.levels s
  /\ EditorScene.host s' = EditorScene.host s
  /\ EditorScene.selectedBlockType s' = EditorScene.selectedBlockType s
  /\ EditorScene.bounds s' = EditorScene.bounds s
  /\ EditorScene.dragging s' = EditorScene.dragging s.
Proof.
  unfold EditorScene.tapTrack. cbv zeta.
  destruct (Qltb _ 0 || Qltb _ _); [repeat split|].
  destruct (removeFirst _ (EditorScene.spawns s)); [repeat split|].
  destruct (EditorScene.deleteMode s); repeat split.
Qed.

(** What keeps the pattern sorted while no note is dragged. *)
Lemma outcome_sorted (x y : Q) (u s' : EditorScene.t) :
  pointerDownOutcome x y u s' ->
  (EditorScene.dragging u = false -> sortedByTime (EditorScene.spawns u)) ->
  EditorScene.dragging s' = false -> sortedByTime (EditorScene.spawns s').
Proof.
  intros Hout Hu.
  destruct Hout as [o|i| | |i boxes Hb Hi| | | | | | | |]; ecbn; try exact Hu.
  - discriminate.
  - intros _. unfold EditorScene.prevSong. cbv zeta.
    match goal with
    | |- context [EditorScene.updateLevelData ?s1] =>
        destruct (updateLevelData_fields s1) as (U0 & _); rewrite U0
    end.
    apply sortByTime_sorted.
  - intros _. unfold EditorScene.nextSong. cbv zeta.
    match goal with
    | |- context [EditorScene.updateLevelData ?s1] =>
        destruct (updateLevelData_fields s1) as (U0 & _); rewrite U0
    end.
    apply sortByTime_sorted.
  - intros _. destruct (saveSpawns_fields u) as (F1 & _). rewrite F1.
    apply sortByTime_sorted.
  - destruct (tapTrack_rest x y u) as (_ & _ & _ & _ & Hd). rewrite Hd. intros Hdrag.
    specialize (Hu Hdrag).
    destruct (tapTrack_spawns x y u) as [E|[(before & n & after & E1 & E2)|(_ & E)]].
    + rewrite E. exact Hu.
    + rewrite E2. rewrite E1 in Hu. eapply sorted_remove_middle, Hu.
    + rewrite E. apply sortByTime_sorted.
Qed.

Lemma new_sorted (canvas : Canvas) (host : EditorScene.Host) :
  sortedByTime (EditorScene.spawns (EditorScene.new canvas host)).
Proof.
  unfold EditorScene.new.
  match goal with
  | |- context [EditorScene.updateLevelData ?s1] =>
      destruct (updateLevelData_fields s1) as (U0 & _); rewrite U0
  end.
  apply sortByTime_sorted.
Qed.

Lemma step_sorted (s : EditorScene.t) (e : EditorScene.Event) :
  (EditorScene.dragging s = false -> sortedByTime (EditorScene.spawns s)) ->
  EditorScene.dragging (EditorScene.step s e) = false ->
  sortedByTime (EditorScene.spawns (EditorScene.step s e)).
Proof.
  intros IH.
  destruct (computeLayout_fields s) as (Hsp & _ & Hdr & _).
  destruct e as [x y|x y| |]; cbn [EditorScene.step].
  - apply (outcome_sorted x y _ _ (onTouchStart_outcome x y s)).
    rewrite Hsp, Hdr. exact IH.
  - unfold EditorScene.onTouchMove.
    destruct (EditorScene.scrollHandleDragging s).
    + destruct (dragScrollHandle_fields y (EditorScene.computeLayout s)) as (D1 & _ & D3).
      rewrite D1, D3, Hsp, Hdr. exact IH.
    + destruct (EditorScene.dragging s) eqn:Ed; cbn [negb];
        [|intros _; apply IH; reflexivity].
      unfold EditorScene.dragNote.
      destruct (EditorScene.dragNoteIndex _) as [i|]; [|rewrite Hsp, Hdr; exact IH].
      destruct (nth_error _ i); [|rewrite Hsp, Hdr; exact IH].
      cbv zeta. ecbn. rewrite Hdr. discriminate.
  - unfold EditorScene.onTouchEnd.
    destruct (EditorScene.scrollHandleDragging s); [ecbn; exact IH|].
    destruct (EditorScene.dragging s) eqn:Ed; [|intros _; apply IH; reflexivity].
    ecbn. intros _. apply sortByTime_sorted.
  - unfold EditorScene.render. cbv zeta. ecbn. rewrite Hsp, Hdr. exact IH.
Qed.

(** A property of the editor that every event keeps holds after a run. *)
Lemma run_keeps (P : EditorScene.t -> Prop) :
  (forall s e, P s -> P (EditorScene.step s e)) ->
  forall es s, P s -> P (EditorScene.run es s).
Proof.
  intros Hstep es. unfold EditorScene.run.
  induction es as [|e es IH]; intros s Hs; [exact Hs|].
  cbn [fold_left]. apply IH, Hstep, Hs.
Qed.

(** X18.  While no note is being dragged the pattern of the editor is
    sorted by time: on a canvas for the editor this holds after any sequence
    of pointer events and frames on a new editor, whatever the host has
    stored, also when the gestures overlap. *)
Theorem pattern_is_sorted_unless_a_note_is_dragged (canvas : Canvas)
    (host : EditorScene.Host) (es : list EditorScene.Event) :
  editorCanvas canvas ->
  let s := EditorScene.run es (EditorScene.new canvas host) in
  EditorScene.dragging s = false -> sortedByTime (EditorScene.spawns s).
Proof.
  intros _ s. subst s.
  apply (run_keeps
           (fun s => EditorScene.dragging s = false -> sortedByTime (EditorScene.spawns s))).
  - intros s e. apply step_sorted.
  - intros _. apply new_sorted.
Qed.

Lemma validNoteb_true (n : NoteEvent) : validNoteb n = true -> validNote n.
Proof.
  unfold validNoteb, validNote. rewrite !andb_true_iff.
  intros (((((H1 & H2) & H3) & H4) & H5) & H6). qprop.
  apply Z.leb_le in H3, H5. apply Z.ltb_lt in H4, H6.
  repeat split; assumption.
Qed.

Lemma shipped_levels_valid : validLevel song1 /\ validLevel song2.
Proof.
  split; (split; [reflexivity|]); intros l Hl; injection Hl as <-;
    apply Forall_forall; intros n Hn; apply validNoteb_true; revert n Hn;
    apply forallb_forall; vm_compute; reflexivity.
Qed.

Lemma Forall_sortByTime (P : NoteEvent -> Prop) (l : list NoteEvent) :
  Forall P l -> Forall P (sortByTime l).
Proof. apply Permutation_Forall, sortByTime_perm. Qed.

Lemma Forall_replace {A} (P : A -> Prop) (l : list A) (i : nat) (a : A) :
  Forall P l -> P a -> Forall P (firstn i l ++ a :: skipn (S i) l).
Proof.
  intros Hl Ha. rewrite <- (firstn_skipn i l) in Hl.
  apply Forall_app in Hl. destruct Hl as [H1 H2].
  apply Forall_app. split; [exact H1|]. constructor; [exact Ha|].
  destruct (skipn i l) as [|b rest] eqn:E.
  - assert (Hs : skipn (S i) l = []).
    { apply skipn_all2. apply (f_equal (@List.length A)) in E.
      rewrite length_skipn in E. cbn in E. lia. }
    rewrite Hs. constructor.
  - assert (Hs : skipn (S i) l = rest).
    { change (S i) with (1 + i)%nat. rewrite <- skipn_skipn, E. reflexivity. }
    rewrite Hs. inversion H2; assumption.
Qed.

Lemma validLevel_nth (l : list Level) (i : nat) :
  Forall validLevel l -> validLevel (nth i l song1).
Proof.
  intros Hl. destruct (Nat.lt_ge_cases i (List.length l)) as [Hi|Hi].
  - eapply Forall_forall; [exact Hl | apply nth_In, Hi].
  - rewrite nth_overflow by exact Hi. exact (proj1 shipped_levels_valid).
Qed.

Lemma getStorageSync_valid (key : string) (h : EditorScene.Host) (l : list NoteEvent) :
  validHost h -> EditorScene.getStorageSync key h = Some l -> Forall validNote l.
Proof.
  unfold validHost, EditorScene.getStorageSync. intros Hh Hget.
  destruct (find _ (EditorScene.storage h)) as [kv|] eqn:E; [|discriminate].
  injection Hget as <-. apply find_some in E. destruct E as [Hin _].
  eapply Forall_forall in Hh; [exact Hh | exact Hin].
Qed.

(** The pattern that [updateLevelData] loads is made of valid notes. *)
Lemma updateLevelData_valid (s : EditorScene.t) :
  Forall validLevel (EditorScene.levels s) -> validHost (EditorScene.host s) ->
  Forall validNote (EditorScene.spawns (EditorScene.updateLevelData s)).
Proof.
  intros Hl Hh. destruct (updateLevelData_fields s) as (U0 & _). rewrite U0.
  apply Forall_sortByTime.
  destruct (EditorScene.getStorageSync _ _) as [saved|] eqn:E.
  - eapply getStorageSync_valid; eassumption.
  - pose proof (validLevel_nth _ (EditorScene.currentLevelIndex s) Hl) as (_ & Hv).
    fold (EditorScene.level s) in Hv.
    destruct (levelSpawns (EditorScene.level s)) as [l|]; [apply Hv; reflexivity | constructor].
Qed.

Lemma saveSpawns_storage (s : EditorScene.t) :
  EditorScene.storage (EditorScene.host (EditorScene.saveSpawns s))
  = (("spawns_" ++ title (EditorScene.level s))%string, sortByTime (EditorScene.spawns s))
    :: filter (fun kv => negb (String.eqb (fst kv)
                                 ("spawns_" ++ title (EditorScene.level s))%string))
         (EditorScene.storage (EditorScene.host s)).
Proof.
  unfold EditorScene.saveSpawns. cbv zeta.
  destruct (EditorScene.fsAvailable (EditorScene.host (EditorScene.set_spawns _ s)));
    unfold EditorScene.setLevelSpawns, EditorScene.setStorageSync, EditorScene.level;
    ecbn; cbn [EditorScene.storage]; reflexivity.
Qed.

Lemma toFixed2_valid (t : Q) : 0 <= t <= 120 -> 0 <= toFixed2 t <= 120.
Proof.
  intros Ht. pose proof (toFixed2_bounds t 120 Ht) as [H0 H1].
  assert (H120 : toFixed2 120 <= 120) by (vm_compute; discriminate).
  split; [exact H0 | lra].
Qed.

Lemma outcome_valid (x y : Q) (u s' : EditorScene.t) :
  pointerDownOutcome x y u s' -> editorValid u -> editorValid s'.
Proof.
  intros Hout (Hsp & Hlv & Hh & Hsel & Hbx).
  destruct Hout as [o|i| | |i boxes Hb Hi| | | | | | | |];
    try (unfold editorValid, EditorScene.scrollUp, EditorScene.scrollDown,
           EditorScene.playTest, EditorScene.goBack; ecbn;
         repeat split; solve [assumption | apply Hsel]).
  - (* previous song *)
    destruct (prevSong_fields u) as (_ & P2 & P3).
    unfold editorValid. rewrite P2, P3.
    split; [|split; [exact Hlv|split; [exact Hh|]]].
    + unfold EditorScene.prevSong. cbv zeta. apply updateLevelData_valid; ecbn; assumption.
    + unfold EditorScene.prevSong. cbv zeta.
      match goal with
      | |- context [EditorScene.updateLevelData ?s1] =>
          destruct (updateLevelData_fields s1) as (_ & _ & _ & _ & _ & _ & _ & _ & U1 & U2)
      end.
      rewrite U1, U2. ecbn. split; assumption.
  - (* next song *)
    destruct (nextSong_fields u) as (_ & P2 & P3).
    unfold editorValid. rewrite P2, P3.
    split; [|split; [exact Hlv|split; [exact Hh|]]].
    + unfold EditorScene.nextSong. cbv zeta. apply updateLevelData_valid; ecbn; assumption.
    + unfold EditorScene.nextSong. cbv zeta.
      match goal with
      | |- context [EditorScene.updateLevelData ?s1] =>
          destruct (updateLevelData_fields s1) as (_ & _ & _ & _ & _ & _ & _ & _ & U1 & U2)
      end.
      rewrite U1, U2. ecbn. split; assumption.
  - (* a block type is selected *)
    unfold editorValid. ecbn. repeat split; try assumption; try apply Hsel.
    + lia.
    + specialize (Hbx boxes Hb). unfold typeCount. lia.
  - (* save *)
    destruct (saveSpawns_fields u) as (F1 & _ & F3 & _ & _ & _ & F7 & F8).
    pose proof (validLevel_nth _ (EditorScene.currentLevelIndex u) Hlv) as (Hd & _).
    fold (EditorScene.level u) in Hd.
    assert (Hsaved : Forall validNote (sortByTime (EditorScene.spawns u)))
      by (apply Forall_sortByTime, Hsp).
    unfold editorValid. rewrite F1, F3, F7, F8.
    split; [exact Hsaved|]. split; [|split; [|split; assumption]].
    + apply Forall_replace; [exact Hlv|]. split; [exact Hd|].
      cbn [levelSpawns]. intros l Hl. injection Hl as <-. exact Hsaved.
    + unfold validHost. rewrite saveSpawns_storage.
      constructor; [exact Hsaved|].
      apply Forall_forall. intros kv Hin. apply filter_In in Hin.
      eapply Forall_forall in Hh; [exact Hh | apply Hin].
  - (* a tap on the track *)
    destruct (tapTrack_rest x y u) as (T1 & T2 & T3 & T4 & _).
    unfold editorValid. rewrite T1, T2, T3, T4.
    split; [|repeat split; solve [assumption | apply Hsel]].
    destruct (tapTrack_spawns x y u) as [E|[(before & n & after & E1 & E2)|(Ht & E)]].
    + rewrite E. exact Hsp.
    + rewrite E2. rewrite E1 in Hsp. apply Forall_app in Hsp. destruct Hsp as [H1 H2].
      apply Forall_app. split; [exact H1|]. inversion H2; assumption.
    + rewrite E. apply Forall_sortByTime. apply Forall_app. split; [exact Hsp|].
      constructor; [|constructor].
      pose proof (validLevel_nth _ (EditorScene.currentLevelIndex u) Hlv) as (Hd & _).
      fold (EditorScene.level u) in Hd. rewrite Hd in Ht.
      split; [apply toFixed2_valid, Ht|]. split; [apply laneOf_range | exact Hsel].
Qed.

Lemma computeLayout_valid (s : EditorScene.t) :
  editorValid s -> editorValid (EditorScene.computeLayout s).
Proof.
  intros (Hsp & Hlv & Hh & Hsel & Hbx).
  destruct (computeLayout_fields s) as (E1 & _ & _ & _ & E2 & _ & E3 & _ & E4 & _).
  assert (E5 : EditorScene.host (EditorScene.computeLayout s) = EditorScene.host s)
    by (unfold EditorScene.computeLayout; ecbn; reflexivity).
  unfold editorValid. rewrite E1, E2, E3, E4, E5. repeat split; solve [assumption | apply Hsel].
Qed.

Lemma dragScrollHandle_valid (y : Q) (s : EditorScene.t) :
  editorValid s -> editorValid (EditorScene.dragScrollHandle y s).
Proof.
  intros Hs. unfold EditorScene.dragScrollHandle. cbv zeta.
  destruct (Qltb 0 (EditorScene.maxScroll s)); [|exact Hs].
  destruct (EditorScene.scrollHandle (EditorScene.bounds s)); exact Hs.
Qed.

Lemma dragNote_valid (x y : Q) (s : EditorScene.t) :
  editorValid s -> editorValid (EditorScene.dragNote x y s).
Proof.
  intros Hs. unfold EditorScene.dragNote.
  destruct (EditorScene.dragNoteIndex s) as [i|]; [|exact Hs].
  destruct (nth_error (EditorScene.spawns s) i) as [note|] eqn:En; [|exact Hs].
  destruct Hs as (Hsp & Hlv & Hh & Hsel & Hbx).
  cbv zeta. unfold editorValid. ecbn.
  split; [|repeat split; solve [assumption | apply Hsel]].
  apply Forall_replace; [exact Hsp|].
  pose proof (validLevel_nth _ (EditorScene.currentLevelIndex s) Hlv) as (Hd & _).
  fold (EditorScene.level s) in Hd. rewrite Hd.
  eapply Forall_forall in Hsp; [|eapply nth_error_In, En].
  destruct Hsp as (_ & _ & Hty).
  split; [|split; [apply laneOf_range | exact Hty]].
  cbn [time]. apply toFixed2_valid. qmm. lra.
Qed.

Lemma step_valid (s : EditorScene.t) (e : EditorScene.Event) :
  editorValid s -> editorValid (EditorScene.step s e).
Proof.
  intros Hs. destruct e as [x y|x y| |]; cbn [EditorScene.step].
  - apply (outcome_valid x y _ _ (onTouchStart_outcome x y s)).
    apply computeLayout_valid, Hs.
  - unfold EditorScene.onTouchMove.
    destruct (EditorScene.scrollHandleDragging s).
    + apply dragScrollHandle_valid, computeLayout_valid, Hs.
    + destruct (negb (EditorScene.dragging s)); [exact Hs|].
      apply dragNote_valid, computeLayout_valid, Hs.
  - unfold EditorScene.onTouchEnd.
    destruct (EditorScene.scrollHandleDragging s); [exact Hs|].
    destruct (EditorScene.dragging s); [|exact Hs].
    destruct Hs as (Hsp & Hlv & Hh & Hsel & Hbx).
    unfold editorValid. ecbn.
    split; [apply Forall_sortByTime, Hsp|].
    repeat split; solve [assumption | apply Hsel].
  - apply computeLayout_valid in Hs.
    destruct Hs as (Hsp & Hlv & Hh & Hsel & Hbx).
    unfold EditorScene.render. cbv zeta. unfold editorValid. ecbn.
    cbn [EditorScene.blockBoxes].
    split; [exact Hsp|]. split; [exact Hlv|]. split; [exact Hh|]. split; [exact Hsel|].
    intros boxes Hb. injection Hb as Hb.
    rewrite <- Hb. reflexivity.
Qed.

Lemma new_valid (canvas : Canvas) (host : EditorScene.Host) :
  validHost host -> editorValid (EditorScene.new canvas host).
Proof.
  intros Hh. unfold EditorScene.new.
  match goal with
  | |- editorValid (EditorScene.updateLevelData ?s0) =>
      set (s1 := s0);
      assert (Hl : Forall validLevel (EditorScene.levels s1))
        by (constructor; [exact (proj1 shipped_levels_valid)|];
            constructor; [exact (proj2 shipped_levels_valid) | constructor]);
      destruct (updateLevelData_fields s1)
        as (_ & U1 & _ & U3 & _ & _ & _ & _ & U8 & U9);
      pose proof (updateLevelData_valid s1 Hl Hh) as Hv
  end.
  unfold editorValid. rewrite U1, U3, U8, U9.
  split; [exact Hv|]. split; [exact Hl|]. split; [exact Hh|].
  split; [subst s1; ecbn; unfold typeCount; cbn; lia|].
  subst s1. ecbn. cbn [EditorScene.blockBoxes EditorScene.noBounds]. discriminate.
Qed.

(** X19.  The editor only makes notes that the game can play.  On a
    canvas for the editor and a host whose stored patterns are made of valid
    notes (time within the 120 s of the songs, one of the six lanes, one of
    the three block types), every pattern the editor holds, stores or writes
    to a level is made of valid notes, after any sequence of pointer events
    and frames: no tap, drag, save or change of song produces a lane or a
    type out of range. *)
Theorem editor_makes_only_valid_notes (canvas : Canvas) (host : EditorScene.Host)
    (es : list EditorScene.Event) :
  editorCanvas canvas ->
  validHost host ->
  let s := EditorScene.run es (EditorScene.new canvas host) in
  Forall validNote (EditorScene.spawns s)
  /\ validHost (EditorScene.host s)
  /\ Forall validLevel (EditorScene.levels s)
  /\ (0 <= EditorScene.selectedBlockType s < typeCount)%Z.
Proof.
  intros _ Hh s. subst s.
  pose proof (run_keeps editorValid step_valid es _ (new_valid canvas host Hh)) as Hinv.
  destruct Hinv as (H1 & H2 & H3 & H4 & _).
  split; [exact H1|]. split; [exact H3|]. split; [exact H2 | exact H4].
Qed.

(** X20.  On a canvas for the editor, when every pointer-down comes with
    no pointer down, a test game started from the editor gets the pattern of
    the editor as it is, sorted by time and made of valid notes, with the
    duration of the song: the pattern meets what the scheduler of the game
    asks of it. *)
Theorem test_game_gets_a_sorted_pattern (canvas : Canvas) (host : EditorScene.Host)
    (es : list EditorScene.Event) (n : nat) (x y : Q) :
  editorCanvas canvas ->
  validHost host ->
  resolvedGestures false es = true ->
  nth_error es n = Some (EditorScene.PointerDown x y) ->
  let s := EditorScene.run (firstn n es) (EditorScene.new canvas host) in
  EditorScene.onTouchStart x y s = EditorScene.playTest (EditorScene.computeLayout s) ->
  exists song,
    EditorScene.sceneRequest (EditorScene.onTouchStart x y s) = Some (ToGame song)
    /\ GameScene.spawns (GameScene.new canvas song) = EditorScene.spawns s
    /\ sortedByTime (GameScene.spawns (GameScene.new canvas song))
    /\ Forall validNote (GameScene.spawns (GameScene.new canvas song))
    /\ GameScene.duration (GameScene.new canvas song)
       = levelDuration (EditorScene.level s).
Proof.
  intros _ Hh Hres Hn s Htest. subst s.
  set (s := EditorScene.run (firstn n es) (EditorScene.new canvas host)) in *.
  assert (Hidle : EditorScene.dragging s = false).
  { assert (H0 : (activeDrags (EditorScene.new canvas host) <= 1)%nat)
      by (cbn; lia).
    assert (H1 : false = false -> activeDrags (EditorScene.new canvas host) = 0%nat)
      by reflexivity.
    destruct (resolved_run es false _ Hres H0 H1 n) as (_ & Hz).
    specialize (Hz x y Hn). fold s in Hz. unfold activeDrags in Hz.
    destruct (EditorScene.dragging s); [|reflexivity].
    destruct (EditorScene.scrollHandleDragging s); cbn in Hz; lia. }
  assert (Hsorted : sortedByTime (EditorScene.spawns s)).
  { apply (run_keeps
             (fun s => EditorScene.dragging s = false -> sortedByTime (EditorScene.spawns s)));
      [intros s0 e; apply step_sorted | intros _; apply new_sorted | exact Hidle]. }
  pose proof (run_keeps editorValid step_valid (firstn n es) _ (new_valid canvas host Hh))
    as (Hvalid & _).
  fold s in Hvalid.
  destruct (computeLayout_fields s) as (Hsp & _ & _ & _ & _ & _ & Hlv & Hix & _).
  rewrite Htest. unfold EditorScene.playTest. cbv zeta. ecbn.
  eexists. split; [reflexivity|].
  unfold GameScene.new. cbn [levelSpawns levelDuration GameScene.spawns GameScene.duration].
  rewrite Hsp. split; [reflexivity|]. split; [exact Hsorted|]. split; [exact Hvalid|].
  unfold EditorScene.level. rewrite Hlv, Hix. reflexivity.
Qed.

(** ** The menu *)

Lemma index_gap (i j : nat) :
  (i < j)%nat -> inject_Z (Z.of_nat i) + 1 <= inject_Z (Z.of_nat j).
Proof.
  intros H. change 1 with (inject_Z 1). rewrite <- inject_Z_plus, <- Zle_Qle. lia.
Qed.

(** The cards do not overlap: a point in one is in no other. *)
Lemma inCard_unique (x y : Q) (i j : nat) (m : MenuScene.t) :
  MenuScene.inCard x y i m = true -> i <> j -> MenuScene.inCard x y j m = false.
Proof.
  unfold MenuScene.inCard. cbv zeta. intros Hi Hne.
  apply andb_true_iff in Hi. destruct Hi as [Hi _].
  apply andb_true_iff in Hi. destruct Hi as [Hi _].
  apply andb_true_iff in Hi. destruct Hi as [H1 H2]. qprop.
  unfold MenuScene.cardHeight, MenuScene.cardSpacing in *.
  set (s := MenuScene.startY m) in *. clearbody s.
  destruct (Nat.lt_ge_cases i j) as [Hlt|Hge].
  - pose proof (index_gap i j Hlt) as Hg.
    set (qi := inject_Z (Z.of_nat i)) in *. set (qj := inject_Z (Z.of_nat j)) in *.
    assert (E : Qleb (s + qj * (65 + 25)) y = false) by (apply Qleb_false; lra).
    rewrite E. reflexivity.
  - assert (Hlt : (j < i)%nat) by lia.
    pose proof (index_gap j i Hlt) as Hg.
    set (qi := inject_Z (Z.of_nat i)) in *. set (qj := inject_Z (Z.of_nat j)) in *.
    assert (E : Qleb y (s + qj * (65 + 25) + 65) = false) by (apply Qleb_false; lra).
    rewrite E. apply andb_false_iff. left. apply andb_false_iff. left.
    apply andb_false_r.
Qed.

Lemma touchEntries_hit (x y : Q) (i : nat) (m : MenuScene.t) (entries : list nat) :
  In i entries -> MenuScene.inCard x y i m = true ->
  MenuScene.touchEntries x y entries m = MenuScene.choose i m.
Proof.
  intros Hin Hi. induction entries as [|j rest IH]; [contradiction|].
  cbn [MenuScene.touchEntries].
  destruct (Nat.eq_dec i j) as [<-|Hne].
  - rewrite Hi. reflexivity.
  - rewrite (inCard_unique x y i j m Hi Hne). apply IH.
    destruct Hin as [E|Hin]; [congruence | exact Hin].
Qed.

Lemma touchEntries_miss (x y : Q) (m : MenuScene.t) (entries : list nat) :
  (forall i, In i entries -> MenuScene.inCard x y i m = false) ->
  MenuScene.touchEntries x y entries m = m.
Proof.
  induction entries as [|j rest IH]; intros H; [reflexivity|].
  cbn [MenuScene.touchEntries]. rewrite (H j (or_introl eq_refl)).
  apply IH. intros i Hi. apply H. right. exact Hi.
Qed.

(** The test of the loop is the test "inside the card that [render]
    draws". *)
Lemma inCard_render (x y : Q) (i : nat) (m : MenuScene.t) (box : Box) :
  nth_error (MenuScene.render m) i = Some box ->
  (i < MenuScene.totalEntries m)%nat
  /\ (MenuScene.inCard x y i m = true <->
      boxX box <= x <= boxX box + boxW box /\ boxY box <= y <= boxY box + boxH box).
Proof.
  intros Hbox.
  assert (Hi : (i < MenuScene.totalEntries m)%nat).
  { assert (H : nth_error (MenuScene.render m) i <> None) by (rewrite Hbox; discriminate).
    apply nth_error_Some in H. unfold MenuScene.render in H.
    rewrite length_map, length_seq in H. exact H. }
  unfold MenuScene.render in Hbox.
  split; [exact Hi|].
  rewrite nth_error_map, nth_error_seq in Hbox.
  destruct (Nat.ltb_spec i (MenuScene.totalEntries m)) as [_|Hge]; [|lia].
  cbn [option_map Nat.add] in Hbox. injection Hbox as <-.
  cbn [boxX boxY boxW boxH]. unfold MenuScene.inCard. cbv zeta.
  rewrite !andb_true_iff, !Qleb_true. tauto.
Qed.

(** X21.  The touch areas of the menu are the cards it draws, and the
    cards do not overlap: a touch inside the card that [render] draws for an
    entry, edges included, picks that entry and no other, and a touch outside
    every card leaves the menu as it is. *)
Theorem menu_touch_picks_the_card_under_it (x y : Q) (m : MenuScene.t) :
  (forall i box,
     nth_error (MenuScene.render m) i = Some box ->
     boxX box <= x <= boxX box + boxW box ->
     boxY box <= y <= boxY box + boxH box ->
     MenuScene.onTouchStart x y m = MenuScene.choose i m)
  /\ ((forall box, In box (MenuScene.render m) ->
         ~ (boxX box <= x <= boxX box + boxW box
            /\ boxY box <= y <= boxY box + boxH box)) ->
      MenuScene.onTouchStart x y m = m)
  /\ List.length (MenuScene.render m) = S (List.length (MenuScene.songs m)).
Proof.
  split; [|split].
  - intros i box Hbox Hx Hy.
    destruct (inCard_render x y i m box Hbox) as (Hi & Hiff).
    apply touchEntries_hit; [apply in_seq; lia | apply Hiff; split; assumption].
  - intros Hout. apply touchEntries_miss. intros i Hi. apply in_seq in Hi.
    destruct (nth_error (MenuScene.render m) i) as [box|] eqn:Hbox.
    + destruct (inCard_render x y i m box Hbox) as (_ & Hiff).
      destruct (MenuScene.inCard x y i m); [|reflexivity].
      exfalso. apply (Hout box); [eapply nth_error_In, Hbox | apply Hiff; reflexivity].
    + apply nth_error_None in Hbox. unfold MenuScene.render in Hbox.
      rewrite length_map, length_seq in Hbox. lia.
  - unfold MenuScene.render. rewrite length_map, length_seq.
    unfold MenuScene.totalEntries. lia.
Qed.


(** ** The main loop *)

Lemma loop_now (ts : option Q) (dateNow lastTime : Q) :
  fst (Main.loop ts dateNow lastTime) == (snd (Main.loop ts dateNow lastTime) - lastTime) / 1000
  /\ snd (Main.loop ts dateNow lastTime) = Main.now ts dateNow.
Proof. unfold Main.loop. cbn [fst snd]. split; reflexivity. Qed.

(** X23.  The main loop hands one frame time to the scene per turn.  The
    frame time of a turn is negative exactly when the clock reading of the
    turn is before the one the loop remembers in [lastTime], and 0 exactly
    when the two are the same; so when the readings never go back, starting
    from the initial [lastTime], no frame time is negative. *)
Theorem frame_times_are_negative_only_when_the_clock_goes_back (lastTime : Q)
    (clock : list (option Q * Q)) :
  List.length (Main.frameTimes lastTime clock) = List.length clock
  /\ (forall ts dateNow,
        (fst (Main.loop ts dateNow lastTime) < 0 <-> Main.now ts dateNow < lastTime)
        /\ (fst (Main.loop ts dateNow lastTime) == 0 <-> Main.now ts dateNow == lastTime))
  /\ (StronglySorted Qle
        (lastTime :: map (fun r => Main.now (fst r) (snd r)) clock) ->
      Forall (fun dt => 0 <= dt) (Main.frameTimes lastTime clock)).
Proof.
  split; [|split].
  - revert lastTime. induction clock as [|[ts dateNow] rest IH]; intros lastTime;
      [reflexivity|].
    change (Main.frameTimes lastTime ((ts, dateNow) :: rest))
      with (fst (Main.loop ts dateNow lastTime)
              :: Main.frameTimes (snd (Main.loop ts dateNow lastTime)) rest).
    cbn [List.length]. rewrite IH. reflexivity.
  - intros ts dateNow. destruct (loop_now ts dateNow lastTime) as (Hdt & Hnow).
    rewrite Hnow in Hdt. rewrite Hdt.
    set (now := Main.now ts dateNow). clearbody now.
    assert (E : (now - lastTime) / 1000 == (now - lastTime) * (1 # 1000)) by field.
    rewrite E. repeat split; intros; lra.
  - revert lastTime. induction clock as [|[ts dateNow] rest IH]; intros lastTime Hs;
      [constructor|].
    change (Main.frameTimes lastTime ((ts, dateNow) :: rest))
      with (fst (Main.loop ts dateNow lastTime)
              :: Main.frameTimes (snd (Main.loop ts dateNow lastTime)) rest).
    destruct (loop_now ts dateNow lastTime) as (Hdt & _).
    cbn [map fst snd] in Hs.
    change (snd (Main.loop ts dateNow lastTime)) with (Main.now ts dateNow) in *.
    set (now := Main.now ts dateNow) in *. clearbody now.
    inversion Hs as [|? ? Hs' Hall]; subst.
    constructor.
    + inversion Hall as [|? ? Hle _]; subst. rewrite Hdt.
      apply Qle_shift_div_l; [reflexivity | lra].
    + apply IH. exact Hs'.
Qed.

(** ** The editor: the scroll handle *)

Lemma render_bounds (s : EditorScene.t) :
  EditorScene.render s
  = EditorScene.set_bounds (EditorScene.bounds (EditorScene.render s))
      (EditorScene.computeLayout s).
Proof. reflexivity. Qed.

Lemma computeLayout_render (s : EditorScene.t) :
  EditorScene.computeLayout (EditorScene.render s) = EditorScene.render s.
Proof.
  rewrite (render_bounds s) at 1.
  rewrite computeLayout_set_bounds, computeLayout_idempotent. reflexivity.
Qed.

(** The height of the handle that [render] draws when there is something
    to scroll. *)
Lemma render_handle_height (s : EditorScene.t) (hb : Box) :
  let u := EditorScene.computeLayout s in
  let trackH := EditorScene.viewportHeight (EditorScene.layout u) in
  EditorScene.scrollHandle (EditorScene.bounds (EditorScene.render s)) = Some hb ->
  0 < EditorScene.maxScroll u ->
  boxH hb = Qmax 30 (trackH / EditorScene.timelineHeightPx (EditorScene.layout u)
                     * (trackH - 24 * 2)).
Proof.
  intros u trackH Hhb Hpos. apply Qltb_true in Hpos.
  unfold EditorScene.render in Hhb. cbv zeta in Hhb. ecbn in Hhb.
  cbn [EditorScene.scrollHandle] in Hhb. fold u in Hhb. rewrite Hpos in Hhb.
  injection Hhb as <-. cbn [boxH]. reflexivity.
Qed.

(** What a drag of the handle divides by.  For a timeline of 6000 px, the
    120 s of the songs at 50 px a second, the handle that [render] draws has
    no room to travel at a canvas height of 358 and at no other: this is the
    height that [editorCanvas] leaves out. *)
Lemma handle_travel_is_0_only_at_358 (s : EditorScene.t) (hb : Box) :
  let u := EditorScene.computeLayout s in
  let travel := EditorScene.viewportHeight (EditorScene.layout u) - 48 - boxH hb in
  levelDuration (EditorScene.level s) * EditorScene.pxPerSecond s == 6000 ->
  EditorScene.scrollHandle (EditorScene.bounds (EditorScene.render s)) = Some hb ->
  0 < EditorScene.maxScroll u ->
  (travel == 0 <-> canvasHeight (EditorScene.canvas s) == 358).
Proof.
  intros u travel Htl Hhb Hpos. subst travel.
  pose proof (render_handle_height s hb Hhb Hpos) as Eh. cbv zeta in Eh.
  destruct (computeLayout_layout s) as (Hvh & Ht & _ & _ & _ & Hm & _).
  fold u in Hvh, Ht, Hm, Eh. rewrite Hm in Hpos. rewrite Eh, Hvh, Ht.
  clear Hvh Ht Hm Eh.
  set (H := canvasHeight (EditorScene.canvas s)) in *.
  set (tl := levelDuration (EditorScene.level s) * EditorScene.pxPerSecond s) in *.
  clearbody H tl.
  assert (Hlt : H - 200 - 80 < tl) by (revert Hpos; qmm; lra).
  assert (Hr : (H - 200 - 80) / tl * 6000 == H - 200 - 80) by (rewrite Htl; field).
  set (r := (H - 200 - 80) / tl) in *. clearbody r.
  split; intros E.
  - revert E. qmm; nra.
  - qmm; nra.
Qed.

Lemma computeLayout_handle_fields (s : EditorScene.t) :
  EditorScene.scrollHandleOffset (EditorScene.computeLayout s)
  = EditorScene.scrollHandleOffset s
  /\ EditorScene.canvas (EditorScene.computeLayout s) = EditorScene.canvas s.
Proof. unfold EditorScene.computeLayout. ecbn. split; reflexivity. Qed.

(** The offset that a move of the pointer sets during a drag of the
    handle. *)
Lemma onTouchMove_handle (x y : Q) (s : EditorScene.t) (hb : Box) :
  let u := EditorScene.computeLayout s in
  let minY := EditorScene.viewportY (EditorScene.layout u) + 24 in
  let maxY := EditorScene.viewportY (EditorScene.layout u)
              + EditorScene.viewportHeight (EditorScene.layout u) - 24 - boxH hb in
  EditorScene.scrollHandleDragging s = true ->
  EditorScene.scrollHandle (EditorScene.bounds s) = Some hb ->
  0 < EditorScene.maxScroll u ->
  EditorScene.scrollOffset (EditorScene.onTouchMove x y s)
  = (Qmax minY (Qmin maxY (y - EditorScene.scrollHandleOffset s)) - minY) / (maxY - minY)
    * EditorScene.maxScroll u.
Proof.
  intros u minY maxY Hdrag Hhb Hpos. subst minY maxY.
  unfold EditorScene.onTouchMove. rewrite Hdrag. fold u.
  destruct (computeLayout_fields s) as (_ & _ & _ & _ & Hb & _).
  destruct (computeLayout_handle_fields s) as (Ho & _). fold u in Hb, Ho.
  unfold EditorScene.dragScrollHandle. rewrite Hb, Hhb, Ho.
  apply Qltb_true in Hpos. rewrite Hpos. ecbn. reflexivity.
Qed.

(** X24.  A drag of the scroll handle follows the pointer.  While the
    handle is dragged, with something to scroll and room for the handle to
    travel ([minY < maxY], the two ends that [onTouchMove] computes for the
    top of the handle), a pointer further down never gives a smaller scroll
    offset; a pointer that takes the handle to [minY] or above gives the
    offset 0, and one that takes it to [maxY] or below gives [maxScroll]. *)
Theorem scroll_handle_drag_follows_the_pointer (s : EditorScene.t) (hb : Box)
    (x y x' y' : Q) :
  let u := EditorScene.computeLayout s in
  let minY := EditorScene.viewportY (EditorScene.layout u) + 24 in
  let maxY := EditorScene.viewportY (EditorScene.layout u)
              + EditorScene.viewportHeight (EditorScene.layout u) - 24 - boxH hb in
  EditorScene.scrollHandleDragging s = true ->
  EditorScene.scrollHandle (EditorScene.bounds s) = Some hb ->
  0 < EditorScene.maxScroll u ->
  minY < maxY ->
  (y <= y' ->
   EditorScene.scrollOffset (EditorScene.onTouchMove x y s)
   <= EditorScene.scrollOffset (EditorScene.onTouchMove x' y' s))
  /\ (y - EditorScene.scrollHandleOffset s <= minY ->
      EditorScene.scrollOffset (EditorScene.onTouchMove x y s) == 0)
  /\ (maxY <= y - EditorScene.scrollHandleOffset s ->
      EditorScene.scrollOffset (EditorScene.onTouchMove x y s) == EditorScene.maxScroll u).
Proof.
  intros u minY maxY Hdrag Hhb Hpos Htravel.
  rewrite (onTouchMove_handle x y s hb Hdrag Hhb Hpos).
  rewrite (onTouchMove_handle x' y' s hb Hdrag Hhb Hpos).
  fold u minY maxY.
  set (M := EditorScene.maxScroll u) in *.
  set (off := EditorScene.scrollHandleOffset s).
  clearbody M minY maxY off.
  assert (Hd : 0 < maxY - minY) by lra.
  set (d := maxY - minY) in *.
  assert (Hinv : 0 < / d) by (apply Qinv_lt_0_compat; exact Hd).
  assert (Hone : d * / d == 1) by (apply Qmult_inv_r; lra).
  unfold Qdiv. set (r := / d) in *.
  assert (Hmax : maxY == minY + d) by (subst d; ring).
  clearbody r.
  split; [|split].
  - intros Hy.
    assert (Hnum : Qmax minY (Qmin maxY (y - off)) <= Qmax minY (Qmin maxY (y' - off)))
      by (qmm; lra).
    set (a := Qmax minY (Qmin maxY (y - off))) in *.
    set (b := Qmax minY (Qmin maxY (y' - off))) in *.
    clearbody a b.
    assert (Hk : 0 <= (b - a) * (r * M)).
    { apply Qmult_le_0_compat; [lra|]. apply Qmult_le_0_compat; lra. }
    lra.
  - intros Hy.
    assert (Hnum : Qmax minY (Qmin maxY (y - off)) == minY)
      by (qmm; apply Qle_antisym; lra).
    rewrite Hnum. ring.
  - intros Hy.
    assert (Hnum : Qmax minY (Qmin maxY (y - off)) == minY + d)
      by (qmm; apply Qle_antisym; lra).
    rewrite Hnum.
    setoid_replace ((minY + d - minY) * r * M) with ((d * r) * M) by ring.
    rewrite Hone. ring.
Qed.

(** ** The level files *)

Section Generator.
Variables (laneOf typeOf : Z -> Z) (interval total : Q).
Hypothesis interval_nonneg : 0 <= interval.



End Generator.


(** ** The falling blocks *)

Lemma blockTypeAt_in (i : Z) (typeDef : BlockType) :
  blockTypeAt i = Some typeDef ->
  In typeDef config.blockTypes /\ typeSpeed typeDef = None.
Proof.
  unfold blockTypeAt. destruct (i <? 0)%Z; [discriminate|]. intros H.
  apply nth_error_In in H. split; [exact H|].
  destruct H as [<-|[<-|[<-|[]]]]; reflexivity.
Qed.

Section Blocks.
Context {rt : JSRuntime}.

Lemma freshBlock_same (g g' : GameScene.t) (b : Block.t) :
  GameScene.lanePositions g' = GameScene.lanePositions g ->
  GameScene.canvas g' = GameScene.canvas g ->
  freshBlock g' b -> freshBlock g b.
Proof. unfold freshBlock. intros -> ->. exact (fun H => H). Qed.

Lemma spawnBlockWithTypeDef_fresh (typeDef : BlockType) (ln : Z) (g : GameScene.t) :
  In typeDef config.blockTypes -> typeSpeed typeDef = None ->
  let g' := GameScene._spawnBlockWithTypeDef typeDef ln g in
  exists b, GameScene.blocks g' = GameScene.blocks g ++ [b] /\ freshBlock g b.
Proof.
  intros Hin Hspeed g'. subst g'.
  destruct (spawnBlockWithTypeDef_block typeDef ln g) as (_ & _ & Hb).
  rewrite Hspeed in Hb. unfold GameScene.lanePosition in Hb.
  destruct (0 <=? ln)%Z.
  - destruct (nth_error (GameScene.lanePositions g) (Z.to_nat ln)) as [lx|] eqn:En.
    + destruct Hb as (Hb & _). eexists. split; [exact Hb|].
      unfold freshBlock. cbn [Block.new Block.size Block.speed Block.type Block.y Block.x].
      repeat split; try assumption. left. eapply nth_error_In, En.
    + destruct Hb as (Hb & _). eexists. split; [exact Hb|].
      unfold freshBlock. cbn [Block.new Block.size Block.speed Block.type Block.y Block.x].
      repeat split; try assumption. right. eexists. reflexivity.
  - destruct Hb as (Hb & _). eexists. split; [exact Hb|].
    unfold freshBlock. cbn [Block.new Block.size Block.speed Block.type Block.y Block.x].
    repeat split; try assumption. right. eexists. reflexivity.
Qed.

Lemma spawnBlockOfType_fresh (typeIndex ln : Z) (g : GameScene.t) :
  let g' := GameScene.spawnBlockOfType typeIndex ln g in
  exists new, GameScene.blocks g' = GameScene.blocks g ++ new /\ Forall (freshBlock g) new.
Proof.
  cbv zeta. rewrite spawnBlockOfType_alt.
  destruct (blockTypeAt typeIndex) as [typeDef|] eqn:E.
  - destruct (blockTypeAt_in _ _ E) as (Hin & Hsp).
    destruct (spawnBlockWithTypeDef_fresh typeDef ln g Hin Hsp) as (b & Hb & Hf).
    exists [b]. split; [exact Hb | constructor; [exact Hf | constructor]].
  - exists []. rewrite app_nil_r. split; [reflexivity | constructor].
Qed.

Lemma spawnDue_fresh (fuel : nat) :
  forall g,
    let g' := GameScene.spawnDue fuel g in
    exists new, GameScene.blocks g' = GameScene.blocks g ++ new /\ Forall (freshBlock g) new.
Proof.
  induction fuel as [|fuel IH]; intros g; cbn [GameScene.spawnDue].
  - exists []. rewrite app_nil_r. split; [reflexivity | constructor].
  - destruct (nth_error (GameScene.spawns g) (GameScene.spawnIndex g)) as [ev|];
      [|exists []; rewrite app_nil_r; split; [reflexivity | constructor]].
    destruct (Qleb (time ev) (GameScene.timeElapsed g));
      [|exists []; rewrite app_nil_r; split; [reflexivity | constructor]].
    cbv zeta. set (g1 := GameScene.set_emitted _ g).
    destruct (spawnBlockOfType_fresh (type ev) (lane ev) g1) as (new1 & Hb1 & Hf1).
    destruct (spawnBlockOfType_rest (type ev) (lane ev) g1) as ((_ & _ & Hl1 & _) & _).
    destruct (spawnBlockOfType_spec ev g1) as (nw & _ & _ & _ & _ & _ & Hs1).
    destruct Hs1 as (_ & _ & _ & Hc1 & _).
    set (g2 := GameScene.spawnBlockOfType (type ev) (lane ev) g1) in *.
    destruct (IH (GameScene.set_spawnIndex (S (GameScene.spawnIndex g2)) g2))
      as (new2 & Hb2 & Hf2).
    exists (new1 ++ new2). split.
    + rewrite Hb2. gcbn. rewrite Hb1. subst g1. gcbn. rewrite app_assoc. reflexivity.
    + apply Forall_app. split.
      * revert Hf1. apply Forall_impl. intros b. subst g1. apply freshBlock_same; reflexivity.
      * revert Hf2. apply Forall_impl. intros b. apply freshBlock_same.
        -- gcbn. rewrite Hl1. reflexivity.
        -- gcbn. rewrite Hc1. reflexivity.
Qed.

Lemma spawnPhase_fresh (dt : Q) (g : GameScene.t) :
  let g1 := GameScene.spawnPhase dt g in
  exists new, GameScene.blocks g1 = GameScene.blocks g ++ new /\ Forall (freshBlock g) new.
Proof.
  unfold GameScene.spawnPhase.
  set (g0 := if GameScene.audioStarted g then g else _).
  assert (H0 : GameScene.blocks g0 = GameScene.blocks g
               /\ GameScene.lanePositions g0 = GameScene.lanePositions g
               /\ GameScene.canvas g0 = GameScene.canvas g).
  { subst g0. destruct (GameScene.audioStarted g); gcbn; repeat split. }
  clearbody g0. destruct H0 as (A1 & A2 & A3). cbv zeta.
  set (g1 := GameScene.set_timeElapsed _ g0).
  destruct (GameScene.usePattern g1).
  - destruct (spawnDue_fresh (List.length (GameScene.spawns g1) - GameScene.spawnIndex g1) g1)
      as (new & Hb & Hf).
    exists new. split; [rewrite Hb; subst g1; gcbn; rewrite A1; reflexivity|].
    revert Hf. apply Forall_impl. intros b. apply freshBlock_same; subst g1; gcbn; congruence.
  - set (g2 := GameScene.set_spawnTimer _ g1).
    destruct (Qleb (GameScene.spawnInterval g2) (GameScene.spawnTimer g2)).
    + set (g3 := GameScene.set_spawnTimer _ g2).
      unfold GameScene.spawnBlockRandom.
      pose proof (random_type_in_range (GameScene.randomCalls g3)) as Htype.
      destruct (blockTypeAt _) as [typeDef|] eqn:E; [clear Htype|congruence].
      destruct (blockTypeAt_in _ _ E) as (Hin & Hsp).
      match goal with
      | |- context [GameScene._spawnBlockWithTypeDef typeDef ?l ?g4] =>
          destruct (spawnBlockWithTypeDef_fresh typeDef l g4 Hin Hsp) as (b & Hb & Hf)
      end.
      exists [b]. split; [rewrite Hb; subst g3 g2 g1; gcbn; rewrite A1; reflexivity|].
      constructor; [|constructor].
      revert Hf. apply freshBlock_same; subst g3 g2 g1; gcbn; congruence.
    + exists []. rewrite app_nil_r. split; [subst g2 g1; gcbn; exact A1 | constructor].
Qed.

Lemma Block_update_fields (dt : Q) (b : Block.t) :
  let b' := Block.update dt b in
  Block.x b' = Block.x b /\ Block.size b' = Block.size b
  /\ Block.speed b' = Block.speed b /\ Block.type b' = Block.type b
  /\ Block.y b' = Block.y b + Block.speed b * dt.
Proof.
  unfold Block.update. cbv zeta. destruct (effect (Block.type b)); cbn; repeat split.
Qed.

Lemma lanes_inside (canvas : Canvas) (song : Level) :
  240 <= canvasWidth canvas ->
  Forall (fun x => 20 <= x <= canvasWidth canvas - 20)
    (GameScene.lanePositions (GameScene.new canvas song)).
Proof.
  intros Hw. unfold GameScene.new. cbv zeta. cbn [GameScene.lanePositions].
  apply Forall_map, Forall_forall. intros i Hi. apply in_seq in Hi.
  change (Z.to_nat config.numLanes) with 6%nat in Hi.
  change (inject_Z config.numLanes) with 6.
  assert (H0 : 0 <= inject_Z (Z.of_nat i))
    by (change 0 with (inject_Z 0); rewrite <- Zle_Qle; lia).
  assert (H5 : inject_Z (Z.of_nat i) <= 5)
    by (change 5 with (inject_Z 5); rewrite <- Zle_Qle; lia).
  set (q := inject_Z (Z.of_nat i)) in *. clearbody q.
  set (W := canvasWidth canvas) in *. clearbody W.
  assert (E : W / 6 * q + W / 6 / 2 == W * (1 # 6) * q + W * (1 # 12)) by field.
  rewrite E. split; nra.
Qed.

Lemma fresh_moved_inside (canvas : Canvas) (song : Level) (g : GameScene.t) (dt : Q)
    (b : Block.t) :
  240 <= canvasWidth canvas -> 0 <= dt ->
  GameScene.lanePositions g = GameScene.lanePositions (GameScene.new canvas song) ->
  GameScene.canvas g = canvas ->
  freshBlock g b ->
  let b' := Block.update dt b in
  Block.size b' = 40 /\ Block.speed b' = 200 /\ In (Block.type b') config.blockTypes
  /\ 20 <= Block.x b' <= canvasWidth canvas - 20 /\ - 40 <= Block.y b'.
Proof.
  intros Hw Hdt Hl Hc (F1 & F2 & F3 & F4 & F5) b'. subst b'.
  destruct (Block_update_fields dt b) as (U1 & U2 & U3 & U4 & U5).
  rewrite U1, U2, U3, U4, U5, F1, F2, F4.
  split; [reflexivity|]. split; [reflexivity|]. split; [exact F3|].
  split; [|nra].
  destruct F5 as [Hin|(n & Hx)].
  - rewrite Hl in Hin.
    eapply Forall_forall in Hin; [exact Hin | apply (lanes_inside canvas song Hw)].
  - rewrite Hx, Hc. unfold randomRange.
    destruct (Math_random_unit n) as [R0 R1].
    set (r := Math_random n) in *. clearbody r.
    assert (E : 40 / 2 == 20) by reflexivity. rewrite E.
    split; nra.
Qed.

Lemma update_blocksKept (canvas : Canvas) (song : Level) (dt : Q) (g : GameScene.t) :
  240 <= canvasWidth canvas -> 0 <= dt ->
  GameScene.lanePositions g = GameScene.lanePositions (GameScene.new canvas song) ->
  GameScene.canvas g = canvas ->
  Forall (blockKept canvas) (GameScene.blocks g) ->
  Forall (blockKept canvas) (GameScene.blocks (GameScene.update dt g)).
Proof.
  intros Hw Hdt Hl Hc Hk.
  destruct (GameScene.gameOver g) eqn:Hlive.
  { unfold GameScene.update. rewrite Hlive. exact Hk. }
  destruct (update_spec dt g Hlive) as (Hb & _).
  destruct (spawnPhase_fresh dt g) as (new & Hb1 & Hf).
  rewrite Hb, Hb1, Hc. apply Forall_forall. intros b Hin.
  apply filter_In in Hin. destruct Hin as [Hin Hstay].
  unfold stays in Hstay. apply andb_true_iff in Hstay. destruct Hstay as [_ Hpast].
  apply negb_true_iff in Hpast. unfold GameScene.pastBottom in Hpast. apply Qltb_false in Hpast.
  apply in_map_iff in Hin. destruct Hin as (b0 & <- & Hin0).
  assert (Hmoved : Block.size (Block.update dt b0) = 40
                   /\ Block.speed (Block.update dt b0) = 200
                   /\ In (Block.type (Block.update dt b0)) config.blockTypes
                   /\ 20 <= Block.x (Block.update dt b0) <= canvasWidth canvas - 20
                   /\ - 40 <= Block.y (Block.update dt b0)).
  { apply in_app_iff in Hin0. destruct Hin0 as [Hold|Hnew].
    - eapply Forall_forall in Hk; [|exact Hold].
      destruct Hk as (K1 & K2 & K3 & K4 & K5 & _).
      destruct (Block_update_fields dt b0) as (U1 & U2 & U3 & U4 & U5).
      rewrite U1, U2, U3, U4, U5, K1, K2.
      split; [reflexivity|]. split; [reflexivity|]. split; [exact K3|].
      split; [exact K4 | nra].
    - eapply Forall_forall in Hf; [|exact Hnew].
      apply (fresh_moved_inside canvas song g dt b0 Hw Hdt Hl Hc Hf). }
  destruct Hmoved as (M1 & M2 & M3 & M4 & M5).
  unfold blockKept. rewrite M1 in Hpast.
  assert (E : 40 / 2 == 20) by reflexivity. rewrite E in Hpast.
  repeat split; try assumption; apply M4.
Qed.

(** X26.  The blocks of a game on a canvas of 240 px or more in width
    stay in range.  After any run from a new game whose frame times are not
    negative, every block is 40 px wide, falls at 200 px a second, is of a
    type of [config.blockTypes], lies with its whole width inside the canvas,
    and has its top from 40 px above the canvas to 20 px below its height,
    where it is a miss and is taken out. *)
Theorem falling_blocks_stay_in_range (canvas : Canvas) (song : Level)
    (es : list GameScene.Event) :
  240 <= canvasWidth canvas ->
  nonnegFrames es ->
  Forall (blockKept canvas) (GameScene.blocks (GameScene.run es (GameScene.new canvas song))).
Proof.
  intros Hw Hes.
  assert (Hinv : let g := GameScene.run es (GameScene.new canvas song) in
                 GameScene.lanePositions g
                 = GameScene.lanePositions (GameScene.new canvas song)
                 /\ GameScene.canvas g = canvas
                 /\ Forall (blockKept canvas) (GameScene.blocks g)).
  { induction es as [|e es IH] using rev_ind.
    - cbv zeta. cbn. repeat split. constructor.
    - apply nonnegFrames_snoc in Hes. destruct Hes as (Hes & He).
      specialize (IH Hes). cbv zeta in *. rewrite run_snoc.
      set (g := GameScene.run es (GameScene.new canvas song)) in *.
      destruct IH as (Hl & Hc & Hk).
      destruct e as [dt|x y|x y| |];
        try (match goal with
             | |- context [GameScene.step g ?e] =>
                 destruct (touch_fields g e ltac:(discriminate))
                   as ((_ & _ & T1 & _ & _ & _ & _ & _ & _ & _ & _ & _ & T2 & T3) & _)
             end; rewrite T1, T2, T3; repeat split; assumption).
      cbn [GameScene.step].
      destruct (render_fields (GameScene.update dt g))
        as ((_ & _ & R1 & _ & _ & _ & _ & _ & _ & _ & _ & _ & R2 & R3) & _).
      rewrite R1, R2, R3.
      split; [|split].
      + destruct (GameScene.gameOver g) eqn:Hlive.
        * unfold GameScene.update. rewrite Hlive. exact Hl.
        * destruct (update_rest dt g Hlive) as (_ & _ & _ & U & _). rewrite U. exact Hl.
      + destruct (GameScene.gameOver g) eqn:Hlive.
        * unfold GameScene.update. rewrite Hlive. exact Hc.
        * destruct (update_spec dt g Hlive) as (_ & _ & _ & U & _). rewrite U. exact Hc.
      + apply (update_blocksKept canvas song dt g Hw He Hl Hc Hk). }
  cbv zeta in Hinv. apply Hinv.
Qed.

End Blocks.

(** ** The editor: the boxes of the notes *)

(** [render] caches one box for each note in view, in the order of the
    pattern. *)
Lemma drawNotes_boxes (s : EditorScene.t) :
  map snd (EditorScene.drawNotes s) = map (noteBox s) (filter (inView s) (EditorScene.spawns s)).
Proof.
  unfold EditorScene.drawNotes. cbv zeta.
  induction (EditorScene.spawns s) as [|note l IH]; [reflexivity|].
  cbn [flat_map filter]. rewrite map_app, IH. unfold inView at 2. cbv zeta.
  destruct (Qltb _ _ || Qltb _ _); cbn [negb]; [reflexivity|].
  assert (Hdef : EditorScene.noteTypeDef note <> None).
  { unfold EditorScene.noteTypeDef. destruct (blockTypeAt (type note)); discriminate. }
  destruct (EditorScene.noteTypeDef note) as [typeDef|]; [|congruence].
  reflexivity.
Qed.

Lemma findIndex_some {A} (f : A -> bool) (l : list A) (k : nat) :
  findIndex f l = Some k -> exists a, nth_error l k = Some a /\ f a = true.
Proof.
  revert k. induction l as [|a l IH]; intros k H; [discriminate|].
  cbn [findIndex] in H. destruct (f a) eqn:Ea.
  - injection H as <-. exists a. split; [reflexivity | exact Ea].
  - destruct (findIndex f l) as [j|]; [|discriminate].
    injection H as <-. destruct (IH j eq_refl) as (b & Hb & Hf).
    exists b. split; [exact Hb | exact Hf].
Qed.

Lemma filter_prefix {A} (f : A -> bool) (l : list A) :
  forall k, forallb f (firstn (S k) l) = true -> nth_error (filter f l) k = nth_error l k.
Proof.
  induction l as [|a l IH]; intros k H; [destruct k; reflexivity|].
  cbn [firstn forallb] in H. apply andb_true_iff in H. destruct H as [Ha H].
  cbn [filter]. rewrite Ha. destruct k as [|k]; [reflexivity|].
  cbn [nth_error]. apply IH. exact H.
Qed.

(** X27.  A pointer-down on a note picks the note by the index of its box
    among the boxes drawn.  On an editor that has just been drawn, a
    pointer-down that misses the scroll handle and hits a note box starts a
    drag whose index is the index of the first box hit; that box is the box
    of the note with that index among the notes in view, so the drag index
    names that note in the pattern when no note before it is out of view. *)
Theorem note_drag_index_counts_the_notes_in_view (s : EditorScene.t) (x y : Q) (k : nat) :
  let s1 := EditorScene.render s in
  EditorScene._hitBox (EditorScene.scrollHandle (EditorScene.bounds s1)) x y = false ->
  EditorScene.hitIndex (EditorScene.noteBoxes (EditorScene.bounds s1)) x y = Some k ->
  let s2 := EditorScene.onTouchStart x y s1 in
  EditorScene.dragging s2 = true
  /\ EditorScene.dragNoteIndex s2 = Some k
  /\ EditorScene.spawns s2 = EditorScene.spawns s
  /\ exists note,
       nth_error (filter (inView s1) (EditorScene.spawns s)) k = Some note
       /\ EditorScene._hitBox (Some (noteBox s1 note)) x y = true
       /\ (forallb (inView s1) (firstn (S k) (EditorScene.spawns s)) = true ->
           nth_error (EditorScene.spawns s2) k = Some note).
Proof.
  intros s1 Hmiss Hhit s2. subst s2.
  assert (Hstart : EditorScene.onTouchStart x y s1
                   = EditorScene.set_dragNoteIndex (Some k)
                       (EditorScene.set_dragging true s1)).
  { unfold EditorScene.onTouchStart. cbv zeta.
    assert (Hc : EditorScene.computeLayout s1 = s1) by apply computeLayout_render.
    rewrite Hc, Hmiss, Hhit. reflexivity. }
  rewrite Hstart. ecbn.
  destruct (computeLayout_fields s) as (Hsp & _).
  assert (Hs1 : EditorScene.spawns s1 = EditorScene.spawns s) by exact Hsp.
  assert (Hboxes : EditorScene.noteBoxes (EditorScene.bounds s1)
                   = Some (map (noteBox s1) (filter (inView s1) (EditorScene.spawns s)))).
  { rewrite <- Hs1, <- drawNotes_boxes. reflexivity. }
  rewrite Hboxes in Hhit. unfold EditorScene.hitIndex in Hhit.
  destruct (findIndex_some _ _ _ Hhit) as (box & Hbox & Hin).
  rewrite nth_error_map in Hbox.
  destruct (nth_error (filter (inView s1) (EditorScene.spawns s)) k) as [note|] eqn:En;
    [|discriminate].
  cbn [option_map] in Hbox. injection Hbox as <-.
  split; [reflexivity|]. split; [reflexivity|]. split; [exact Hs1|].
  exists note. split; [reflexivity|]. split; [exact Hin|].
  intros Hall. rewrite Hs1, <- En. symmetry. apply filter_prefix, Hall.
Qed.

(** ** The blocks of the pattern *)

Section PatternBlocks.
Context {rt : JSRuntime}.

Lemma lanePosition_new (canvas : Canvas) (song : Level) (g : GameScene.t) (ln : Z) :
  GameScene.lanePositions g = GameScene.lanePositions (GameScene.new canvas song) ->
  (0 <= ln < config.numLanes)%Z ->
  GameScene.lanePosition ln g = Some (laneCentre canvas ln).
Proof.
  intros Hl Hln. unfold GameScene.lanePosition. rewrite Hl.
  destruct (0 <=? ln)%Z eqn:E; [|apply Z.leb_gt in E; lia].
  unfold GameScene.new. cbv zeta. cbn [GameScene.lanePositions].
  rewrite nth_error_map, nth_error_seq.
  change (Z.to_nat config.numLanes) with 6%nat.
  destruct (Nat.ltb_spec (Z.to_nat ln) 6) as [_|Hge];
    [|change config.numLanes with 6%Z in Hln; lia].
  cbn [option_map Nat.add]. unfold laneCentre. cbv zeta.
  rewrite Z2Nat.id by lia. reflexivity.
Qed.

(** The block that the scheduler makes for an event whose lane is one of
    the lanes. *)
Lemma spawnBlockOfType_exact (canvas : Canvas) (song : Level) (ev : NoteEvent)
    (g : GameScene.t) :
  GameScene.lanePositions g = GameScene.lanePositions (GameScene.new canvas song) ->
  laneInRange ev ->
  let g' := GameScene.spawnBlockOfType (type ev) (lane ev) g in
  GameScene.spawned g' = GameScene.spawned g ++ noteBlock canvas ev
  /\ GameScene.blocks g' = GameScene.blocks g ++ noteBlock canvas ev.
Proof.
  intros Hl Hln. cbv zeta. rewrite spawnBlockOfType_alt. unfold noteBlock.
  destruct (blockTypeAt (type ev)) as [typeDef|] eqn:E;
    [|rewrite !app_nil_r; split; reflexivity].
  destruct (blockTypeAt_in _ _ E) as (_ & Hsp).
  destruct (spawnBlockWithTypeDef_block typeDef (lane ev) g) as (_ & _ & Hb).
  rewrite (lanePosition_new canvas song g (lane ev) Hl Hln), Hsp in Hb.
  destruct Hb as (Hb & Hs & _). split; [exact Hs | exact Hb].
Qed.

Lemma spawnDue_exact (canvas : Canvas) (song : Level) (fuel : nat) :
  forall g,
    GameScene.lanePositions g = GameScene.lanePositions (GameScene.new canvas song) ->
    Forall laneInRange (GameScene.spawns g) ->
    let g' := GameScene.spawnDue fuel g in
    exists evs,
      GameScene.emitted g' = GameScene.emitted g ++ evs
      /\ GameScene.spawned g' = GameScene.spawned g ++ flat_map (noteBlock canvas) evs.
Proof.
  induction fuel as [|fuel IH]; intros g Hl Hsp; cbn [GameScene.spawnDue].
  - exists []. cbn [flat_map]. rewrite !app_nil_r. split; reflexivity.
  - destruct (nth_error (GameScene.spawns g) (GameScene.spawnIndex g)) as [ev|] eqn:En;
      [|exists []; cbn [flat_map]; rewrite !app_nil_r; split; reflexivity].
    destruct (Qleb (time ev) (GameScene.timeElapsed g));
      [|exists []; cbn [flat_map]; rewrite !app_nil_r; split; reflexivity].
    cbv zeta. set (g1 := GameScene.set_emitted _ g).
    assert (Hev : laneInRange ev).
    { eapply Forall_forall in Hsp; [exact Hsp | eapply nth_error_In, En]. }
    destruct (spawnBlockOfType_exact canvas song ev g1 Hl Hev) as (Hs1 & _).
    destruct (spawnBlockOfType_rest (type ev) (lane ev) g1) as ((_ & _ & Hl1 & _) & _).
    destruct (spawnBlockOfType_spec ev g1) as (nw & _ & _ & _ & _ & He1 & Hsame).
    destruct Hsame as (_ & _ & _ & _ & _ & _ & Hsp1 & _).
    set (g2 := GameScene.spawnBlockOfType (type ev) (lane ev) g1) in *.
    destruct (IH (GameScene.set_spawnIndex (S (GameScene.spawnIndex g2)) g2))
      as (evs & He & Hs).
    + gcbn. rewrite Hl1. exact Hl.
    + gcbn. rewrite Hsp1. exact Hsp.
    + exists (ev :: evs). gcbn in He Hs. rewrite He, Hs, He1, Hs1. subst g1. gcbn.
      cbn [flat_map]. rewrite <- !app_assoc. split; reflexivity.
Qed.

Lemma update_pattern_blocks (canvas : Canvas) (song : Level) (dt : Q) (g : GameScene.t) :
  GameScene.usePattern g = true ->
  GameScene.lanePositions g = GameScene.lanePositions (GameScene.new canvas song) ->
  Forall laneInRange (GameScene.spawns g) ->
  GameScene.spawned g = flat_map (noteBlock canvas) (GameScene.emitted g) ->
  GameScene.spawned (GameScene.update dt g)
  = flat_map (noteBlock canvas) (GameScene.emitted (GameScene.update dt g)).
Proof.
  intros Hu Hl Hsp Hinv.
  destruct (GameScene.gameOver g) eqn:Hlive.
  { unfold GameScene.update. rewrite Hlive. exact Hinv. }
  destruct (update_spec dt g Hlive) as (_ & _ & _ & _ & Hsame).
  destruct Hsame as (_ & _ & _ & He & Hs & _). rewrite He, Hs.
  unfold GameScene.spawnPhase.
  set (g0 := if GameScene.audioStarted g then g else _).
  assert (H0 : GameScene.usePattern g0 = true
               /\ GameScene.lanePositions g0 = GameScene.lanePositions g
               /\ GameScene.spawns g0 = GameScene.spawns g
               /\ GameScene.spawned g0 = GameScene.spawned g
               /\ GameScene.emitted g0 = GameScene.emitted g).
  { subst g0. destruct (GameScene.audioStarted g); gcbn; repeat split; exact Hu. }
  clearbody g0. destruct H0 as (A1 & A2 & A3 & A4 & A5). cbv zeta. gcbn. rewrite A1.
  match goal with
  | |- context [GameScene.spawnDue ?n ?g1] =>
      destruct (spawnDue_exact canvas song n g1) as (evs & E1 & E2)
  end.
  - gcbn. rewrite A2. exact Hl.
  - gcbn. rewrite A3. exact Hsp.
  - rewrite E1, E2. gcbn. rewrite A4, A5, Hinv, flat_map_app. reflexivity.
Qed.

(** X28.  Every note of the pattern falls in its lane.  In a game on a
    song with a pattern whose lanes are all in range, the blocks ever spawned
    are, in order, the blocks of the events the scheduler has emitted: one
    per event whose type index is in range, of that type, centred on the
    lane of the event, 40 px wide, starting 40 px above the canvas, falling
    at 200 px a second. *)
Theorem pattern_notes_fall_in_their_lanes (canvas : Canvas) (song : Level)
    (dts : list Q) :
  GameScene.usePattern (GameScene.new canvas song) = true ->
  Forall laneInRange (GameScene.spawns (GameScene.new canvas song)) ->
  let g := GameScene.updates dts (GameScene.new canvas song) in
  GameScene.spawned g = flat_map (noteBlock canvas) (GameScene.emitted g).
Proof.
  intros Hu Hsp g. subst g.
  assert (Hinv : let g := GameScene.updates dts (GameScene.new canvas song) in
                 GameScene.usePattern g = true
                 /\ GameScene.lanePositions g
                    = GameScene.lanePositions (GameScene.new canvas song)
                 /\ GameScene.spawns g = GameScene.spawns (GameScene.new canvas song)
                 /\ GameScene.spawned g = flat_map (noteBlock canvas) (GameScene.emitted g)).
  { induction dts as [|dt dts IH] using rev_ind.
    - cbv zeta. unfold GameScene.updates. cbn [fold_left].
      split; [exact Hu|]. repeat split.
    - cbv zeta in *. rewrite updates_snoc.
      set (g := GameScene.updates dts (GameScene.new canvas song)) in *.
      destruct IH as (I1 & I2 & I3 & I4).
      assert (Hsp' : Forall laneInRange (GameScene.spawns g)) by (rewrite I3; exact Hsp).
      split; [|split; [|split]].
      + destruct (GameScene.gameOver g) eqn:Hlive.
        * unfold GameScene.update. rewrite Hlive. exact I1.
        * destruct (update_spec dt g Hlive) as (_ & _ & _ & _ & Hsame).
          destruct Hsame as (_ & _ & _ & _ & _ & U).
          destruct (spawnPhase_spec dt g) as (_ & _ & _ & _ & _ & _ & _ & U1 & _).
          rewrite U, U1. exact I1.
      + destruct (GameScene.gameOver g) eqn:Hlive.
        * unfold GameScene.update. rewrite Hlive. exact I2.
        * destruct (update_rest dt g Hlive) as (_ & _ & _ & U & _). rewrite U. exact I2.
      + destruct (GameScene.gameOver g) eqn:Hlive.
        * unfold GameScene.update. rewrite Hlive. exact I3.
        * destruct (update_spec dt g Hlive) as (_ & _ & _ & _ & Hsame).
          destruct Hsame as (U & _).
          destruct (spawnPhase_spec dt g) as (_ & _ & _ & _ & _ & _ & U1 & _).
          rewrite U, U1. exact I3.
      + apply (update_pattern_blocks canvas song dt g I1 I2 Hsp' I4). }
  cbv zeta in Hinv. destruct Hinv as (_ & _ & _ & H). exact H.
Qed.

End PatternBlocks.

(** ** The end of a note drag *)

(** X29.  A move and the release that ends a note drag.  On a canvas for
    the editor, with a track that has a width and a [pxPerSecond] that is
    not 0, and with a note drag in progress on the note at index [i], a move
    of the pointer followed by the release leaves the editor idle, with a
    pattern that is sorted by time and holds the notes it held before,
    except that the dragged note is replaced by the note written for the
    last position of the pointer. *)
Theorem note_drag_release_sorts_the_moved_note (x y : Q) (s : EditorScene.t)
    (i : nat) (note : NoteEvent) :
  editorCanvas (EditorScene.canvas s) ->
  ~ EditorScene.pxPerSecond s == 0 ->
  ~ EditorScene.viewportWidth (EditorScene.layout (EditorScene.computeLayout s)) == 0 ->
  EditorScene.scrollHandleDragging s = false ->
  EditorScene.dragging s = true ->
  EditorScene.dragNoteIndex s = Some i ->
  nth_error (EditorScene.spawns s) i = Some note ->
  let s' := EditorScene.onTouchEnd (EditorScene.onTouchMove x y s) in
  Permutation (EditorScene.spawns s')
    (movedNote x y (EditorScene.computeLayout s) note
       :: firstn i (EditorScene.spawns s) ++ skipn (S i) (EditorScene.spawns s))
  /\ sortedByTime (EditorScene.spawns s')
  /\ List.length (EditorScene.spawns s') = List.length (EditorScene.spawns s)
  /\ EditorScene.dragging s' = false
  /\ EditorScene.dragNoteIndex s' = None
  /\ EditorScene.scrollHandleDragging s' = false.
Proof.
  intros _ _ _ Hh Hd Hi Hn s'. subst s'.
  destruct (computeLayout_fields s) as (Csp & Ch & Cd & Ci & _).
  set (u := EditorScene.computeLayout s) in *.
  assert (Hmove : EditorScene.onTouchMove x y s
                  = EditorScene.set_spawns
                      (firstn i (EditorScene.spawns s)
                       ++ movedNote x y u note :: skipn (S i) (EditorScene.spawns s)) u).
  { unfold EditorScene.onTouchMove. rewrite Hh, Hd. cbn [negb]. fold u.
    unfold EditorScene.dragNote. rewrite Ci, Hi, Csp, Hn. reflexivity. }
  rewrite Hmove. unfold EditorScene.onTouchEnd. ecbn. rewrite Ch, Hh, Cd, Hd. ecbn.
  set (l := firstn i (EditorScene.spawns s)
            ++ movedNote x y u note :: skipn (S i) (EditorScene.spawns s)).
  assert (Hp : Permutation (sortByTime l)
                 (movedNote x y u note
                    :: firstn i (EditorScene.spawns s) ++ skipn (S i) (EditorScene.spawns s))).
  { eapply perm_trans; [apply Permutation_sym, sortByTime_perm|].
    subst l. apply Permutation_sym, Permutation_middle. }
  split; [exact Hp|]. split; [apply sortByTime_sorted|].
  split; [|repeat split; rewrite Ch; exact Hh].
  rewrite (Permutation_length Hp). cbn [List.length]. rewrite length_app.
  rewrite <- (firstn_skipn i (EditorScene.spawns s)) at 3. rewrite length_app.
  assert (Hlt : (i < List.length (EditorScene.spawns s))%nat).
  { apply nth_error_Some. congruence. }
  rewrite !length_skipn. rewrite length_firstn. lia.
Qed.

(** ** The further theorems at concrete inputs *)

Lemma phoneCanvas_for_editor : editorCanvas phoneCanvas.
Proof. split; intros H; vm_compute in H; discriminate. Qed.

(** The player at (100, 500), 60 px wide, and a block of 40 px with its top
    left corner at the same point. *)
Lemma rectIntersect_witness : rectIntersect 100 500 60 60 100 500 40 40 = true.
Proof.
  assert (H60 : 0 < 60) by reflexivity.
  assert (H40 : 0 < 40) by reflexivity.
  destruct (rectIntersect_iff_common_interior_point 100 500 60 60 100 500 40 40
              H60 H60 H40 H40) as [[_ H] _].
  apply H. exists 120, 520. repeat split; reflexivity.
Defined.

Lemma setPosition_witness :
  0 <= Player.targetX (Player.setPosition 10 (Player.new phoneCanvas))
    <= canvasWidth (Player.canvas (Player.new phoneCanvas))
       - Player.width (Player.new phoneCanvas).
Proof.
  assert (Hw : Player.width (Player.new phoneCanvas)
               <= canvasWidth (Player.canvas (Player.new phoneCanvas)))
    by (vm_compute; discriminate).
  destruct (setPosition_keeps_target_on_canvas 10 (Player.new phoneCanvas) Hw) as (H & _).
  exact H.
Defined.

(** The new player, at x = 170, after a touch at 300 has put its target at
    270: a frame of 0.05 s does not move it left. *)
Lemma update_moves_witness :
  Player.x (Player.setPosition 300 (Player.new phoneCanvas))
  <= Player.x (Player.update (rt := sampleRuntime) 0.05
                 (Player.setPosition 300 (Player.new phoneCanvas))).
Proof.
  assert (Hdt : 0 <= 0.05) by (vm_compute; discriminate).
  destruct (update_moves_player_towards_target (rt := sampleRuntime) 0.05
              (Player.setPosition 300 (Player.new phoneCanvas)) Hdt) as (H & _).
  apply H. vm_compute. discriminate.
Defined.

Lemma player_on_canvas_witness :
  let p := GameScene.player
             (GameScene.run (rt := sampleRuntime)
                [GameScene.Frame 0.1; GameScene.TouchStart 10 10; GameScene.Frame 0.05]
                (GameScene.new phoneCanvas threeNotes)) in
  0 <= Player.x p <= canvasWidth phoneCanvas - config.player.size
  /\ 0 <= Player.targetX p <= canvasWidth phoneCanvas - config.player.size.
Proof.
  assert (Hw : config.player.size <= canvasWidth phoneCanvas) by (vm_compute; discriminate).
  assert (Hes : nonnegFrames
                  [GameScene.Frame 0.1; GameScene.TouchStart 10 10; GameScene.Frame 0.05]).
  { repeat constructor; vm_compute; discriminate. }
  exact (player_stays_on_canvas (rt := sampleRuntime) phoneCanvas threeNotes _ Hw Hes).
Defined.

Lemma spawnBlockRandom_witness :
  exists b,
    GameScene.blocks (GameScene.spawnBlockRandom (rt := sampleRuntime)
                        (GameScene.new phoneCanvas silentSong)) = [b]
    /\ In (Block.x b) (GameScene.lanePositions (GameScene.new phoneCanvas silentSong)).
Proof.
  assert (Hl : List.length (GameScene.lanePositions (GameScene.new phoneCanvas silentSong))
               = Z.to_nat config.numLanes) by reflexivity.
  destruct (spawnBlockRandom_adds_one_block_in_a_lane (rt := sampleRuntime) _ Hl)
    as (b & Hb & _ & Hx & _).
  exists b. split; [exact Hb | exact Hx].
Defined.

(** Frames of 1 s, 5 s and 0.8 s without a pattern: three blocks, one per
    frame, though 6.8 s hold eight intervals of 0.8 s. *)
Lemma random_mode_witness :
  let g := GameScene.updates (rt := sampleRuntime) [1; 5; 0.8]
             (GameScene.new phoneCanvas silentSong) in
  List.length (GameScene.spawned g) = 3%nat.
Proof.
  assert (Hrand : GameScene.usePattern (GameScene.new phoneCanvas silentSong) = false)
    by reflexivity.
  assert (Hdts : Forall (fun dt => 0.8 <= dt) [1; 5; 0.8]).
  { repeat constructor; vm_compute; discriminate. }
  assert (Hlive : GameScene.gameOver
                    (GameScene.updates (rt := sampleRuntime) [1; 5; 0.8]
                       (GameScene.new phoneCanvas silentSong)) = false)
    by (vm_compute; reflexivity).
  destruct (random_mode_spawns_at_most_one_block_per_frame (rt := sampleRuntime)
              phoneCanvas silentSong [1; 5; 0.8] Hrand) as (_ & H & _).
  exact (H Hdts Hlive).
Defined.

(** A miss in a frame of 0.4 s: its score effect has 0.4 s left. *)
Lemma effects_witness :
  let g := GameScene.run (rt := sampleRuntime)
             [GameScene.Frame 0; GameScene.Frame 4; GameScene.Frame 0.4]
             (GameScene.new phoneCanvas (oneNote 0)) in
  List.length (GameScene.scoreEffects g) = 1%nat
  /\ Forall (fun e => 0 < ScoreEffect.life e <= 0.8 /\ 0 < ScoreEffect.alpha e <= 1)
       (GameScene.scoreEffects g).
Proof.
  assert (Hes : nonnegFrames [GameScene.Frame 0; GameScene.Frame 4; GameScene.Frame 0.4]).
  { repeat constructor; vm_compute; discriminate. }
  destruct (effects_kept_are_alive (rt := sampleRuntime) phoneCanvas (oneNote 0) _ Hes)
    as (H & _).
  split; [vm_compute; reflexivity | exact H].
Defined.

Lemma final_game_over_witness :
  let g := GameScene.endGame (GameScene.new phoneCanvas threeNotes) in
  let g' := GameScene.run (rt := sampleRuntime)
              [GameScene.TouchMove 10 10; GameScene.Frame 1] g in
  GameScene.gameOver g' = true /\ GameScene.player g' = GameScene.player g.
Proof.
  assert (Hover : GameScene.gameOver
                    (GameScene.endGame (GameScene.new phoneCanvas threeNotes)) = true)
    by reflexivity.
  destruct (game_over_is_final (rt := sampleRuntime) _
              [GameScene.TouchMove 10 10; GameScene.Frame 1] Hover)
    as (H1 & _ & _ & _ & _ & H2 & _).
  split; [exact H1 | exact H2].
Defined.

Lemma game_is_over_witness :
  GameScene.gameOver
    (GameScene.updates (rt := sampleRuntime) [60; 60] (GameScene.new phoneCanvas threeNotes))
  = true.
Proof.
  assert (Hall : Forall (fun dt => 0 <= dt) [60; 60])
    by (repeat constructor; vm_compute; discriminate).
  assert (Hne : [60; 60] <> []) by discriminate.
  destruct (game_is_over_when_the_clock_reaches_the_duration (rt := sampleRuntime)
              phoneCanvas threeNotes [60; 60] Hall Hne) as ((_ & H) & _).
  apply H. vm_compute. discriminate.
Defined.

Lemma scroll_steps_witness :
  let u := EditorScene.computeLayout (EditorScene.new phoneCanvas emptyHost) in
  0 <= EditorScene.scrollOffset (EditorScene.scrollDown u) <= EditorScene.maxScroll u
  /\ EditorScene.scrollOffset (EditorScene.scrollUp u) == 0.
Proof.
  assert (Hh : 280 <= canvasHeight (EditorScene.canvas (EditorScene.new phoneCanvas emptyHost)))
    by (vm_compute; discriminate).
  destruct (scroll_steps_stay_in_range (EditorScene.new phoneCanvas emptyHost)
              phoneCanvas_for_editor Hh)
    as (_ & _ & H1 & _ & _ & H2 & _).
  split; [exact H1|]. apply H2. vm_compute. reflexivity.
Defined.

Lemma scroll_handle_drag_witness :
  0 <= EditorScene.scrollOffset (EditorScene.onTouchMove 361 9000 grabbedHandle)
    <= EditorScene.maxScroll (EditorScene.onTouchMove 361 9000 grabbedHandle).
Proof.
  assert (Hd : EditorScene.scrollHandleDragging grabbedHandle = true)
    by (vm_compute; reflexivity).
  assert (Hb : EditorScene.scrollHandle (EditorScene.bounds grabbedHandle)
               = Some (handleBox grabbedHandle)) by (vm_compute; reflexivity).
  assert (Hroom : ~ boxH (handleBox grabbedHandle)
                    == canvasHeight (EditorScene.canvas grabbedHandle) - 280 - 48)
    by (vm_compute; discriminate).
  destruct (scroll_handle_drag_stays_in_range 361 9000 grabbedHandle _ Hd Hb Hroom)
    as (H & _).
  exact H.
Defined.

Lemma next_and_previous_song_witness :
  EditorScene.currentLevelIndex
    (EditorScene.prevSong (EditorScene.nextSong (EditorScene.new phoneCanvas emptyHost)))
  = 0%nat
  /\ EditorScene.currentLevelIndex (EditorScene.nextSong (EditorScene.new phoneCanvas emptyHost))
     = 1%nat.
Proof.
  assert (Hi : (EditorScene.currentLevelIndex (EditorScene.new phoneCanvas emptyHost)
                < List.length (EditorScene.levels (EditorScene.new phoneCanvas emptyHost)))%nat)
    by (vm_compute; lia).
  destruct (next_and_previous_song_undo_each_other _ Hi) as (H & _).
  split; [exact H | vm_compute; reflexivity].
Defined.


(** A drag of the first note of the drawn editor to lane 2 at 1 s. *)
Lemma drag_witness :
  let s := EditorScene.computeLayout grabbedNote in
  exists note',
    nth_error (EditorScene.spawns (EditorScene.dragNote 200 250 s)) 0 = Some note'
    /\ type note' = type (noteAt 0 s)
    /\ List.length (EditorScene.spawns (EditorScene.dragNote 200 250 s)) = 151%nat.
Proof.
  assert (Hidx : EditorScene.dragNoteIndex (EditorScene.computeLayout grabbedNote)
                 = Some 0%nat) by (vm_compute; reflexivity).
  assert (Hnote : nth_error (EditorScene.spawns (EditorScene.computeLayout grabbedNote)) 0
                  = Some (noteAt 0 (EditorScene.computeLayout grabbedNote)))
    by (vm_compute; reflexivity).
  assert (Hdur : 0 <= levelDuration (EditorScene.level (EditorScene.computeLayout grabbedNote)))
    by (vm_compute; discriminate).
  assert (Hpx : ~ EditorScene.pxPerSecond (EditorScene.computeLayout grabbedNote) == 0)
    by (vm_compute; discriminate).
  assert (Hw : ~ EditorScene.viewportWidth
                   (EditorScene.layout (EditorScene.computeLayout grabbedNote)) == 0)
    by (vm_compute; discriminate).
  destruct (drag_rewrites_one_note_and_keeps_its_type 200 250 _ 0 _ Hidx Hnote Hdur Hpx Hw)
    as (note' & H1 & H2 & _ & _ & H5 & _).
  exists note'. split; [exact H1|]. split; [exact H2|].
  rewrite H5. vm_compute. reflexivity.
Defined.


Lemma sorted_pattern_witness :
  sortedByTime
    (EditorScene.spawns (EditorScene.run twoTaps (EditorScene.new phoneCanvas emptyHost))).
Proof.
  assert (Hd : EditorScene.dragging
                 (EditorScene.run twoTaps (EditorScene.new phoneCanvas emptyHost)) = false)
    by (vm_compute; reflexivity).
  exact (pattern_is_sorted_unless_a_note_is_dragged phoneCanvas emptyHost twoTaps
           phoneCanvas_for_editor Hd).
Defined.

Lemma valid_notes_witness :
  Forall validNote
    (EditorScene.spawns (EditorScene.run twoTaps (EditorScene.new phoneCanvas emptyHost))).
Proof.
  assert (Hh : validHost emptyHost) by constructor.
  destruct (editor_makes_only_valid_notes phoneCanvas emptyHost twoTaps
              phoneCanvas_for_editor Hh) as (H & _).
  exact H.
Defined.

Lemma test_game_witness :
  exists song,
    EditorScene.sceneRequest
      (EditorScene.onTouchStart 200 750
         (EditorScene.run (firstn 1 tapOnTest) (EditorScene.new phoneCanvas emptyHost)))
    = Some (ToGame song)
    /\ sortedByTime (GameScene.spawns (GameScene.new phoneCanvas song)).
Proof.
  assert (Hh : validHost emptyHost) by constructor.
  assert (Hres : resolvedGestures false tapOnTest = true) by reflexivity.
  assert (Hn : nth_error tapOnTest 1 = Some (EditorScene.PointerDown 200 750))
    by reflexivity.
  assert (Htest : EditorScene.onTouchStart 200 750
                    (EditorScene.run (firstn 1 tapOnTest)
                       (EditorScene.new phoneCanvas emptyHost))
                  = EditorScene.playTest
                      (EditorScene.computeLayout
                         (EditorScene.run (firstn 1 tapOnTest)
                            (EditorScene.new phoneCanvas emptyHost))))
    by (vm_compute; reflexivity).
  destruct (test_game_gets_a_sorted_pattern phoneCanvas emptyHost tapOnTest 1 200 750
              phoneCanvas_for_editor Hh Hres Hn Htest) as (song & H1 & _ & H3 & _).
  exists song. split; [exact H1 | exact H3].
Defined.


(** The handle of the drawn editor, grabbed at 230: a pointer at 9000
    scrolls to the end. *)
Lemma scroll_handle_follows_witness :
  EditorScene.scrollOffset (EditorScene.onTouchMove 361 9000 grabbedHandle)
  == EditorScene.maxScroll (EditorScene.computeLayout grabbedHandle).
Proof.
  assert (Hd : EditorScene.scrollHandleDragging grabbedHandle = true)
    by (vm_compute; reflexivity).
  assert (Hb : EditorScene.scrollHandle (EditorScene.bounds grabbedHandle)
               = Some (handleBox grabbedHandle)) by (vm_compute; reflexivity).
  assert (Hpos : 0 < EditorScene.maxScroll (EditorScene.computeLayout grabbedHandle))
    by (vm_compute; reflexivity).
  assert (Htravel : EditorScene.viewportY
                      (EditorScene.layout (EditorScene.computeLayout grabbedHandle)) + 24
                    < EditorScene.viewportY
                        (EditorScene.layout (EditorScene.computeLayout grabbedHandle))
                      + EditorScene.viewportHeight
                          (EditorScene.layout (EditorScene.computeLayout grabbedHandle))
                      - 24 - boxH (handleBox grabbedHandle))
    by (vm_compute; reflexivity).
  destruct (scroll_handle_drag_follows_the_pointer grabbedHandle (handleBox grabbedHandle)
              361 9000 361 9000 Hd Hb Hpos Htravel) as (_ & _ & H).
  apply H. vm_compute. discriminate.
Defined.


Lemma falling_blocks_witness :
  let g := GameScene.run (rt := sampleRuntime) [GameScene.Frame 0.1; GameScene.Frame 1]
             (GameScene.new phoneCanvas threeNotes) in
  List.length (GameScene.blocks g) = 2%nat
  /\ Forall (blockKept phoneCanvas) (GameScene.blocks g).
Proof.
  assert (Hw : 240 <= canvasWidth phoneCanvas) by (vm_compute; discriminate).
  assert (Hes : nonnegFrames [GameScene.Frame 0.1; GameScene.Frame 1]).
  { repeat constructor; vm_compute; discriminate. }
  split; [vm_compute; reflexivity|].
  exact (falling_blocks_stay_in_range (rt := sampleRuntime) phoneCanvas threeNotes _ Hw Hes).
Defined.

(** A pointer-down on the first note of the editor as first drawn. *)
Lemma note_drag_index_witness :
  let s := EditorScene.new phoneCanvas emptyHost in
  EditorScene.dragNoteIndex (EditorScene.onTouchStart 100 200 (EditorScene.render s))
  = Some 0%nat
  /\ exists note,
       nth_error (filter (inView (EditorScene.render s)) (EditorScene.spawns s)) 0 = Some note
       /\ nth_error
            (EditorScene.spawns (EditorScene.onTouchStart 100 200 (EditorScene.render s))) 0
          = Some note.
Proof.
  assert (Hmiss : EditorScene._hitBox
                    (EditorScene.scrollHandle
                       (EditorScene.bounds
                          (EditorScene.render (EditorScene.new phoneCanvas emptyHost))))
                    100 200 = false) by (vm_compute; reflexivity).
  assert (Hhit : EditorScene.hitIndex
                   (EditorScene.noteBoxes
                      (EditorScene.bounds
                         (EditorScene.render (EditorScene.new phoneCanvas emptyHost))))
                   100 200 = Some 0%nat) by (vm_compute; reflexivity).
  assert (Hall : forallb (inView (EditorScene.render (EditorScene.new phoneCanvas emptyHost)))
                   (firstn 1 (EditorScene.spawns (EditorScene.new phoneCanvas emptyHost)))
                 = true) by (vm_compute; reflexivity).
  destruct (note_drag_index_counts_the_notes_in_view (EditorScene.new phoneCanvas emptyHost)
              100 200 0 Hmiss Hhit) as (_ & Hidx & _ & note & Hn & _ & Hsame).
  split; [exact Hidx|]. exists note. split; [exact Hn | exact (Hsame Hall)].
Defined.

(** Once the first note is out of view the drag index names another note:
    on [scrolledEditor] the pointer-down at (190, 260) is on the box of the
    note at 6.4 s, the third note in view, and the drag it starts has index
    2, which in the pattern is the note at 1.6 s. *)
Remark scrolled_drag_index_names_another_note :
  let s := EditorScene.onTouchStart 190 260 scrolledEditor in
  EditorScene.dragging s = true
  /\ EditorScene.dragNoteIndex s = Some 2%nat
  /\ option_map time (nth_error (filter (inView scrolledEditor) (EditorScene.spawns s)) 2)
     = Some (toFixed2 6.4)
  /\ option_map time (nth_error (EditorScene.spawns s) 2) = Some (toFixed2 1.6).
Proof. vm_compute. repeat split; reflexivity. Qed.

Lemma pattern_lanes_witness :
  let g := GameScene.updates (rt := sampleRuntime) [0.1; 1]
             (GameScene.new phoneCanvas threeNotes) in
  GameScene.spawned g = flat_map (noteBlock phoneCanvas) (GameScene.emitted g).
Proof.
  assert (Hu : GameScene.usePattern (GameScene.new phoneCanvas threeNotes) = true)
    by (vm_compute; reflexivity).
  assert (Hl : Forall laneInRange (GameScene.spawns (GameScene.new phoneCanvas threeNotes))).
  { repeat constructor; vm_compute; discriminate. }
  exact (pattern_notes_fall_in_their_lanes (rt := sampleRuntime) phoneCanvas threeNotes
           [0.1; 1] Hu Hl).
Defined.

(** The first note of the drawn editor, moved to lane 2 at 1 s and
    released. *)
Lemma note_drag_release_witness :
  let s' := EditorScene.onTouchEnd (EditorScene.onTouchMove 200 250 grabbedNote) in
  sortedByTime (EditorScene.spawns s')
  /\ List.length (EditorScene.spawns s') = List.length (EditorScene.spawns grabbedNote)
  /\ EditorScene.dragging s' = false.
Proof.
  assert (Hh : EditorScene.scrollHandleDragging grabbedNote = false)
    by (vm_compute; reflexivity).
  assert (Hd : EditorScene.dragging grabbedNote = true) by (vm_compute; reflexivity).
  assert (Hi : EditorScene.dragNoteIndex grabbedNote = Some 0%nat)
    by (vm_compute; reflexivity).
  assert (Hn : nth_error (EditorScene.spawns grabbedNote) 0 = Some (noteAt 0 grabbedNote))
    by (vm_compute; reflexivity).
  assert (Hpx : ~ EditorScene.pxPerSecond grabbedNote == 0)
    by (vm_compute; discriminate).
  assert (Hw : ~ EditorScene.viewportWidth
                   (EditorScene.layout (EditorScene.computeLayout grabbedNote)) == 0)
    by (vm_compute; discriminate).
  assert (Hc : editorCanvas (EditorScene.canvas grabbedNote))
    by (split; intros H; vm_compute in H; discriminate).
  destruct (note_drag_release_sorts_the_moved_note 200 250 grabbedNote 0 _
              Hc Hpx Hw Hh Hd Hi Hn)
    as (_ & H1 & H2 & H3 & _).
  split; [exact H1|]. split; [exact H2 | exact H3].
Defined.
